(** * The Raft role engine of pkg/raft/raft.go

    A shallow embedding of the per-replica state machine of
    [pkg/raft/raft.go]: the outbound queues ([send]), the commit rule
    ([maybeCommit]), role transitions ([becomeFollower], [becomeCandidate],
    [becomePreCandidate], [becomeLeader]), campaigning ([hup], [campaign]),
    the message dispatcher ([Step]) and the follower/candidate/leader step
    functions.

    [raft.go] is the only file of the package at hand.  The packages it
    calls ([raftpb], [quorum], [tracker]) and the log ([log.go]) are
    modelled from the design document where it describes them, and taken
    as parameters (class [External]) where it does not.

    Conventions:
    - [uint64] is [N]; arithmetic that the Go code performs on it is wrapped
      with [u64] (reduction modulo 2^64).  [int] is [Z], wrapped with [i64].
    - a Go method with receiver [r *raft] is a computation in the monad [M]:
      it reads and writes the replica, and may panic. *)

From stdpp Require Import gmap strings list sorting.
From Stdlib Require Import ZArith NArith Lia Ascii.

Set Primitive Projections.
Set Default Proof Using "Type".

Local Open Scope N_scope.

(** ** Machine integers *)

Definition MaxUint64 : N := 18446744073709551615.

(** Result of a [uint64] operation: the value modulo 2^64. *)
Definition u64 (x : N) : N := x mod 18446744073709551616.

(** Result of an [int] (64-bit, two's complement) operation. *)
Definition i64 (x : Z) : Z :=
  ((x + 9223372036854775808) mod 18446744073709551616 - 9223372036854775808)%Z.

Lemma u64_small x : x <= MaxUint64 -> u64 x = x.
Proof. unfold u64, MaxUint64. intros H. apply N.mod_small. lia. Qed.

Lemma u64_bound x : u64 x <= MaxUint64.
Proof.
  unfold u64, MaxUint64.
  pose proof (N.mod_upper_bound x 18446744073709551616). lia.
Qed.

Lemma i64_small x :
  (-9223372036854775808 <= x < 9223372036854775808)%Z -> i64 x = x.
Proof. unfold i64. intros H. rewrite Z.mod_small; lia. Qed.

#[global] Instance byte_eq_dec : EqDecision Byte.byte := Byte.byte_eq_dec.

(** ** Peer identifiers (raft.go, lines 38-51) *)

Abbreviation PeerID := N (only parsing).

(** [None] of raft.go; renamed because of the [option] constructor. *)
Definition NoneID : PeerID := 0.
Definition LocalAppendThread : PeerID := MaxUint64.
Definition LocalApplyThread : PeerID := MaxUint64 - 1.

(** ** raftpb: entries and messages *)

Module pb.

Inductive EntryType := EntryNormal | EntryConfChange | EntryConfChangeV2.

Inductive MessageType :=
| MsgHup | MsgBeat | MsgProp | MsgApp | MsgAppResp | MsgVote | MsgVoteResp
| MsgSnap | MsgHeartbeat | MsgHeartbeatResp | MsgUnreachable | MsgSnapStatus
| MsgCheckQuorum | MsgTransferLeader | MsgTimeoutNow | MsgPreVote
| MsgPreVoteResp | MsgStorageAppend | MsgStorageAppendResp | MsgStorageApply
| MsgStorageApplyResp | MsgForgetLeader.

#[global] Instance EntryType_eq_dec : EqDecision EntryType.
Proof. solve_decision. Defined.

#[global] Instance MessageType_eq_dec : EqDecision MessageType.
Proof. solve_decision. Defined.

(** Modelled from the spec: the [LogEntry] entity of raftpb (section 3):
    [index], [term], [type] and an opaque [data]. *)
Record Entry := mkEntry {
  e_Term : N;
  e_Index : N;
  e_Type : EntryType;
  e_Data : list Byte.byte;
}.

(** The zero value [pb.Entry{}]: [EntryNormal] is the first enumerator. *)
Definition Entry0 : Entry :=
  {| e_Term := 0; e_Index := 0; e_Type := EntryNormal; e_Data := [] |}.

(** Modelled from the spec: the [ConfState] entity of raftpb (section 3). *)
Record ConfState := mkConfState {
  cs_Voters : list N;
  cs_Learners : list N;
  cs_VotersOutgoing : list N;
  cs_LearnersNext : list N;
  cs_AutoLeave : bool;
}.

(** Modelled from the spec: the [Snapshot] entity of raftpb (section 3). *)
Record Snapshot := mkSnapshot {
  snap_Index : N;
  snap_Term : N;
  snap_ConfState : ConfState;
  snap_Data : list Byte.byte;
}.

(** Modelled from the spec: one change of a configuration change (raftpb);
    only the number of changes matters to raft.go. *)
Record ConfChangeSingle := mkConfChangeSingle {
  ccs_Type : N;
  ccs_NodeID : N;
}.

(** Modelled from the spec: the legacy single-change [ConfChange] of
    raftpb. *)
Record ConfChange := mkConfChange {
  cc_Type : N;
  cc_NodeID : N;
  cc_Context : list Byte.byte;
}.

(** Modelled from the spec: [ConfChangeV2] of raftpb; a change with no
    [Changes] asks to leave a joint configuration (section 4.3.5). *)
Record ConfChangeV2 := mkConfChangeV2 {
  cc2_Transition : N;
  cc2_Changes : list ConfChangeSingle;
  cc2_Context : list Byte.byte;
}.

(** The interface [pb.ConfChangeI]: either shape. *)
Inductive ConfChangeI :=
| V1 (cc : ConfChange)
| V2 (cc : ConfChangeV2).

(** Modelled from the spec: [AsV2], "decode into a ConfChangeV2 shape"
    (section 4.3.5): a legacy change is the list of its single change. *)
Definition AsV2 (c : ConfChangeI) : ConfChangeV2 :=
  match c with
  | V1 cc =>
      {| cc2_Transition := 0;
         cc2_Changes := [ {| ccs_Type := cc_Type cc; ccs_NodeID := cc_NodeID cc |} ];
         cc2_Context := cc_Context cc |}
  | V2 cc => cc
  end.

(** Modelled from the spec: the wire shape of a message (section 6). *)
Record Message := mkMessage {
  m_Type : MessageType;
  m_To : N;
  m_From : N;
  m_Term : N;
  m_LogTerm : N;
  m_Index : N;
  m_Entries : list Entry;
  m_Commit : N;
  m_Match : N;
  m_Snapshot : option Snapshot;
  m_Reject : bool;
  m_RejectHint : N;
  m_Context : list Byte.byte;
}.

(** The zero value [pb.Message{}] with a type; the literals of raft.go set
    further fields on it. *)
Definition Message0 (t : MessageType) : Message :=
  {| m_Type := t; m_To := 0; m_From := 0; m_Term := 0; m_LogTerm := 0;
     m_Index := 0; m_Entries := []; m_Commit := 0; m_Match := 0;
     m_Snapshot := None; m_Reject := false; m_RejectHint := 0;
     m_Context := [] |}.

(** Assignments to single fields of a message ([m.From = ...]). *)
Definition set_From (v : N) (m : Message) : Message :=
  {| m_Type := m_Type m; m_To := m_To m; m_From := v; m_Term := m_Term m;
     m_LogTerm := m_LogTerm m; m_Index := m_Index m; m_Entries := m_Entries m;
     m_Commit := m_Commit m; m_Match := m_Match m; m_Snapshot := m_Snapshot m;
     m_Reject := m_Reject m; m_RejectHint := m_RejectHint m;
     m_Context := m_Context m |}.

Definition set_Term (v : N) (m : Message) : Message :=
  {| m_Type := m_Type m; m_To := m_To m; m_From := m_From m; m_Term := v;
     m_LogTerm := m_LogTerm m; m_Index := m_Index m; m_Entries := m_Entries m;
     m_Commit := m_Commit m; m_Match := m_Match m; m_Snapshot := m_Snapshot m;
     m_Reject := m_Reject m; m_RejectHint := m_RejectHint m;
     m_Context := m_Context m |}.

Definition set_To (v : N) (m : Message) : Message :=
  {| m_Type := m_Type m; m_To := v; m_From := m_From m; m_Term := m_Term m;
     m_LogTerm := m_LogTerm m; m_Index := m_Index m; m_Entries := m_Entries m;
     m_Commit := m_Commit m; m_Match := m_Match m; m_Snapshot := m_Snapshot m;
     m_Reject := m_Reject m; m_RejectHint := m_RejectHint m;
     m_Context := m_Context m |}.

Definition set_Entries (v : list Entry) (m : Message) : Message :=
  {| m_Type := m_Type m; m_To := m_To m; m_From := m_From m;
     m_Term := m_Term m; m_LogTerm := m_LogTerm m; m_Index := m_Index m;
     m_Entries := v; m_Commit := m_Commit m; m_Match := m_Match m;
     m_Snapshot := m_Snapshot m; m_Reject := m_Reject m;
     m_RejectHint := m_RejectHint m; m_Context := m_Context m |}.

End pb.

(** Modelled from the spec: [voteRespMsgType] (util.go, absent): the
    response type of a vote request, "a non-reject response of the
    corresponding response type"; any other type is a programming error. *)
Definition voteRespMsgType (t : pb.MessageType) : option pb.MessageType :=
  match t with
  | pb.MsgVote => Some pb.MsgVoteResp
  | pb.MsgPreVote => Some pb.MsgPreVoteResp
  | _ => None
  end.

(** Modelled from the spec: [payloadSize] and [payloadsSize] (util.go,
    absent), "the sum of payload sizes" (section 4.3.4): the payload of an
    entry is its [Data]. *)
Definition payloadSize (e : pb.Entry) : N := N.of_nat (length (pb.e_Data e)).

Definition payloadsSize (ents : list pb.Entry) : N :=
  u64 (foldr (fun e acc => payloadSize e + acc) 0 ents).

(** ** The log (log.go, absent) *)

(** [entryID], [logMark] and [logSlice] of the package, as raft.go builds
    them. *)
Record entryID := mkEntryID { eid_term : N; eid_index : N }.
Record logMark := mkLogMark { mark_term : N; mark_index : N }.
Record logSlice := mkLogSlice {
  ls_term : N;
  ls_prev : entryID;
  ls_entries : list pb.Entry;
}.

#[global] Instance entryID_eq_dec : EqDecision entryID.
Proof. solve_decision. Defined.

(** Outcome of reading the term stored at an index. *)
Inductive termResult := TermOk (t : N) | ErrCompacted | ErrUnavailable.

Module log.

(** Modelled from the spec: the [RaftLog] component (section 4.1), "a
    unified view of (stable prefix) ++ (unstable suffix) ++ optional
    pending snapshot" with its committed and applied markers and the
    accepted term.  [snap] is the identifier of the last entry covered by
    the snapshot the log starts after; the entry stored at position [k] of
    [ents] has index [eid_index snap + 1 + k]. *)
Record raftLog := mkRaftLog {
  snap : entryID;
  ents : list pb.Entry;
  committed : N;
  applied : N;
  acc : N;
  pendingSnapshot : bool;
  maxApplyingEntsSize : N;
}.

Definition set_committed (c : N) (l : raftLog) : raftLog :=
  {| snap := snap l; ents := ents l; committed := c; applied := applied l;
     acc := acc l; pendingSnapshot := pendingSnapshot l;
     maxApplyingEntsSize := maxApplyingEntsSize l |}.

Definition set_ents (es : list pb.Entry) (a : N) (l : raftLog) : raftLog :=
  {| snap := snap l; ents := es; committed := committed l;
     applied := applied l; acc := a; pendingSnapshot := pendingSnapshot l;
     maxApplyingEntsSize := maxApplyingEntsSize l |}.

(** Modelled from the spec: [lastIndex], the index of the last entry of the
    view. *)
Definition lastIndex (l : raftLog) : N :=
  eid_index (snap l) + N.of_nat (length (ents l)).

(** Modelled from the spec: [lastEntryID() -> (term, index)] "(last of
    unstable if non-empty, else last stable, else snapshot-meta, else
    zero)". *)
Definition lastEntryID (l : raftLog) : entryID :=
  match last (ents l) with
  | Some e => {| eid_term := pb.e_Term e; eid_index := lastIndex l |}
  | None => snap l
  end.

(** Modelled from the spec: [term(index) -> term | Compacted |
    Unavailable]. *)
Definition term (l : raftLog) (i : N) : termResult :=
  if bool_decide (i < eid_index (snap l)) then ErrCompacted
  else if bool_decide (i = eid_index (snap l)) then TermOk (eid_term (snap l))
  else match ents l !! N.to_nat (i - eid_index (snap l) - 1) with
       | Some e => TermOk (pb.e_Term e)
       | None => ErrUnavailable
       end.

(** Modelled from the spec: [accTerm()], "term of the leader whose appends
    populate the current unstable tail". *)
Definition accTerm (l : raftLog) : N := acc l.

(** Modelled from the spec: [matchTerm(eid) -> bool], "equality check of
    stored term at [eid.index]". *)
Definition matchTerm (l : raftLog) (id : entryID) : bool :=
  match term l (eid_index id) with
  | TermOk t => bool_decide (t = eid_term id)
  | _ => false
  end.

(** Modelled from the spec: [isUpToDate], the Raft rule of section 4.3.3:
    "candLogTerm > ours OR (candLogTerm == ours && candIndex >= ours)"
    against [lastEntryID()]. *)
Definition isUpToDate (l : raftLog) (their : entryID) : bool :=
  let our := lastEntryID l in
  bool_decide (eid_term our < eid_term their)
  || (bool_decide (eid_term their = eid_term our)
      && bool_decide (eid_index our <= eid_index their)).

(** Modelled from the spec: [commitTo(mark)], "raises [committed] to
    [min(mark.index, lastIndex())] iff [mark.term == accTerm()]; never
    regresses". *)
Definition commitTo (l : raftLog) (mark : logMark) : raftLog :=
  if bool_decide (mark_term mark = accTerm l)
     && bool_decide (committed l < N.min (mark_index mark) (lastIndex l))
  then set_committed (N.min (mark_index mark) (lastIndex l)) l
  else l.

(** Modelled from the spec: [findConflictByTerm(index, term) -> (index',
    term')], "the largest [index' <= index] such that the term stored at
    [index'] is [<= term]".  The search walks down from [index]; at an
    index whose term cannot be read it stops with an unknown (zero) term,
    and it ends at (0, 0). *)
Fixpoint findConflictByTerm_down (l : raftLog) (t : N) (n : nat) : N * N :=
  match n with
  | O => (0, 0)
  | S k =>
      match term l (N.of_nat n) with
      | TermOk ourTerm =>
          if bool_decide (ourTerm <= t) then (N.of_nat n, ourTerm)
          else findConflictByTerm_down l t k
      | _ => (N.of_nat n, 0)
      end
  end.

Definition findConflictByTerm (l : raftLog) (index t : N) : N * N :=
  findConflictByTerm_down l t (N.to_nat index).

(** Modelled from the spec: [logSlice.lastIndex] and the slice's last entry
    identifier: the slice ends at its last entry, or at [prev] when it
    carries none. *)
Definition slice_lastIndex (a : logSlice) : N :=
  match last (ls_entries a) with
  | Some e => pb.e_Index e
  | None => eid_index (ls_prev a)
  end.

(** Modelled from the spec: [logSlice.valid], "a contiguous block anchored
    at (prev.term, prev.index) under leader-term slice.term": indices are
    consecutive from [prev.index + 1], terms do not decrease along the
    block starting from [prev.term], and none exceeds [slice.term]. *)
Fixpoint valid_from (prev : entryID) (es : list pb.Entry) (t : N) : bool :=
  match es with
  | [] => bool_decide (eid_term prev <= t)
  | e :: es' =>
      bool_decide (pb.e_Index e = eid_index prev + 1)
      && bool_decide (eid_term prev <= pb.e_Term e)
      && valid_from {| eid_term := pb.e_Term e; eid_index := pb.e_Index e |} es' t
  end.

Definition valid (a : logSlice) : bool :=
  valid_from (ls_prev a) (ls_entries a) (ls_term a).

(** Modelled from the spec: [append(slice) -> bool], "append a contiguous
    block anchored at (prev.term, prev.index) under leader-term slice.term;
    returns false iff slice is invalid against current unstable state":
    the slice must come from a leader no older than the accepted term and
    must start at the end of the log. *)
Definition append (l : raftLog) (a : logSlice) : raftLog * bool :=
  if bool_decide (ls_term a < accTerm l) then (l, false)
  else if bool_decide (ls_prev a = lastEntryID l)
  then (set_ents (ents l ++ ls_entries a) (ls_term a) l, true)
  else (l, false).

(** Modelled from the spec: the number of leading entries of [es] that
    the log already holds with the same term, [es] starting at index [i]
    ([maybeAppend] "truncates conflicts"). *)
Fixpoint matching_prefix (l : raftLog) (i : N) (es : list pb.Entry) : nat :=
  match es with
  | [] => O
  | e :: es' =>
      if matchTerm l {| eid_term := pb.e_Term e; eid_index := i |}
      then S (matching_prefix l (i + 1) es')
      else O
  end.

(** Modelled from the spec: [maybeAppend(slice) -> bool], "follower-side;
    truncate conflicting suffix at the first term mismatch, then append
    non-duplicate tail.  No-op if the slice is already fully contained
    (idempotent)".  It fails when the log does not hold [prev]; on success
    the accepted term is the slice's leader term. *)
Definition maybeAppend (l : raftLog) (a : logSlice) : raftLog * bool :=
  if negb (matchTerm l (ls_prev a)) then (l, false)
  else
    let k := matching_prefix l (eid_index (ls_prev a) + 1) (ls_entries a) in
    let tail := drop k (ls_entries a) in
    match tail with
    | [] => (set_ents (ents l) (ls_term a) l, true)
    | _ :: _ =>
        let keep := (N.to_nat (eid_index (ls_prev a) - eid_index (snap l)) + k)%nat in
        (set_ents (take keep (ents l) ++ tail) (ls_term a) l, true)
    end.

(** Modelled from the spec: [hasNextOrInProgressSnapshot], whether the
    "optional pending snapshot" of the view is present. *)
Definition hasNextOrInProgressSnapshot (l : raftLog) : bool :=
  pendingSnapshot l.

End log.

(** ** quorum: configurations (package quorum, absent) *)

Module quorum.

Inductive VoteResult := VotePending | VoteLost | VoteWon.

#[global] Instance VoteResult_eq_dec : EqDecision VoteResult.
Proof. solve_decision. Defined.

(** Modelled from the spec: the [Config] component (section 2, item 3):
    "voter and learner sets, optionally joint (two voter sets)".
    [Voters.1] is the incoming set, [Voters.2] the outgoing one
    ([Voters[0]] and [Voters[1]] of raft.go). *)
Record Config := mkConfig {
  Voters : gset N * gset N;
  AutoLeave : bool;
  Learners : gset N;
  LearnersNext : gset N;
}.

(** Modelled from the spec: [JointConfig.IDs], every voter of either
    set. *)
Definition IDs (v : gset N * gset N) : gset N := v.1 ∪ v.2.

(** Modelled from the spec: the size of a quorum, "any subset of voters
    whose size exceeds half the voter set" (glossary). *)
Definition quorumSize (n : nat) : nat := S (n / 2).

(** Modelled from the spec: the majority-[Match] of one voter set: "the
    largest index replicated on a quorum".  A voter without an
    acknowledged index counts as 0; an empty set does not constrain the
    result. *)
Definition majorityCommitted (c : gset N) (acked : N -> N) : N :=
  let n := size c in
  if bool_decide (n = O) then MaxUint64
  else
    let srt := merge_sort N.le (acked <$> elements c) in
    default 0 (srt !! (n - quorumSize n)%nat).

(** Modelled from the spec: [committed()] over the "(possibly joint)
    configuration: for joint, the min over both voter sets of their
    respective majority-[Match]". *)
Definition jointCommitted (v : gset N * gset N) (acked : N -> N) : N :=
  N.min (majorityCommitted v.1 acked) (majorityCommitted v.2 acked).

(** Modelled from the spec: the outcome of a vote in one voter set: won
    with a quorum of grants, lost when the grants and the missing votes
    together cannot reach a quorum, pending otherwise; an empty set is
    won. *)
Definition majorityVoteResult (c : gset N) (votes : gmap N bool) : VoteResult :=
  let n := size c in
  if bool_decide (n = O) then VoteWon
  else
    let yes := length (filter (fun id => votes !! id = Some true) (elements c)) in
    let missing := length (filter (fun id => votes !! id = None) (elements c)) in
    if bool_decide (quorumSize n <= yes)%nat then VoteWon
    else if bool_decide (quorumSize n <= yes + missing)%nat then VotePending
    else VoteLost.

(** Modelled from the spec: "in a joint config, a quorum in both voter
    sets". *)
Definition jointVoteResult (v : gset N * gset N) (votes : gmap N bool) : VoteResult :=
  match majorityVoteResult v.1 votes, majorityVoteResult v.2 votes with
  | VoteWon, VoteWon => VoteWon
  | VoteLost, _ | _, VoteLost => VoteLost
  | _, _ => VotePending
  end.

End quorum.

(** ** tracker: per-peer progress and votes (package tracker, absent) *)

Module tracker.

Inductive StateType := StateProbe | StateReplicate | StateSnapshot.

#[global] Instance StateType_eq_dec : EqDecision StateType.
Proof. solve_decision. Defined.

(** Modelled from the spec: [Inflights], "bounded window (maxMsgs,
    maxBytes)"; each slot records the last index and the bytes of one
    message in flight. *)
Record Inflights := mkInflights {
  inf_size : Z;
  inf_maxBytes : N;
  inf_buffer : list (N * N);
}.

Definition NewInflights (size : Z) (maxBytes : N) : Inflights :=
  {| inf_size := size; inf_maxBytes := maxBytes; inf_buffer := [] |}.

(** Modelled from the spec: the [Progress] entity (section 3).
    [sentCommit] stands for the bookkeeping that the tracker keeps for
    itself ([SentCommit]). *)
Record Progress := mkProgress {
  Match : N;
  Next : N;
  State : StateType;
  PendingSnapshot : N;
  RecentActive : bool;
  MsgAppProbesPaused : bool;
  Inflights_ : option Inflights;
  IsLearner : bool;
  sentCommit : N;
}.

Definition set_Match (v : N) (p : Progress) : Progress :=
  {| Match := v; Next := Next p; State := State p;
     PendingSnapshot := PendingSnapshot p; RecentActive := RecentActive p;
     MsgAppProbesPaused := MsgAppProbesPaused p; Inflights_ := Inflights_ p;
     IsLearner := IsLearner p; sentCommit := sentCommit p |}.

Definition set_Next (v : N) (p : Progress) : Progress :=
  {| Match := Match p; Next := v; State := State p;
     PendingSnapshot := PendingSnapshot p; RecentActive := RecentActive p;
     MsgAppProbesPaused := MsgAppProbesPaused p; Inflights_ := Inflights_ p;
     IsLearner := IsLearner p; sentCommit := sentCommit p |}.

Definition set_State (v : StateType) (p : Progress) : Progress :=
  {| Match := Match p; Next := Next p; State := v;
     PendingSnapshot := PendingSnapshot p; RecentActive := RecentActive p;
     MsgAppProbesPaused := MsgAppProbesPaused p; Inflights_ := Inflights_ p;
     IsLearner := IsLearner p; sentCommit := sentCommit p |}.

Definition set_PendingSnapshot (v : N) (p : Progress) : Progress :=
  {| Match := Match p; Next := Next p; State := State p;
     PendingSnapshot := v; RecentActive := RecentActive p;
     MsgAppProbesPaused := MsgAppProbesPaused p; Inflights_ := Inflights_ p;
     IsLearner := IsLearner p; sentCommit := sentCommit p |}.

Definition set_RecentActive (v : bool) (p : Progress) : Progress :=
  {| Match := Match p; Next := Next p; State := State p;
     PendingSnapshot := PendingSnapshot p; RecentActive := v;
     MsgAppProbesPaused := MsgAppProbesPaused p; Inflights_ := Inflights_ p;
     IsLearner := IsLearner p; sentCommit := sentCommit p |}.

(** Modelled from the spec: [BecomeReplicate], "sets [Next = Match + 1],
    enables pipelining". *)
Definition BecomeReplicate (p : Progress) : Progress :=
  set_State StateReplicate (set_Next (u64 (Match p + 1)) p).

(** Modelled from the spec: [BecomeSnapshot(i)], "records
    [PendingSnapshot = i]" on the transition to the [Snapshot] state. *)
Definition BecomeSnapshot (p : Progress) (i : N) : Progress :=
  set_PendingSnapshot i (set_State StateSnapshot p).

(** Modelled from the spec: [visit(fn)] "iterates all peers (including
    self)"; the peers are taken in increasing order of their id. *)
Definition visitOrder (prs : gmap N Progress) : list N :=
  merge_sort N.le (elements (dom prs)).

(** Modelled from the spec: [committed()], "the largest index replicated on
    a quorum in the current (possibly joint) configuration", read off the
    [Match] of each voter. *)
Definition Committed (cfg : quorum.Config) (prs : gmap N Progress) : N :=
  quorum.jointCommitted (quorum.Voters cfg)
    (fun id => match prs !! id with Some pr => Match pr | None => 0 end).

(** Modelled from the spec: the vote tracker (section 2, item 4), "records
    per-peer grant/reject for one (pre-)election": the first answer of a
    peer stands. *)
Definition RecordVote (votes : gmap N bool) (id : N) (v : bool) : gmap N bool :=
  match votes !! id with
  | Some _ => votes
  | None => <[id := v]> votes
  end.

(** Modelled from the spec: [TallyVotes], the grants and rejections of the
    tracked peers and the outcome "Pending | Won | Lost" in the
    configuration. *)
Definition TallyVotes (cfg : quorum.Config) (prs : gmap N Progress)
    (votes : gmap N bool) : nat * nat * quorum.VoteResult :=
  let counted :=
    filter (fun id => IsLearner <$> prs !! id = Some false) (visitOrder prs) in
  let granted := length (filter (fun id => votes !! id = Some true) counted) in
  let rejected := length (filter (fun id => votes !! id = Some false) counted) in
  (granted, rejected, quorum.jointVoteResult (quorum.Voters cfg) votes).

(** Modelled from the spec: [quorumActive()], "true iff a quorum of voters
    has [RecentActive]". *)
Definition QuorumActive (cfg : quorum.Config) (prs : gmap N Progress) : bool :=
  bool_decide
    (quorum.jointVoteResult (quorum.Voters cfg) (RecentActive <$> prs)
     = quorum.VoteWon).

End tracker.

(** ** The replica (raft.go, lines 53-60 and 316-405) *)

Inductive StateType := StateFollower | StateCandidate | StateLeader | StatePreCandidate.

#[global] Instance StateType_eq_dec : EqDecision StateType.
Proof. solve_decision. Defined.

(** The values that the function-valued fields [tick] and [step] take. *)
Inductive tickFunc := tickElection | tickHeartbeat.
Inductive stepFunc := stepFollowerFn | stepCandidateFn | stepLeaderFn.

(** Possible values for [CampaignType]. *)
Inductive CampaignType := campaignPreElection | campaignElection | campaignTransfer.

#[global] Instance CampaignType_eq_dec : EqDecision CampaignType.
Proof. solve_decision. Defined.

(** The bytes of a campaign type, [[]byte(t)]. *)
Definition campaignBytes (t : CampaignType) : list Byte.byte :=
  String.list_byte_of_string
    match t with
    | campaignPreElection => "CampaignPreElection"
    | campaignElection => "CampaignElection"
    | campaignTransfer => "CampaignTransfer"
    end.

Inductive error := ErrProposalDropped.

(** The struct [raft], without its logger and its store-liveness handle.
    [globalRand] is the state of the process-wide random source that
    [resetRandomizedElectionTimeout] draws from, threaded through the
    replica: the numbers it is going to return. *)
Record raft := mkRaft {
  id : N;
  Term : N;
  Vote : N;
  raftLog : log.raftLog;
  maxMsgSize : N;
  maxUncommittedSize : N;
  config : quorum.Config;
  trk : gmap N tracker.Progress;
  electionTracker : gmap N bool;
  state : StateType;
  isLearner : bool;
  msgs : list pb.Message;
  msgsAfterAppend : list pb.Message;
  lead : N;
  leadEpoch : Z;
  leadTransferee : N;
  pendingConfIndex : N;
  disableConfChangeValidation : bool;
  uncommittedSize : N;
  electionElapsed : Z;
  heartbeatElapsed : Z;
  maxInflight : Z;
  maxInflightBytes : N;
  checkQuorum : bool;
  preVote : bool;
  heartbeatTimeout : Z;
  electionTimeout : Z;
  randomizedElectionTimeout : Z;
  disableProposalForwarding : bool;
  stepDownOnRemoval : bool;
  tick : tickFunc;
  step : stepFunc;
  globalRand : list Z;
}.

Definition set_Term (v : N) (r : raft) : raft :=
  {| id := id r; Term := v; Vote := Vote r; raftLog := raftLog r;
     maxMsgSize := maxMsgSize r; maxUncommittedSize := maxUncommittedSize r;
     config := config r; trk := trk r; electionTracker := electionTracker r;
     state := state r; isLearner := isLearner r; msgs := msgs r;
     msgsAfterAppend := msgsAfterAppend r; lead := lead r;
     leadEpoch := leadEpoch r; leadTransferee := leadTransferee r;
     pendingConfIndex := pendingConfIndex r;
     disableConfChangeValidation := disableConfChangeValidation r;
     uncommittedSize := uncommittedSize r;
     electionElapsed := electionElapsed r;
     heartbeatElapsed := heartbeatElapsed r; maxInflight := maxInflight r;
     maxInflightBytes := maxInflightBytes r; checkQuorum := checkQuorum r;
     preVote := preVote r; heartbeatTimeout := heartbeatTimeout r;
     electionTimeout := electionTimeout r;
     randomizedElectionTimeout := randomizedElectionTimeout r;
     disableProposalForwarding := disableProposalForwarding r;
     stepDownOnRemoval := stepDownOnRemoval r; tick := tick r; step := step r;
     globalRand := globalRand r |}.

Definition set_Vote (v : N) (r : raft) : raft :=
  {| id := id r; Term := Term r; Vote := v; raftLog := raftLog r;
     maxMsgSize := maxMsgSize r; maxUncommittedSize := maxUncommittedSize r;
     config := config r; trk := trk r; electionTracker := electionTracker r;
     state := state r; isLearner := isLearner r; msgs := msgs r;
     msgsAfterAppend := msgsAfterAppend r; lead := lead r;
     leadEpoch := leadEpoch r; leadTransferee := leadTransferee r;
     pendingConfIndex := pendingConfIndex r;
     disableConfChangeValidation := disableConfChangeValidation r;
     uncommittedSize := uncommittedSize r;
     electionElapsed := electionElapsed r;
     heartbeatElapsed := heartbeatElapsed r; maxInflight := maxInflight r;
     maxInflightBytes := maxInflightBytes r; checkQuorum := checkQuorum r;
     preVote := preVote r; heartbeatTimeout := heartbeatTimeout r;
     electionTimeout := electionTimeout r;
     randomizedElectionTimeout := randomizedElectionTimeout r;
     disableProposalForwarding := disableProposalForwarding r;
     stepDownOnRemoval := stepDownOnRemoval r; tick := tick r; step := step r;
     globalRand := globalRand r |}.

Definition set_raftLog (v : log.raftLog) (r : raft) : raft :=
  {| id := id r; Term := Term r; Vote := Vote r; raftLog := v;
     maxMsgSize := maxMsgSize r; maxUncommittedSize := maxUncommittedSize r;
     config := config r; trk := trk r; electionTracker := electionTracker r;
     state := state r; isLearner := isLearner r; msgs := msgs r;
     msgsAfterAppend := msgsAfterAppend r; lead := lead r;
     leadEpoch := leadEpoch r; leadTransferee := leadTransferee r;
     pendingConfIndex := pendingConfIndex r;
     disableConfChangeValidation := disableConfChangeValidation r;
     uncommittedSize := uncommittedSize r;
     electionElapsed := electionElapsed r;
     heartbeatElapsed := heartbeatElapsed r; maxInflight := maxInflight r;
     maxInflightBytes := maxInflightBytes r; checkQuorum := checkQuorum r;
     preVote := preVote r; heartbeatTimeout := heartbeatTimeout r;
     electionTimeout := electionTimeout r;
     randomizedElectionTimeout := randomizedElectionTimeout r;
     disableProposalForwarding := disableProposalForwarding r;
     stepDownOnRemoval := stepDownOnRemoval r; tick := tick r; step := step r;
     globalRand := globalRand r |}.

Definition set_trk (v : gmap N tracker.Progress) (r : raft) : raft :=
  {| id := id r; Term := Term r; Vote := Vote r; raftLog := raftLog r;
     maxMsgSize := maxMsgSize r; maxUncommittedSize := maxUncommittedSize r;
     config := config r; trk := v; electionTracker := electionTracker r;
     state := state r; isLearner := isLearner r; msgs := msgs r;
     msgsAfterAppend := msgsAfterAppend r; lead := lead r;
     leadEpoch := leadEpoch r; leadTransferee := leadTransferee r;
     pendingConfIndex := pendingConfIndex r;
     disableConfChangeValidation := disableConfChangeValidation r;
     uncommittedSize := uncommittedSize r;
     electionElapsed := electionElapsed r;
     heartbeatElapsed := heartbeatElapsed r; maxInflight := maxInflight r;
     maxInflightBytes := maxInflightBytes r; checkQuorum := checkQuorum r;
     preVote := preVote r; heartbeatTimeout := heartbeatTimeout r;
     electionTimeout := electionTimeout r;
     randomizedElectionTimeout := randomizedElectionTimeout r;
     disableProposalForwarding := disableProposalForwarding r;
     stepDownOnRemoval := stepDownOnRemoval r; tick := tick r; step := step r;
     globalRand := globalRand r |}.

Definition set_electionTracker (v : gmap N bool) (r : raft) : raft :=
  {| id := id r; Term := Term r; Vote := Vote r; raftLog := raftLog r;
     maxMsgSize := maxMsgSize r; maxUncommittedSize := maxUncommittedSize r;
     config := config r; trk := trk r; electionTracker := v; state := state r;
     isLearner := isLearner r; msgs := msgs r;
     msgsAfterAppend := msgsAfterAppend r; lead := lead r;
     leadEpoch := leadEpoch r; leadTransferee := leadTransferee r;
     pendingConfIndex := pendingConfIndex r;
     disableConfChangeValidation := disableConfChangeValidation r;
     uncommittedSize := uncommittedSize r;
     electionElapsed := electionElapsed r;
     heartbeatElapsed := heartbeatElapsed r; maxInflight := maxInflight r;
     maxInflightBytes := maxInflightBytes r; checkQuorum := checkQuorum r;
     preVote := preVote r; heartbeatTimeout := heartbeatTimeout r;
     electionTimeout := electionTimeout r;
     randomizedElectionTimeout := randomizedElectionTimeout r;
     disableProposalForwarding := disableProposalForwarding r;
     stepDownOnRemoval := stepDownOnRemoval r; tick := tick r; step := step r;
     globalRand := globalRand r |}.

Definition set_state (v : StateType) (r : raft) : raft :=
  {| id := id r; Term := Term r; Vote := Vote r; raftLog := raftLog r;
     maxMsgSize := maxMsgSize r; maxUncommittedSize := maxUncommittedSize r;
     config := config r; trk := trk r; electionTracker := electionTracker r;
     state := v; isLearner := isLearner r; msgs := msgs r;
     msgsAfterAppend := msgsAfterAppend r; lead := lead r;
     leadEpoch := leadEpoch r; leadTransferee := leadTransferee r;
     pendingConfIndex := pendingConfIndex r;
     disableConfChangeValidation := disableConfChangeValidation r;
     uncommittedSize := uncommittedSize r;
     electionElapsed := electionElapsed r;
     heartbeatElapsed := heartbeatElapsed r; maxInflight := maxInflight r;
     maxInflightBytes := maxInflightBytes r; checkQuorum := checkQuorum r;
     preVote := preVote r; heartbeatTimeout := heartbeatTimeout r;
     electionTimeout := electionTimeout r;
     randomizedElectionTimeout := randomizedElectionTimeout r;
     disableProposalForwarding := disableProposalForwarding r;
     stepDownOnRemoval := stepDownOnRemoval r; tick := tick r; step := step r;
     globalRand := globalRand r |}.

Definition set_msgs (v : list pb.Message) (r : raft) : raft :=
  {| id := id r; Term := Term r; Vote := Vote r; raftLog := raftLog r;
     maxMsgSize := maxMsgSize r; maxUncommittedSize := maxUncommittedSize r;
     config := config r; trk := trk r; electionTracker := electionTracker r;
     state := state r; isLearner := isLearner r; msgs := v;
     msgsAfterAppend := msgsAfterAppend r; lead := lead r;
     leadEpoch := leadEpoch r; leadTransferee := leadTransferee r;
     pendingConfIndex := pendingConfIndex r;
     disableConfChangeValidation := disableConfChangeValidation r;
     uncommittedSize := uncommittedSize r;
     electionElapsed := electionElapsed r;
     heartbeatElapsed := heartbeatElapsed r; maxInflight := maxInflight r;
     maxInflightBytes := maxInflightBytes r; checkQuorum := checkQuorum r;
     preVote := preVote r; heartbeatTimeout := heartbeatTimeout r;
     electionTimeout := electionTimeout r;
     randomizedElectionTimeout := randomizedElectionTimeout r;
     disableProposalForwarding := disableProposalForwarding r;
     stepDownOnRemoval := stepDownOnRemoval r; tick := tick r; step := step r;
     globalRand := globalRand r |}.

Definition set_msgsAfterAppend (v : list pb.Message) (r : raft) : raft :=
  {| id := id r; Term := Term r; Vote := Vote r; raftLog := raftLog r;
     maxMsgSize := maxMsgSize r; maxUncommittedSize := maxUncommittedSize r;
     config := config r; trk := trk r; electionTracker := electionTracker r;
     state := state r; isLearner := isLearner r; msgs := msgs r;
     msgsAfterAppend := v; lead := lead r; leadEpoch := leadEpoch r;
     leadTransferee := leadTransferee r;
     pendingConfIndex := pendingConfIndex r;
     disableConfChangeValidation := disableConfChangeValidation r;
     uncommittedSize := uncommittedSize r;
     electionElapsed := electionElapsed r;
     heartbeatElapsed := heartbeatElapsed r; maxInflight := maxInflight r;
     maxInflightBytes := maxInflightBytes r; checkQuorum := checkQuorum r;
     preVote := preVote r; heartbeatTimeout := heartbeatTimeout r;
     electionTimeout := electionTimeout r;
     randomizedElectionTimeout := randomizedElectionTimeout r;
     disableProposalForwarding := disableProposalForwarding r;
     stepDownOnRemoval := stepDownOnRemoval r; tick := tick r; step := step r;
     globalRand := globalRand r |}.

Definition set_lead (v : N) (r : raft) : raft :=
  {| id := id r; Term := Term r; Vote := Vote r; raftLog := raftLog r;
     maxMsgSize := maxMsgSize r; maxUncommittedSize := maxUncommittedSize r;
     config := config r; trk := trk r; electionTracker := electionTracker r;
     state := state r; isLearner := isLearner r; msgs := msgs r;
     msgsAfterAppend := msgsAfterAppend r; lead := v;
     leadEpoch := leadEpoch r; leadTransferee := leadTransferee r;
     pendingConfIndex := pendingConfIndex r;
     disableConfChangeValidation := disableConfChangeValidation r;
     uncommittedSize := uncommittedSize r;
     electionElapsed := electionElapsed r;
     heartbeatElapsed := heartbeatElapsed r; maxInflight := maxInflight r;
     maxInflightBytes := maxInflightBytes r; checkQuorum := checkQuorum r;
     preVote := preVote r; heartbeatTimeout := heartbeatTimeout r;
     electionTimeout := electionTimeout r;
     randomizedElectionTimeout := randomizedElectionTimeout r;
     disableProposalForwarding := disableProposalForwarding r;
     stepDownOnRemoval := stepDownOnRemoval r; tick := tick r; step := step r;
     globalRand := globalRand r |}.

Definition set_leadTransferee (v : N) (r : raft) : raft :=
  {| id := id r; Term := Term r; Vote := Vote r; raftLog := raftLog r;
     maxMsgSize := maxMsgSize r; maxUncommittedSize := maxUncommittedSize r;
     config := config r; trk := trk r; electionTracker := electionTracker r;
     state := state r; isLearner := isLearner r; msgs := msgs r;
     msgsAfterAppend := msgsAfterAppend r; lead := lead r;
     leadEpoch := leadEpoch r; leadTransferee := v;
     pendingConfIndex := pendingConfIndex r;
     disableConfChangeValidation := disableConfChangeValidation r;
     uncommittedSize := uncommittedSize r;
     electionElapsed := electionElapsed r;
     heartbeatElapsed := heartbeatElapsed r; maxInflight := maxInflight r;
     maxInflightBytes := maxInflightBytes r; checkQuorum := checkQuorum r;
     preVote := preVote r; heartbeatTimeout := heartbeatTimeout r;
     electionTimeout := electionTimeout r;
     randomizedElectionTimeout := randomizedElectionTimeout r;
     disableProposalForwarding := disableProposalForwarding r;
     stepDownOnRemoval := stepDownOnRemoval r; tick := tick r; step := step r;
     globalRand := globalRand r |}.

Definition set_pendingConfIndex (v : N) (r : raft) : raft :=
  {| id := id r; Term := Term r; Vote := Vote r; raftLog := raftLog r;
     maxMsgSize := maxMsgSize r; maxUncommittedSize := maxUncommittedSize r;
     config := config r; trk := trk r; electionTracker := electionTracker r;
     state := state r; isLearner := isLearner r; msgs := msgs r;
     msgsAfterAppend := msgsAfterAppend r; lead := lead r;
     leadEpoch := leadEpoch r; leadTransferee := leadTransferee r;
     pendingConfIndex := v;
     disableConfChangeValidation := disableConfChangeValidation r;
     uncommittedSize := uncommittedSize r;
     electionElapsed := electionElapsed r;
     heartbeatElapsed := heartbeatElapsed r; maxInflight := maxInflight r;
     maxInflightBytes := maxInflightBytes r; checkQuorum := checkQuorum r;
     preVote := preVote r; heartbeatTimeout := heartbeatTimeout r;
     electionTimeout := electionTimeout r;
     randomizedElectionTimeout := randomizedElectionTimeout r;
     disableProposalForwarding := disableProposalForwarding r;
     stepDownOnRemoval := stepDownOnRemoval r; tick := tick r; step := step r;
     globalRand := globalRand r |}.

Definition set_uncommittedSize (v : N) (r : raft) : raft :=
  {| id := id r; Term := Term r; Vote := Vote r; raftLog := raftLog r;
     maxMsgSize := maxMsgSize r; maxUncommittedSize := maxUncommittedSize r;
     config := config r; trk := trk r; electionTracker := electionTracker r;
     state := state r; isLearner := isLearner r; msgs := msgs r;
     msgsAfterAppend := msgsAfterAppend r; lead := lead r;
     leadEpoch := leadEpoch r; leadTransferee := leadTransferee r;
     pendingConfIndex := pendingConfIndex r;
     disableConfChangeValidation := disableConfChangeValidation r;
     uncommittedSize := v; electionElapsed := electionElapsed r;
     heartbeatElapsed := heartbeatElapsed r; maxInflight := maxInflight r;
     maxInflightBytes := maxInflightBytes r; checkQuorum := checkQuorum r;
     preVote := preVote r; heartbeatTimeout := heartbeatTimeout r;
     electionTimeout := electionTimeout r;
     randomizedElectionTimeout := randomizedElectionTimeout r;
     disableProposalForwarding := disableProposalForwarding r;
     stepDownOnRemoval := stepDownOnRemoval r; tick := tick r; step := step r;
     globalRand := globalRand r |}.

Definition set_electionElapsed (v : Z) (r : raft) : raft :=
  {| id := id r; Term := Term r; Vote := Vote r; raftLog := raftLog r;
     maxMsgSize := maxMsgSize r; maxUncommittedSize := maxUncommittedSize r;
     config := config r; trk := trk r; electionTracker := electionTracker r;
     state := state r; isLearner := isLearner r; msgs := msgs r;
     msgsAfterAppend := msgsAfterAppend r; lead := lead r;
     leadEpoch := leadEpoch r; leadTransferee := leadTransferee r;
     pendingConfIndex := pendingConfIndex r;
     disableConfChangeValidation := disableConfChangeValidation r;
     uncommittedSize := uncommittedSize r; electionElapsed := v;
     heartbeatElapsed := heartbeatElapsed r; maxInflight := maxInflight r;
     maxInflightBytes := maxInflightBytes r; checkQuorum := checkQuorum r;
     preVote := preVote r; heartbeatTimeout := heartbeatTimeout r;
     electionTimeout := electionTimeout r;
     randomizedElectionTimeout := randomizedElectionTimeout r;
     disableProposalForwarding := disableProposalForwarding r;
     stepDownOnRemoval := stepDownOnRemoval r; tick := tick r; step := step r;
     globalRand := globalRand r |}.

Definition set_heartbeatElapsed (v : Z) (r : raft) : raft :=
  {| id := id r; Term := Term r; Vote := Vote r; raftLog := raftLog r;
     maxMsgSize := maxMsgSize r; maxUncommittedSize := maxUncommittedSize r;
     config := config r; trk := trk r; electionTracker := electionTracker r;
     state := state r; isLearner := isLearner r; msgs := msgs r;
     msgsAfterAppend := msgsAfterAppend r; lead := lead r;
     leadEpoch := leadEpoch r; leadTransferee := leadTransferee r;
     pendingConfIndex := pendingConfIndex r;
     disableConfChangeValidation := disableConfChangeValidation r;
     uncommittedSize := uncommittedSize r;
     electionElapsed := electionElapsed r; heartbeatElapsed := v;
     maxInflight := maxInflight r; maxInflightBytes := maxInflightBytes r;
     checkQuorum := checkQuorum r; preVote := preVote r;
     heartbeatTimeout := heartbeatTimeout r;
     electionTimeout := electionTimeout r;
     randomizedElectionTimeout := randomizedElectionTimeout r;
     disableProposalForwarding := disableProposalForwarding r;
     stepDownOnRemoval := stepDownOnRemoval r; tick := tick r; step := step r;
     globalRand := globalRand r |}.

Definition set_randomizedElectionTimeout (v : Z) (r : raft) : raft :=
  {| id := id r; Term := Term r; Vote := Vote r; raftLog := raftLog r;
     maxMsgSize := maxMsgSize r; maxUncommittedSize := maxUncommittedSize r;
     config := config r; trk := trk r; electionTracker := electionTracker r;
     state := state r; isLearner := isLearner r; msgs := msgs r;
     msgsAfterAppend := msgsAfterAppend r; lead := lead r;
     leadEpoch := leadEpoch r; leadTransferee := leadTransferee r;
     pendingConfIndex := pendingConfIndex r;
     disableConfChangeValidation := disableConfChangeValidation r;
     uncommittedSize := uncommittedSize r;
     electionElapsed := electionElapsed r;
     heartbeatElapsed := heartbeatElapsed r; maxInflight := maxInflight r;
     maxInflightBytes := maxInflightBytes r; checkQuorum := checkQuorum r;
     preVote := preVote r; heartbeatTimeout := heartbeatTimeout r;
     electionTimeout := electionTimeout r; randomizedElectionTimeout := v;
     disableProposalForwarding := disableProposalForwarding r;
     stepDownOnRemoval := stepDownOnRemoval r; tick := tick r; step := step r;
     globalRand := globalRand r |}.

Definition set_tick (v : tickFunc) (r : raft) : raft :=
  {| id := id r; Term := Term r; Vote := Vote r; raftLog := raftLog r;
     maxMsgSize := maxMsgSize r; maxUncommittedSize := maxUncommittedSize r;
     config := config r; trk := trk r; electionTracker := electionTracker r;
     state := state r; isLearner := isLearner r; msgs := msgs r;
     msgsAfterAppend := msgsAfterAppend r; lead := lead r;
     leadEpoch := leadEpoch r; leadTransferee := leadTransferee r;
     pendingConfIndex := pendingConfIndex r;
     disableConfChangeValidation := disableConfChangeValidation r;
     uncommittedSize := uncommittedSize r;
     electionElapsed := electionElapsed r;
     heartbeatElapsed := heartbeatElapsed r; maxInflight := maxInflight r;
     maxInflightBytes := maxInflightBytes r; checkQuorum := checkQuorum r;
     preVote := preVote r; heartbeatTimeout := heartbeatTimeout r;
     electionTimeout := electionTimeout r;
     randomizedElectionTimeout := randomizedElectionTimeout r;
     disableProposalForwarding := disableProposalForwarding r;
     stepDownOnRemoval := stepDownOnRemoval r; tick := v; step := step r;
     globalRand := globalRand r |}.

Definition set_step (v : stepFunc) (r : raft) : raft :=
  {| id := id r; Term := Term r; Vote := Vote r; raftLog := raftLog r;
     maxMsgSize := maxMsgSize r; maxUncommittedSize := maxUncommittedSize r;
     config := config r; trk := trk r; electionTracker := electionTracker r;
     state := state r; isLearner := isLearner r; msgs := msgs r;
     msgsAfterAppend := msgsAfterAppend r; lead := lead r;
     leadEpoch := leadEpoch r; leadTransferee := leadTransferee r;
     pendingConfIndex := pendingConfIndex r;
     disableConfChangeValidation := disableConfChangeValidation r;
     uncommittedSize := uncommittedSize r;
     electionElapsed := electionElapsed r;
     heartbeatElapsed := heartbeatElapsed r; maxInflight := maxInflight r;
     maxInflightBytes := maxInflightBytes r; checkQuorum := checkQuorum r;
     preVote := preVote r; heartbeatTimeout := heartbeatTimeout r;
     electionTimeout := electionTimeout r;
     randomizedElectionTimeout := randomizedElectionTimeout r;
     disableProposalForwarding := disableProposalForwarding r;
     stepDownOnRemoval := stepDownOnRemoval r; tick := tick r; step := v;
     globalRand := globalRand r |}.

Definition set_globalRand (v : list Z) (r : raft) : raft :=
  {| id := id r; Term := Term r; Vote := Vote r; raftLog := raftLog r;
     maxMsgSize := maxMsgSize r; maxUncommittedSize := maxUncommittedSize r;
     config := config r; trk := trk r; electionTracker := electionTracker r;
     state := state r; isLearner := isLearner r; msgs := msgs r;
     msgsAfterAppend := msgsAfterAppend r; lead := lead r;
     leadEpoch := leadEpoch r; leadTransferee := leadTransferee r;
     pendingConfIndex := pendingConfIndex r;
     disableConfChangeValidation := disableConfChangeValidation r;
     uncommittedSize := uncommittedSize r;
     electionElapsed := electionElapsed r;
     heartbeatElapsed := heartbeatElapsed r; maxInflight := maxInflight r;
     maxInflightBytes := maxInflightBytes r; checkQuorum := checkQuorum r;
     preVote := preVote r; heartbeatTimeout := heartbeatTimeout r;
     electionTimeout := electionTimeout r;
     randomizedElectionTimeout := randomizedElectionTimeout r;
     disableProposalForwarding := disableProposalForwarding r;
     stepDownOnRemoval := stepDownOnRemoval r; tick := tick r; step := step r;
     globalRand := v |}.

(** ** Computations on the replica *)

(** A method of [*raft] ends with a value and a new replica, or panics.
    [Outside] marks the places where the Go code goes on into handlers that
    this development does not embed; nothing is proved about those runs. *)
Inductive Res (A : Type) : Type :=
| Ok (a : A) (r : raft)
| Panic (msg : string)
| Outside (what : string).

Arguments Ok {A} a r.
Arguments Panic {A} msg.
Arguments Outside {A} what.

Definition M (A : Type) : Type := raft -> Res A.

Definition ret {A} (a : A) : M A := fun r => Ok a r.

Definition bind {A B} (c : M A) (k : A -> M B) : M B :=
  fun r =>
    match c r with
    | Ok a r' => k a r'
    | Panic msg => Panic msg
    | Outside what => Outside what
    end.

Definition get : M raft := fun r => Ok r r.
Definition gets {A} (f : raft -> A) : M A := fun r => Ok (f r) r.
Definition modify (f : raft -> raft) : M unit := fun r => Ok tt (f r).
Definition panic {A} (msg : string) : M A := fun _ => Panic msg.
Definition outside {A} (what : string) : M A := fun _ => Outside what.

Declare Scope raft_scope.
Delimit Scope raft_scope with raft.

Notation "x <- c1 ;; c2" := (bind c1 (fun x => c2))
  (at level 20, c1 at level 99, c2 at level 200, only parsing) : raft_scope.
Notation "' pat <- c1 ;; c2" := (bind c1 (fun x => match x with pat => c2 end))
  (at level 20, pat pattern, c1 at level 99, c2 at level 200, only parsing) : raft_scope.
Notation "c1 ;; c2" := (bind c1 (fun _ => c2))
  (at level 100, c2 at level 200, only parsing, right associativity) : raft_scope.

Local Open Scope raft_scope.

(** [for _, x := range l { f x }]. *)
Definition forEach {A} (l : list A) (f : A -> M unit) : M unit :=
  foldr (fun x k => f x ;; k) (ret tt) l.

(** ** Code of other packages taken as a parameter *)

(** Outcome of [raftLog.snapshot()], which asks the storage. *)
Inductive snapshotResult :=
| SnapshotOk (s : pb.Snapshot)
| ErrSnapshotTemporarilyUnavailable
| SnapshotError.

(** What raft.go calls and the design document leaves open: the decoders of
    raftpb, the encoded size of an entry, the flow-control decisions of
    [tracker.Progress], the reads that go to the storage and the test
    [IsEmptySnap] of util.go. *)
Class External := {
  unmarshalConfChange : list Byte.byte -> option pb.ConfChange;
  unmarshalConfChangeV2 : list Byte.byte -> option pb.ConfChangeV2;
  entrySize : pb.Entry -> N;
  ShouldSendMsgApp : tracker.Progress -> N -> N -> bool;
  CanSendEntries : tracker.Progress -> N -> bool;
  SentEntries : tracker.Progress -> Z -> N -> tracker.Progress;
  SentCommit : tracker.Progress -> N -> tracker.Progress;
  logEntries : log.raftLog -> N -> N -> option (list pb.Entry);
  logSnapshot : log.raftLog -> snapshotResult;
  IsEmptySnap : pb.Snapshot -> bool;
}.

(** An instance to run the definitions on: entries decode to a change
    whose number of single changes is the length of the data, every entry
    has size 1, appends are always due and carry no entries, and the
    storage has no snapshot at hand. *)
Definition sampleExternal : External := {|
  unmarshalConfChange := fun d =>
    Some {| pb.cc_Type := 0; pb.cc_NodeID := N.of_nat (length d);
            pb.cc_Context := [] |};
  unmarshalConfChangeV2 := fun d =>
    Some {| pb.cc2_Transition := 0;
            pb.cc2_Changes :=
              (fun _ => {| pb.ccs_Type := 0; pb.ccs_NodeID := 0 |}) <$> d;
            pb.cc2_Context := [] |};
  entrySize := fun _ => 1;
  ShouldSendMsgApp := fun _ _ _ => true;
  CanSendEntries := fun _ _ => false;
  SentEntries := fun p _ _ => p;
  SentCommit := fun p _ => p;
  logEntries := fun _ _ _ => Some [];
  logSnapshot := fun _ => ErrSnapshotTemporarilyUnavailable;
  IsEmptySnap := fun sp => bool_decide (pb.snap_Index sp = 0);
|}.

(** ** The log, continued: paginated scan *)

(** Modelled from the spec: the pages of [scan], each as large as
    [pageSize] allows and never empty. *)
Fixpoint scanPages (size : pb.Entry -> N) (pageSize : N)
    (cur : list pb.Entry) (curSize : N) (es : list pb.Entry) : list (list pb.Entry) :=
  match es with
  | [] => match cur with [] => [] | _ => [reverse cur] end
  | e :: es' =>
      match cur with
      | [] => scanPages size pageSize [e] (size e) es'
      | _ =>
          if bool_decide (curSize + size e <= pageSize)
          then scanPages size pageSize (e :: cur) (curSize + size e) es'
          else reverse cur :: scanPages size pageSize [e] (size e) es'
      end
  end.

(** Modelled from the spec: the visitor of [scan] is called page after
    page until it returns an error. *)
Fixpoint visitPages {E} (visit : list pb.Entry -> option E)
    (ps : list (list pb.Entry)) : option E :=
  match ps with
  | [] => None
  | p :: ps' => match visit p with Some e => Some e | None => visitPages visit ps' end
  end.

(** Modelled from the spec: [scan(lo, hi, pageSize, visitor)], "bounded
    paginated iteration" over the entries with index in [lo, hi).  The
    result is [None] when every page was visited, [Some (inr e)] when the
    visitor stopped with [e], [Some (inl tt)] when the range is not in
    the log (compacted or unavailable). *)
Definition scan {E} (size : pb.Entry -> N) (l : log.raftLog) (lo hi pageSize : N)
    (visit : list pb.Entry -> option E) : option (unit + E) :=
  if bool_decide (lo <= eid_index (log.snap l)) then Some (inl tt)
  else if bool_decide (log.lastIndex l + 1 < hi) then Some (inl tt)
  else
    let es := take (N.to_nat (hi - lo))
                (drop (N.to_nat (lo - eid_index (log.snap l) - 1)) (log.ents l)) in
    inr <$> visitPages visit (scanPages size pageSize [] 0 es).

(** ** raft.go: sending, committing, resetting *)

(** [a - b] on [uint64]. *)
Definition sub64 (a b : N) : N := u64 (a + 18446744073709551616 - u64 b).

(** [send] (lines 487-570). *)
Definition send (m : pb.Message) : M unit :=
  r <- get ;;
  let m := if bool_decide (pb.m_From m = NoneID) then pb.set_From (id r) m else m in
  m <- (if bool_decide (pb.m_Type m = pb.MsgVote)
           || bool_decide (pb.m_Type m = pb.MsgVoteResp)
           || bool_decide (pb.m_Type m = pb.MsgPreVote)
           || bool_decide (pb.m_Type m = pb.MsgPreVoteResp)
        then
          if bool_decide (pb.m_Term m = 0)
          then panic "term should be set when sending"
          else ret m
        else
          if bool_decide (pb.m_Term m <> 0)
          then panic "term should not be set when sending"
          else if bool_decide (pb.m_Type m <> pb.MsgProp)
          then ret (pb.set_Term (Term r) m)
          else ret m) ;;
  if bool_decide (pb.m_Type m = pb.MsgAppResp)
     || bool_decide (pb.m_Type m = pb.MsgVoteResp)
     || bool_decide (pb.m_Type m = pb.MsgPreVoteResp)
  then modify (fun r => set_msgsAfterAppend (msgsAfterAppend r ++ [m]) r)
  else
    if bool_decide (pb.m_To m = id r)
    then panic "message should not be self-addressed when sending"
    else modify (fun r => set_msgs (msgs r ++ [m]) r).

(** [maybeCommit] (lines 731-749). *)
Definition maybeCommit : M bool :=
  r <- get ;;
  let index := tracker.Committed (config r) (trk r) in
  if bool_decide (index <= log.committed (raftLog r)) then ret false
  else if negb (log.matchTerm (raftLog r) {| eid_term := Term r; eid_index := index |})
  then ret false
  else
    modify (fun r =>
      set_raftLog (log.commitTo (raftLog r) {| mark_term := Term r; mark_index := index |}) r) ;;
    ret true.

(** [globalRand.Intn]: the next number of the source, reduced to
    [0, n); [rand.Int] panics when [n <= 0]. *)
Definition Intn (n : Z) : M Z :=
  if bool_decide (n <= 0)%Z then panic "crypto/rand: argument to Int is <= 0"
  else
    r <- get ;;
    match globalRand r with
    | [] => ret 0%Z
    | x :: rest => modify (set_globalRand rest) ;; ret (x mod n)%Z
    end.

(** [resetRandomizedElectionTimeout] (lines 2028-2030). *)
Definition resetRandomizedElectionTimeout : M unit :=
  r <- get ;;
  v <- Intn (electionTimeout r) ;;
  modify (set_randomizedElectionTimeout (i64 (electionTimeout r + v))).

(** [abortLeaderTransfer] (lines 2036-2038). *)
Definition abortLeaderTransfer : M unit :=
  modify (set_leadTransferee NoneID).

(** The closure that [reset] passes to [trk.Visit]: it overwrites the
    visited progress and nothing else, so visiting is a map over the
    progress map. *)
Definition resetProgress (r : raft) (i : N) (pr : tracker.Progress) : tracker.Progress :=
  let pr' :=
    {| tracker.Match := 0;
       tracker.Next := u64 (log.lastIndex (raftLog r) + 1);
       tracker.State := tracker.StateProbe;
       tracker.PendingSnapshot := 0;
       tracker.RecentActive := false;
       tracker.MsgAppProbesPaused := false;
       tracker.Inflights_ :=
         Some (tracker.NewInflights (maxInflight r) (maxInflightBytes r));
       tracker.IsLearner := tracker.IsLearner pr;
       tracker.sentCommit := 0 |} in
  if bool_decide (i = id r)
  then tracker.set_Match (log.lastIndex (raftLog r)) pr'
  else pr'.

(** [reset] (lines 751-781). *)
Definition reset (term : N) : M unit :=
  modify (fun r =>
    if bool_decide (Term r <> term) then set_Vote NoneID (set_Term term r) else r) ;;
  modify (set_lead NoneID) ;;
  modify (set_electionElapsed 0%Z) ;;
  modify (set_heartbeatElapsed 0%Z) ;;
  resetRandomizedElectionTimeout ;;
  abortLeaderTransfer ;;
  modify (set_electionTracker ∅) ;;
  modify (fun r => set_trk (map_imap (fun i pr => Some (resetProgress r i pr)) (trk r)) r) ;;
  modify (set_pendingConfIndex 0) ;;
  modify (set_uncommittedSize 0).

(** [increaseUncommittedSize] (lines 2048-2062). *)
Definition increaseUncommittedSize (ents : list pb.Entry) : M bool :=
  r <- get ;;
  let s := payloadsSize ents in
  if bool_decide (0 < uncommittedSize r) && bool_decide (0 < s)
     && bool_decide (maxUncommittedSize r < u64 (uncommittedSize r + s))
  then ret false
  else
    modify (set_uncommittedSize (u64 (uncommittedSize r + s))) ;;
    ret true.

(** [reduceUncommittedSize] (lines 2066-2075). *)
Definition reduceUncommittedSize (s : N) : M unit :=
  r <- get ;;
  if bool_decide (uncommittedSize r < s)
  then modify (set_uncommittedSize 0)
  else modify (set_uncommittedSize (sub64 (uncommittedSize r) s)).

(** The loop of [appendEntry] that stamps the entries. *)
Definition stampEntries (term lastIdx : N) (es : list pb.Entry) : list pb.Entry :=
  imap (fun i e =>
    {| pb.e_Term := term;
       pb.e_Index := u64 (u64 (lastIdx + 1) + u64 (N.of_nat i));
       pb.e_Type := pb.e_Type e;
       pb.e_Data := pb.e_Data e |}) es.

(** [appendEntry] (lines 783-821). *)
Definition appendEntry (es : list pb.Entry) : M bool :=
  r <- get ;;
  let last := log.lastEntryID (raftLog r) in
  let es := stampEntries (Term r) (eid_index last) es in
  accepted <- increaseUncommittedSize es ;;
  if negb accepted then ret false
  else
    let app := {| ls_term := Term r; ls_prev := last; ls_entries := es |} in
    if negb (log.valid app) then panic "leader could not append to its log: invalid slice"
    else
      let '(l', ok) := log.append (raftLog r) app in
      if negb ok then panic "leader could not append to its log"
      else
        modify (set_raftLog l') ;;
        r <- get ;;
        match trk r !! id r with
        | None => panic "nil pointer dereference: no progress for the leader"
        | Some pr =>
            modify (set_trk
              (<[id r := tracker.set_Next (u64 (log.slice_lastIndex app + 1)) pr]> (trk r))) ;;
            send {| pb.m_Type := pb.MsgAppResp; pb.m_To := id r; pb.m_From := 0;
                    pb.m_Term := 0; pb.m_LogTerm := 0;
                    pb.m_Index := log.lastIndex (raftLog r);
                    pb.m_Entries := []; pb.m_Commit := 0; pb.m_Match := 0;
                    pb.m_Snapshot := None; pb.m_Reject := false;
                    pb.m_RejectHint := 0; pb.m_Context := [] |} ;;
            ret true
        end.

(** ** raft.go: role transitions *)

(** [becomeFollower] (lines 870-877). *)
Definition becomeFollower (term : N) (lead : PeerID) : M unit :=
  modify (set_step stepFollowerFn) ;;
  reset term ;;
  modify (set_tick tickElection) ;;
  modify (set_lead lead) ;;
  modify (set_state StateFollower).

(** [becomeCandidate] (lines 879-890). *)
Definition becomeCandidate : M unit :=
  r <- get ;;
  if bool_decide (state r = StateLeader)
  then panic "invalid transition [leader -> candidate]"
  else
    modify (set_step stepCandidateFn) ;;
    reset (u64 (Term r + 1)) ;;
    modify (set_tick tickElection) ;;
    modify (fun r => set_Vote (id r) r) ;;
    modify (set_state StateCandidate).

(** [becomePreCandidate] (lines 892-910). *)
Definition becomePreCandidate : M unit :=
  r <- get ;;
  if bool_decide (state r = StateLeader)
  then panic "invalid transition [leader -> pre-candidate]"
  else
    modify (set_step stepCandidateFn) ;;
    modify (set_electionTracker ∅) ;;
    modify (set_tick tickElection) ;;
    modify (set_lead NoneID) ;;
    modify (set_state StatePreCandidate).

(** [becomeLeader] (lines 912-949). *)
Definition becomeLeader : M unit :=
  r <- get ;;
  if bool_decide (state r = StateFollower)
  then panic "invalid transition [follower -> leader]"
  else
    modify (set_step stepLeaderFn) ;;
    reset (Term r) ;;
    modify (set_tick tickHeartbeat) ;;
    modify (fun r => set_lead (id r) r) ;;
    modify (set_state StateLeader) ;;
    r <- get ;;
    match trk r !! id r with
    | None => panic "nil pointer dereference: no progress for the leader"
    | Some pr =>
        modify (set_trk
          (<[id r := tracker.set_RecentActive true (tracker.BecomeReplicate pr)]> (trk r))) ;;
        modify (fun r => set_pendingConfIndex (log.lastIndex (raftLog r)) r) ;;
        let emptyEnt := {| pb.e_Term := 0; pb.e_Index := 0;
                           pb.e_Type := pb.EntryNormal; pb.e_Data := [] |} in
        accepted <- appendEntry [emptyEnt] ;;
        if negb accepted then panic "empty entry was dropped" else ret tt
    end.

(** [promotable] (lines 1923-1926). *)
Definition promotable (r : raft) : bool :=
  match trk r !! id r with
  | None => false
  | Some pr =>
      negb (tracker.IsLearner pr)
      && negb (log.hasNextOrInProgressSnapshot (raftLog r))
  end.

(** The messages that [campaign] sends to the voter [i]. *)
Definition campaignSend (t : CampaignType) (voteMsg : pb.MessageType) (term : N)
    (i : PeerID) : M unit :=
  r <- get ;;
  if bool_decide (i = id r)
  then
    match voteRespMsgType voteMsg with
    | None => panic "not a vote message"
    | Some resp =>
        send {| pb.m_Type := resp; pb.m_To := i; pb.m_From := 0;
                pb.m_Term := term; pb.m_LogTerm := 0; pb.m_Index := 0;
                pb.m_Entries := []; pb.m_Commit := 0; pb.m_Match := 0;
                pb.m_Snapshot := None; pb.m_Reject := false;
                pb.m_RejectHint := 0; pb.m_Context := [] |}
    end
  else
    let last := log.lastEntryID (raftLog r) in
    let ctx := if bool_decide (t = campaignTransfer) then campaignBytes t else [] in
    send {| pb.m_Type := voteMsg; pb.m_To := i; pb.m_From := 0;
            pb.m_Term := term; pb.m_LogTerm := eid_term last;
            pb.m_Index := eid_index last;
            pb.m_Entries := []; pb.m_Commit := 0; pb.m_Match := 0;
            pb.m_Snapshot := None; pb.m_Reject := false;
            pb.m_RejectHint := 0; pb.m_Context := ctx |}.

(** [campaign] (lines 1003-1051); the voters are visited in increasing
    order of their id ([sort.Slice]). *)
Definition campaign (t : CampaignType) : M unit :=
  '(voteMsg, term) <-
    (if bool_decide (t = campaignPreElection)
     then becomePreCandidate ;; r <- get ;; ret (pb.MsgPreVote, u64 (Term r + 1))
     else becomeCandidate ;; r <- get ;; ret (pb.MsgVote, Term r)) ;;
  r <- get ;;
  let ids := merge_sort N.le (elements (quorum.IDs (quorum.Voters (config r)))) in
  forEach ids (campaignSend t voteMsg term).

(** [poll] (lines 1053-1063). *)
Definition poll (i : PeerID) (t : pb.MessageType) (v : bool)
    : M (nat * nat * quorum.VoteResult) :=
  modify (fun r => set_electionTracker (tracker.RecordVote (electionTracker r) i v) r) ;;
  r <- get ;;
  ret (tracker.TallyVotes (config r) (trk r) (electionTracker r)).

(** ** raft.go: handling appends and heartbeats *)

(** [logSliceFromMsgApp] (lines 1693-1700). *)
Definition logSliceFromMsgApp (m : pb.Message) : logSlice :=
  {| ls_term := pb.m_Term m;
     ls_prev := {| eid_term := pb.m_LogTerm m; eid_index := pb.m_Index m |};
     ls_entries := pb.m_Entries m |}.

(** [checkMatch] (lines 1762-1772). *)
Definition checkMatch (match_ : N) : M unit :=
  r <- get ;;
  if bool_decide (log.lastIndex (raftLog r) < match_)
  then panic "match is out of range"
  else ret tt.

(** A [MsgAppResp] as the literals of [handleAppendEntries] build it. *)
Definition appResp (to index : N) (reject : bool) (hint logTerm : N) : pb.Message :=
  {| pb.m_Type := pb.MsgAppResp; pb.m_To := to; pb.m_From := 0; pb.m_Term := 0;
     pb.m_LogTerm := logTerm; pb.m_Index := index; pb.m_Entries := [];
     pb.m_Commit := 0; pb.m_Match := 0; pb.m_Snapshot := None;
     pb.m_Reject := reject; pb.m_RejectHint := hint; pb.m_Context := [] |}.

(** [handleAppendEntries] (lines 1702-1758). *)
Definition handleAppendEntries (m : pb.Message) : M unit :=
  checkMatch (pb.m_Match m) ;;
  let a := logSliceFromMsgApp m in
  if negb (log.valid a) then ret tt
  else
    r <- get ;;
    if bool_decide (eid_index (ls_prev a) < log.committed (raftLog r))
    then send (appResp (pb.m_From m) (log.committed (raftLog r)) false 0 0)
    else
      let '(l', ok) := log.maybeAppend (raftLog r) a in
      if ok then
        modify (set_raftLog l') ;;
        let lastIndex := log.slice_lastIndex a in
        modify (fun r =>
          set_raftLog
            (log.commitTo (raftLog r)
               {| mark_term := pb.m_Term m;
                  mark_index := N.min (pb.m_Commit m) lastIndex |}) r) ;;
        send (appResp (pb.m_From m) lastIndex false 0 0)
      else
        let hintIndex := N.min (pb.m_Index m) (log.lastIndex (raftLog r)) in
        let '(hintIndex, hintTerm) :=
          log.findConflictByTerm (raftLog r) hintIndex (pb.m_LogTerm m) in
        send (appResp (pb.m_From m) (pb.m_Index m) true hintIndex hintTerm).

(** [handleHeartbeat] (lines 1774-1804). *)
Definition handleHeartbeat (m : pb.Message) : M unit :=
  checkMatch (pb.m_Match m) ;;
  r <- get ;;
  let mark := {| mark_term := pb.m_Term m;
                 mark_index := N.min (pb.m_Commit m) (log.lastIndex (raftLog r)) |} in
  (if bool_decide (mark_term mark = log.accTerm (raftLog r))
   then modify (set_raftLog (log.commitTo (raftLog r) mark))
   else ret tt) ;;
  send {| pb.m_Type := pb.MsgHeartbeatResp; pb.m_To := pb.m_From m; pb.m_From := 0;
          pb.m_Term := 0; pb.m_LogTerm := 0; pb.m_Index := 0;
          pb.m_Entries := []; pb.m_Commit := 0; pb.m_Match := 0;
          pb.m_Snapshot := None; pb.m_Reject := false;
          pb.m_RejectHint := 0; pb.m_Context := [] |}.

(** ** raft.go: campaigning, replication and the step functions *)

Section WithExternal.

Context `{External}.

(** The visitor that [hasUnappliedConfChanges] hands to [scan]: it stops
    with [errBreak] at a page holding a configuration change. *)
Definition isConfChange (e : pb.Entry) : bool :=
  bool_decide (pb.e_Type e = pb.EntryConfChange)
  || bool_decide (pb.e_Type e = pb.EntryConfChangeV2).

Definition confChangeVisitor (ents : list pb.Entry) : option unit :=
  if existsb isConfChange ents then Some tt else None.

(** [hasUnappliedConfChanges] (lines 973-999). *)
Definition hasUnappliedConfChanges : M bool :=
  r <- get ;;
  if bool_decide (log.committed (raftLog r) <= log.applied (raftLog r))
  then ret false
  else
    let lo := u64 (log.applied (raftLog r) + 1) in
    let hi := u64 (log.committed (raftLog r) + 1) in
    let pageSize := log.maxApplyingEntsSize (raftLog r) in
    match scan entrySize (raftLog r) lo hi pageSize confChangeVisitor with
    | None => ret false
    | Some (inr _) => ret true
    | Some (inl _) => panic "error scanning unapplied entries"
    end.

(** [hup] (lines 951-968). *)
Definition hup (t : CampaignType) : M unit :=
  r <- get ;;
  if bool_decide (state r = StateLeader) then ret tt
  else if negb (promotable r) then ret tt
  else
    unapplied <- hasUnappliedConfChanges ;;
    if unapplied then ret tt
    else campaign t.

(** [maybeSendSnapshot] (lines 626-651); [pr] points into the progress
    map at [to]. *)
Definition maybeSendSnapshot (to : PeerID) (pr : tracker.Progress) : M bool :=
  if negb (tracker.RecentActive pr) then ret false
  else
    r <- get ;;
    match logSnapshot (raftLog r) with
    | ErrSnapshotTemporarilyUnavailable => ret false
    | SnapshotError => panic "snapshot error"
    | SnapshotOk snapshot =>
        if IsEmptySnap snapshot
        then panic "need non-empty snapshot"
        else
          modify (set_trk
            (<[to := tracker.BecomeSnapshot pr (pb.snap_Index snapshot)]> (trk r))) ;;
          send {| pb.m_Type := pb.MsgSnap; pb.m_To := to; pb.m_From := 0;
                  pb.m_Term := 0; pb.m_LogTerm := 0; pb.m_Index := 0;
                  pb.m_Entries := []; pb.m_Commit := 0; pb.m_Match := 0;
                  pb.m_Snapshot := Some snapshot; pb.m_Reject := false;
                  pb.m_RejectHint := 0; pb.m_Context := [] |} ;;
          ret true
    end.

(** The tail of [maybeSendAppend]: send the [MsgApp] and update the
    progress. *)
Definition sendAppend (to : PeerID) (pr : tracker.Progress)
    (prevIndex prevTerm commit : N) (entries : list pb.Entry) : M bool :=
  send {| pb.m_Type := pb.MsgApp; pb.m_To := to; pb.m_From := 0;
          pb.m_Term := 0; pb.m_LogTerm := prevTerm; pb.m_Index := prevIndex;
          pb.m_Entries := entries; pb.m_Commit := commit;
          pb.m_Match := tracker.Match pr;
          pb.m_Snapshot := None; pb.m_Reject := false;
          pb.m_RejectHint := 0; pb.m_Context := [] |} ;;
  modify (fun r =>
    set_trk
      (<[to := SentCommit
                 (SentEntries pr (Z.of_nat (length entries)) (payloadsSize entries))
                 commit]> (trk r)) r) ;;
  ret true.

(** [maybeSendAppend] (lines 585-622). *)
Definition maybeSendAppend (to : PeerID) : M bool :=
  r <- get ;;
  match trk r !! to with
  | None => panic "nil pointer dereference: no progress for the peer"
  | Some pr =>
      let last := log.lastIndex (raftLog r) in
      let commit := log.committed (raftLog r) in
      if negb (ShouldSendMsgApp pr last commit) then ret false
      else
        let prevIndex := sub64 (tracker.Next pr) 1 in
        match log.term (raftLog r) prevIndex with
        | TermOk prevTerm =>
            if CanSendEntries pr last
            then
              match logEntries (raftLog r) (tracker.Next pr) (maxMsgSize r) with
              | Some entries => sendAppend to pr prevIndex prevTerm commit entries
              | None => maybeSendSnapshot to pr
              end
            else sendAppend to pr prevIndex prevTerm commit []
        | _ => maybeSendSnapshot to pr
        end
  end.

(** [sendHeartbeat] (lines 654-670). *)
Definition sendHeartbeat (to : PeerID) : M unit :=
  r <- get ;;
  match trk r !! to with
  | None => panic "nil pointer dereference: no progress for the peer"
  | Some pr =>
      let commit := N.min (tracker.Match pr) (log.committed (raftLog r)) in
      send {| pb.m_Type := pb.MsgHeartbeat; pb.m_To := to; pb.m_From := 0;
              pb.m_Term := 0; pb.m_LogTerm := 0; pb.m_Index := 0;
              pb.m_Entries := []; pb.m_Commit := commit;
              pb.m_Match := tracker.Match pr;
              pb.m_Snapshot := None; pb.m_Reject := false;
              pb.m_RejectHint := 0; pb.m_Context := [] |} ;;
      modify (fun r => set_trk (<[to := SentCommit pr commit]> (trk r)) r)
  end.

(** [bcastAppend] (lines 674-681). *)
Definition bcastAppend : M unit :=
  r <- get ;;
  forEach (tracker.visitOrder (trk r)) (fun i =>
    if bool_decide (i = id r) then ret tt
    else _ <- maybeSendAppend i ;; ret tt).

(** [bcastHeartbeat] (lines 684-691). *)
Definition bcastHeartbeat : M unit :=
  r <- get ;;
  forEach (tracker.visitOrder (trk r)) (fun i =>
    if bool_decide (i = id r) then ret tt
    else sendHeartbeat i).

(** The decoding at the head of the loop of [stepLeader] over the proposed
    entries: [cc] stays nil for a normal entry; a failed [Unmarshal]
    panics. *)
Definition decodeConfChange (e : pb.Entry) : M (option pb.ConfChangeI) :=
  if bool_decide (pb.e_Type e = pb.EntryConfChange)
  then
    match unmarshalConfChange (pb.e_Data e) with
    | None => panic "unmarshal ConfChange"
    | Some ccc => ret (Some (pb.V1 ccc))
    end
  else if bool_decide (pb.e_Type e = pb.EntryConfChangeV2)
  then
    match unmarshalConfChangeV2 (pb.e_Data e) with
    | None => panic "unmarshal ConfChangeV2"
    | Some ccc => ret (Some (pb.V2 ccc))
    end
  else ret None.

(** The text of [failedCheck] (lines 1299-1306); the first message stands
    for the formatted one, which is never empty either. *)
Definition failedCheck (alreadyPending alreadyJoint wantsLeaveJoint : bool) : string :=
  if alreadyPending then "possible unapplied conf change"
  else if alreadyJoint && negb wantsLeaveJoint
  then "must transition out of joint config first"
  else if negb alreadyJoint && wantsLeaveJoint
  then "not in joint state; refusing empty conf change"
  else "".

(** One round of the loop of [stepLeader] over [m.Entries] (lines
    1272-1319): the entry at position [i] of the batch, as the loop leaves
    it. *)
Definition proposeEntry (i : nat) (e : pb.Entry) : M pb.Entry :=
  cc <- decodeConfChange e ;;
  match cc with
  | None => ret e
  | Some cc =>
      r <- get ;;
      let alreadyPending :=
        bool_decide (log.applied (raftLog r) < pendingConfIndex r) in
      let alreadyJoint :=
        bool_decide (0 < size (quorum.Voters (config r)).2)%nat in
      let wantsLeaveJoint :=
        bool_decide (length (pb.cc2_Changes (pb.AsV2 cc)) = O) in
      let failed := failedCheck alreadyPending alreadyJoint wantsLeaveJoint in
      if alreadyPending
         || (negb (String.eqb failed "") && negb (disableConfChangeValidation r))
      then ret {| pb.e_Term := 0; pb.e_Index := 0;
                  pb.e_Type := pb.EntryNormal; pb.e_Data := [] |}
      else
        modify (set_pendingConfIndex
          (u64 (u64 (log.lastIndex (raftLog r) + u64 (N.of_nat i)) + 1))) ;;
        ret e
  end.

(** The loop itself, from position [i] on. *)
Fixpoint proposeEntries (i : nat) (es : list pb.Entry) : M (list pb.Entry) :=
  match es with
  | [] => ret []
  | e :: es' =>
      e' <- proposeEntry i e ;;
      es'' <- proposeEntries (S i) es' ;;
      ret (e' :: es'')
  end.

(** [stepLeader] (lines 1232-1586).  The handlers of the messages that need
    the progress of the sender ([MsgAppResp], [MsgHeartbeatResp],
    [MsgSnapStatus], [MsgUnreachable], [MsgTransferLeader]) are not
    embedded. *)
Definition stepLeader (m : pb.Message) : M (option error) :=
  match pb.m_Type m with
  | pb.MsgBeat => bcastHeartbeat ;; ret None
  | pb.MsgCheckQuorum =>
      r <- get ;;
      (if negb (tracker.QuorumActive (config r) (trk r))
       then becomeFollower (Term r) (id r)
       else ret tt) ;;
      modify (fun r =>
        set_trk
          (map_imap (fun i pr =>
             Some (if bool_decide (i <> id r)
                   then tracker.set_RecentActive false pr else pr)) (trk r)) r) ;;
      ret None
  | pb.MsgProp =>
      r <- get ;;
      if bool_decide (length (pb.m_Entries m) = O) then panic "stepped empty MsgProp"
      else if bool_decide (trk r !! id r = None) then ret (Some ErrProposalDropped)
      else if bool_decide (leadTransferee r <> NoneID) then ret (Some ErrProposalDropped)
      else
        es <- proposeEntries O (pb.m_Entries m) ;;
        accepted <- appendEntry es ;;
        if negb accepted then ret (Some ErrProposalDropped)
        else bcastAppend ;; ret None
  | pb.MsgForgetLeader => ret None
  | _ =>
      r <- get ;;
      match trk r !! pb.m_From m with
      | None => ret None
      | Some pr =>
          match pb.m_Type m with
          | pb.MsgAppResp | pb.MsgHeartbeatResp | pb.MsgSnapStatus
          | pb.MsgUnreachable | pb.MsgTransferLeader =>
              outside "stepLeader: handler of a progress message"
          | _ => ret None
          end
      end
  end.

(** [stepCandidate] (lines 1590-1633); [handleSnapshot] is not embedded. *)
Definition stepCandidate (m : pb.Message) : M (option error) :=
  r <- get ;;
  let myVoteRespType :=
    if bool_decide (state r = StatePreCandidate)
    then pb.MsgPreVoteResp else pb.MsgVoteResp in
  if bool_decide (pb.m_Type m = pb.MsgProp) then ret (Some ErrProposalDropped)
  else if bool_decide (pb.m_Type m = pb.MsgApp) then
    becomeFollower (pb.m_Term m) (pb.m_From m) ;;
    handleAppendEntries m ;; ret None
  else if bool_decide (pb.m_Type m = pb.MsgHeartbeat) then
    becomeFollower (pb.m_Term m) (pb.m_From m) ;;
    handleHeartbeat m ;; ret None
  else if bool_decide (pb.m_Type m = pb.MsgSnap) then
    becomeFollower (pb.m_Term m) (pb.m_From m) ;;
    outside "handleSnapshot"
  else if bool_decide (pb.m_Type m = myVoteRespType) then
    '(gr, rj, res) <- poll (pb.m_From m) (pb.m_Type m) (negb (pb.m_Reject m)) ;;
    match res with
    | quorum.VoteWon =>
        r <- get ;;
        (if bool_decide (state r = StatePreCandidate)
         then campaign campaignElection
         else becomeLeader ;; bcastAppend) ;;
        ret None
    | quorum.VoteLost =>
        r <- get ;;
        becomeFollower (Term r) (lead r) ;; ret None
    | quorum.VotePending => ret None
    end
  else ret None.

(** [stepFollower] (lines 1635-1690); [handleSnapshot] is not embedded. *)
Definition stepFollower (m : pb.Message) : M (option error) :=
  r <- get ;;
  match pb.m_Type m with
  | pb.MsgProp =>
      if bool_decide (lead r = NoneID) then ret (Some ErrProposalDropped)
      else if disableProposalForwarding r then ret (Some ErrProposalDropped)
      else if bool_decide (lead r = id r) then ret (Some ErrProposalDropped)
      else send (pb.set_To (lead r) m) ;; ret None
  | pb.MsgApp =>
      modify (set_electionElapsed 0%Z) ;;
      modify (set_lead (pb.m_From m)) ;;
      handleAppendEntries m ;; ret None
  | pb.MsgHeartbeat =>
      modify (set_electionElapsed 0%Z) ;;
      modify (set_lead (pb.m_From m)) ;;
      handleHeartbeat m ;; ret None
  | pb.MsgSnap =>
      modify (set_electionElapsed 0%Z) ;;
      modify (set_lead (pb.m_From m)) ;;
      outside "handleSnapshot"
  | pb.MsgTransferLeader =>
      if bool_decide (lead r = NoneID) then ret None
      else if bool_decide (lead r = id r) then ret None
      else send (pb.set_To (lead r) m) ;; ret None
  | pb.MsgForgetLeader =>
      (if bool_decide (lead r <> NoneID) then modify (set_lead NoneID) else ret tt) ;;
      ret None
  | pb.MsgTimeoutNow => hup campaignTransfer ;; ret None
  | _ => ret None
  end.

(** A vote response as the literals of [Step] build it. *)
Definition voteResp (t : pb.MessageType) (to term : N) (reject : bool) : pb.Message :=
  {| pb.m_Type := t; pb.m_To := to; pb.m_From := 0; pb.m_Term := term;
     pb.m_LogTerm := 0; pb.m_Index := 0; pb.m_Entries := []; pb.m_Commit := 0;
     pb.m_Match := 0; pb.m_Snapshot := None; pb.m_Reject := reject;
     pb.m_RejectHint := 0; pb.m_Context := [] |}.

(** [force] and [inLease] of [Step] (lines 1072-1073). *)
Definition force (m : pb.Message) : bool :=
  bool_decide (pb.m_Context m = campaignBytes campaignTransfer).

Definition inLease (r : raft) : bool :=
  checkQuorum r && bool_decide (lead r <> NoneID)
  && bool_decide (electionElapsed r < electionTimeout r)%Z.

(** The first switch of [Step] (lines 1067-1142), on the term of the
    message.  Its value is [true] where [Step] returns [nil] at once. *)
Definition stepTerm (m : pb.Message) : M bool :=
  r <- get ;;
  if bool_decide (pb.m_Term m = 0) then ret false
  else if bool_decide (Term r < pb.m_Term m) then
    if (bool_decide (pb.m_Type m = pb.MsgVote) || bool_decide (pb.m_Type m = pb.MsgPreVote))
       && (negb (force m) && inLease r)
    then ret true
    else
      (if bool_decide (pb.m_Type m = pb.MsgPreVote) then ret tt
       else if bool_decide (pb.m_Type m = pb.MsgPreVoteResp) && negb (pb.m_Reject m)
       then ret tt
       else if bool_decide (pb.m_Type m = pb.MsgApp)
               || bool_decide (pb.m_Type m = pb.MsgHeartbeat)
               || bool_decide (pb.m_Type m = pb.MsgSnap)
       then becomeFollower (pb.m_Term m) (pb.m_From m)
       else becomeFollower (pb.m_Term m) NoneID) ;;
      ret false
  else if bool_decide (pb.m_Term m < Term r) then
    (if (checkQuorum r || preVote r)
        && (bool_decide (pb.m_Type m = pb.MsgHeartbeat)
            || bool_decide (pb.m_Type m = pb.MsgApp))
     then send (appResp (pb.m_From m) 0 false 0 0)
     else if bool_decide (pb.m_Type m = pb.MsgPreVote)
     then send (voteResp pb.MsgPreVoteResp (pb.m_From m) (Term r) true)
     else ret tt) ;;
    ret true
  else ret false.

(** [canVote] of [Step] (lines 1171-1175). *)
Definition canVote (r : raft) (m : pb.Message) : bool :=
  bool_decide (Vote r = pb.m_From m)
  || (bool_decide (Vote r = NoneID) && bool_decide (lead r = NoneID))
  || (bool_decide (pb.m_Type m = pb.MsgPreVote) && bool_decide (Term r < pb.m_Term m)).

(** The case [MsgVote, MsgPreVote] of the second switch of [Step] (lines
    1169-1219). *)
Definition stepVote (m : pb.Message) : M unit :=
  r <- get ;;
  let candLastID := {| eid_term := pb.m_LogTerm m; eid_index := pb.m_Index m |} in
  match voteRespMsgType (pb.m_Type m) with
  | None => panic "not a vote message"
  | Some resp =>
      if canVote r m && log.isUpToDate (raftLog r) candLastID
      then
        send (voteResp resp (pb.m_From m) (pb.m_Term m) false) ;;
        if bool_decide (pb.m_Type m = pb.MsgVote)
        then
          modify (set_electionElapsed 0%Z) ;;
          modify (set_Vote (pb.m_From m))
        else ret tt
      else send (voteResp resp (pb.m_From m) (Term r) true)
  end.

(** The second switch of [Step] (lines 1144-1226), on the type of the
    message.  The handlers of the storage acknowledgements are not
    embedded. *)
Definition stepType (m : pb.Message) : M (option error) :=
  match pb.m_Type m with
  | pb.MsgHup =>
      r <- get ;;
      (if preVote r then hup campaignPreElection else hup campaignElection) ;;
      ret None
  | pb.MsgStorageAppendResp => outside "Step: MsgStorageAppendResp"
  | pb.MsgStorageApplyResp => outside "Step: MsgStorageApplyResp"
  | pb.MsgVote | pb.MsgPreVote => stepVote m ;; ret None
  | _ =>
      r <- get ;;
      match step r with
      | stepFollowerFn => stepFollower m
      | stepCandidateFn => stepCandidate m
      | stepLeaderFn => stepLeader m
      end
  end.

(** [Step] (lines 1065-1228). *)
Definition Step (m : pb.Message) : M (option error) :=
  done <- stepTerm m ;;
  if done then ret None else stepType m.

End WithExternal.

(** The methods are unfolded by hand in the proofs. *)
#[global] Arguments send : simpl never.
#[global] Arguments maybeCommit : simpl never.
#[global] Arguments Intn : simpl never.
#[global] Arguments resetRandomizedElectionTimeout : simpl never.
#[global] Arguments reset : simpl never.
#[global] Arguments increaseUncommittedSize : simpl never.
#[global] Arguments appendEntry : simpl never.
#[global] Arguments becomeFollower : simpl never.
#[global] Arguments becomeCandidate : simpl never.
#[global] Arguments becomePreCandidate : simpl never.
#[global] Arguments becomeLeader : simpl never.
#[global] Arguments campaign : simpl never.
#[global] Arguments poll : simpl never.
#[global] Arguments checkMatch : simpl never.
#[global] Arguments handleAppendEntries : simpl never.
#[global] Arguments handleHeartbeat : simpl never.
#[global] Arguments hasUnappliedConfChanges : simpl never.
#[global] Arguments hup : simpl never.
#[global] Arguments maybeSendAppend : simpl never.
#[global] Arguments bcastAppend : simpl never.
#[global] Arguments bcastHeartbeat : simpl never.
#[global] Arguments proposeEntry : simpl never.
#[global] Arguments proposeEntries : simpl never.
#[global] Arguments stepLeader : simpl never.
#[global] Arguments stepCandidate : simpl never.
#[global] Arguments stepFollower : simpl never.
#[global] Arguments stepVote : simpl never.
#[global] Arguments stepTerm : simpl never.
#[global] Arguments stepType : simpl never.
#[global] Arguments stampEntries : simpl never.
#[global] Arguments payloadsSize : simpl never.

(** ** Sample replicas *)

(** A log without snapshot holding entries of the given terms. *)
Definition entriesOfTerms (ts : list N) : list pb.Entry :=
  imap (fun i t =>
    {| pb.e_Term := t; pb.e_Index := N.of_nat (S i);
       pb.e_Type := pb.EntryNormal; pb.e_Data := [] |}) ts.

Definition sampleLog (ts : list N) (committed applied acc : N) : log.raftLog :=
  {| log.snap := {| eid_term := 0; eid_index := 0 |};
     log.ents := entriesOfTerms ts;
     log.committed := committed; log.applied := applied; log.acc := acc;
     log.pendingSnapshot := false; log.maxApplyingEntsSize := 1024 |}.

Definition sampleProgress (match_ next : N) : tracker.Progress :=
  {| tracker.Match := match_; tracker.Next := next;
     tracker.State := tracker.StateProbe; tracker.PendingSnapshot := 0;
     tracker.RecentActive := true; tracker.MsgAppProbesPaused := false;
     tracker.Inflights_ := Some (tracker.NewInflights 256 MaxUint64);
     tracker.IsLearner := false; tracker.sentCommit := 0 |}.

Definition sampleConfig : quorum.Config :=
  {| quorum.Voters := ({[ 1; 2; 3 ]}, ∅); quorum.AutoLeave := false;
     quorum.Learners := ∅; quorum.LearnersNext := ∅ |}.

(** Replica 1 of a group of three, in the given role and term, over the
    given log; the peers have acknowledged the given indices. *)
Definition sampleRaft (st : StateType) (stp : stepFunc) (term vote lead : N)
    (l : log.raftLog) (m1 m2 m3 : N) : raft :=
  {| id := 1; Term := term; Vote := vote; raftLog := l;
     maxMsgSize := 1048576; maxUncommittedSize := 1024;
     config := sampleConfig;
     trk := {[ 1 := sampleProgress m1 (m1 + 1);
               2 := sampleProgress m2 (m2 + 1);
               3 := sampleProgress m3 (m3 + 1) ]};
     electionTracker := ∅; state := st; isLearner := false;
     msgs := []; msgsAfterAppend := []; lead := lead; leadEpoch := 0%Z;
     leadTransferee := 0; pendingConfIndex := 0;
     disableConfChangeValidation := false; uncommittedSize := 0;
     electionElapsed := 3%Z; heartbeatElapsed := 0%Z; maxInflight := 256%Z;
     maxInflightBytes := MaxUint64; checkQuorum := true; preVote := true;
     heartbeatTimeout := 1%Z; electionTimeout := 10%Z;
     randomizedElectionTimeout := 14%Z; disableProposalForwarding := false;
     stepDownOnRemoval := false;
     tick := match st with StateLeader => tickHeartbeat | _ => tickElection end;
     step := stp; globalRand := [7%Z; 3%Z] |}.

(** ** Facts about the log *)

Lemma term_ok_le_last (l : log.raftLog) (i t : N) :
  log.term l i = TermOk t -> i <= log.lastIndex l.
Proof.
  unfold log.term, log.lastIndex.
  case_bool_decide as Hlt; [discriminate|].
  case_bool_decide as Heq; [intros _; lia|].
  destruct (log.ents l !! _) as [e|] eqn:Hl; [|discriminate].
  intros _. apply lookup_lt_Some in Hl. lia.
Qed.

Lemma matchTerm_term (l : log.raftLog) (t i : N) :
  log.matchTerm l {| eid_term := t; eid_index := i |} = true
  <-> log.term l i = TermOk t.
Proof.
  unfold log.matchTerm. cbn.
  destruct (log.term l i) as [t'| |]; split; try discriminate.
  - intros Ht. apply bool_decide_eq_true in Ht. by subst.
  - intros [= ->]. by apply bool_decide_eq_true.
Qed.

Lemma commitTo_raise (l : log.raftLog) (t i : N) :
  t = log.accTerm l -> log.committed l < i -> i <= log.lastIndex l ->
  log.commitTo l {| mark_term := t; mark_index := i |} = log.set_committed i l.
Proof.
  intros -> Hlt Hle. unfold log.commitTo. cbn.
  rewrite N.min_l by done.
  rewrite bool_decide_eq_true_2 by done.
  by rewrite bool_decide_eq_true_2 by done.
Qed.

(** ** The commit rule *)

(** C1: for a leader, [maybeCommit] returns, and it returns [true] exactly
    when the quorum index [idx] of the tracker is above [committed] and the
    log holds an entry of the leader's term at [idx]; then [committed]
    becomes [idx] and nothing else changes; otherwise the replica is
    unchanged.  The leader's log is under its own term ([accTerm] is
    [Term]), as [becomeLeader] leaves it. *)
Theorem maybeCommit_spec (r : raft) :
  state r = StateLeader ->
  log.accTerm (raftLog r) = Term r ->
  let idx := tracker.Committed (config r) (trk r) in
  let advance :=
    log.committed (raftLog r) < idx /\ log.term (raftLog r) idx = TermOk (Term r) in
  exists b r',
    maybeCommit r = Ok b r'
    /\ (b = true <-> advance)
    /\ (advance ->
        log.committed (raftLog r') = idx
        /\ r' = set_raftLog (log.set_committed idx (raftLog r)) r)
    /\ (~ advance -> r' = r).
Proof.
  intros _ Hacc idx advance. unfold maybeCommit, bind, get, ret, modify.
  fold idx. subst advance.
  case_bool_decide as Hle.
  { exists false, r. split; [done|]. split; [|split].
    - split; [done|]. intros [? _]. lia.
    - intros [? _]. lia.
    - done. }
  destruct (log.matchTerm _ _) eqn:Hm; cbn [negb].
  - apply matchTerm_term in Hm.
    eexists true, _. split; [reflexivity|].
    assert (Hc : log.commitTo (raftLog r) {| mark_term := Term r; mark_index := idx |}
                 = log.set_committed idx (raftLog r)).
    { apply commitTo_raise; [done|lia|by eapply term_ok_le_last]. }
    rewrite Hc. split; [|split].
    + split; [intros _; split; [lia|done]|done].
    + intros _. done.
    + intros Hn. exfalso. apply Hn. split; [lia|done].
  - exists false, r. split; [done|]. split; [|split].
    + split; [done|]. intros [_ Ht]. apply matchTerm_term in Ht. congruence.
    + intros [_ Ht]. apply matchTerm_term in Ht. congruence.
    + done.
Qed.

(** ** The outbound queues *)

(** The message types that carry the term of a campaign, and those that
    wait for the next durable append (lines 491 and 517 of raft.go). *)
Definition isCampaignType (t : pb.MessageType) : Prop :=
  t = pb.MsgVote \/ t = pb.MsgVoteResp \/ t = pb.MsgPreVote \/ t = pb.MsgPreVoteResp.

Definition isAfterAppendType (t : pb.MessageType) : Prop :=
  t = pb.MsgAppResp \/ t = pb.MsgVoteResp \/ t = pb.MsgPreVoteResp.

#[global] Instance isCampaignType_dec t : Decision (isCampaignType t).
Proof. unfold isCampaignType. apply _. Defined.

#[global] Instance isAfterAppendType_dec t : Decision (isAfterAppendType t).
Proof. unfold isAfterAppendType. apply _. Defined.

(** The message that [send] puts on a queue: the sender filled in, and the
    replica's term attached unless the message is a campaign message or a
    proposal. *)
Definition outbound (r : raft) (m : pb.Message) : pb.Message :=
  let m := if bool_decide (pb.m_From m = NoneID) then pb.set_From (id r) m else m in
  if bool_decide (isCampaignType (pb.m_Type m) \/ pb.m_Type m = pb.MsgProp)
  then m else pb.set_Term (Term r) m.

(** What [send] requires of its argument: a campaign message comes with
    its term, any other message without one, and a message for [msgs] is
    not addressed to the replica itself. *)
Definition sendable (r : raft) (m : pb.Message) : Prop :=
  (isCampaignType (pb.m_Type m) -> pb.m_Term m <> 0)
  /\ (~ isCampaignType (pb.m_Type m) -> pb.m_Term m = 0)
  /\ (~ isAfterAppendType (pb.m_Type m) -> pb.m_To m <> id r).


Ltac run := unfold bind, get, gets, ret, modify, panic, outside; cbn.

(** Decide the tests between constructors. *)
Ltac decide_closed :=
  repeat match goal with
  | |- context [@bool_decide (?a = ?b) ?d] =>
      first [ rewrite (@bool_decide_eq_true_2 (a = b) d) by reflexivity
            | rewrite (@bool_decide_eq_false_2 (a = b) d) by discriminate ]
  | |- context [@bool_decide (?a <> ?b) ?d] =>
      first [ rewrite (@bool_decide_eq_true_2 (a <> b) d) by discriminate
            | rewrite (@bool_decide_eq_false_2 (a <> b) d) by (intros Hx; by apply Hx) ]
  end; cbn.

Lemma send_ok (r : raft) (m : pb.Message) :
  sendable r m ->
  send m r =
    Ok tt (if bool_decide (isAfterAppendType (pb.m_Type m))
           then set_msgsAfterAppend (msgsAfterAppend r ++ [outbound r m]) r
           else set_msgs (msgs r ++ [outbound r m]) r).
Proof.
  intros (Hc & Hn & Hto). unfold send, outbound, isCampaignType, isAfterAppendType in *.
  destruct m as [ty to from term lt ix es cm mt sn rj rh cx]. cbn in *.
  destruct ty; run; destruct (bool_decide (from = NoneID)); cbn; decide_closed;
    try (rewrite (bool_decide_eq_false_2 (term = 0)) by (apply Hc; tauto));
    try (rewrite (bool_decide_eq_false_2 (term <> 0))
           by (intros Hne; apply Hne, Hn; intros Hor; decompose [or] Hor; discriminate));
    cbn;
    try (rewrite (bool_decide_eq_false_2 (to = id r))
           by (apply Hto; intros Hor; decompose [or] Hor; discriminate));
    try reflexivity.
Qed.

Lemma send_panics (r : raft) (m : pb.Message) :
  ~ sendable r m -> exists msg, send m r = Panic msg.
Proof.
  unfold sendable, send, isCampaignType, isAfterAppendType.
  destruct m as [ty to from term lt ix es cm mt sn rj rh cx]. cbn.
  intros Hn.
  destruct ty; run; destruct (bool_decide (from = NoneID)); cbn; decide_closed;
    repeat (case_bool_decide; cbn); eauto;
    exfalso; apply Hn; repeat split; intros Hx; subst;
    try done; try (exfalso; apply Hx; tauto);
    try (decompose [or] Hx; discriminate).
Qed.

Lemma outbound_type (r : raft) (m : pb.Message) :
  pb.m_Type (outbound r m) = pb.m_Type m.
Proof. unfold outbound. repeat case_bool_decide; reflexivity. Qed.

Lemma outbound_term (r : raft) (m : pb.Message) :
  pb.m_Term (outbound r m) =
    if bool_decide (isCampaignType (pb.m_Type m) \/ pb.m_Type m = pb.MsgProp)
    then pb.m_Term m else Term r.
Proof. unfold outbound. repeat case_bool_decide; cbn in *; tauto || reflexivity. Qed.

(** ** Lease during term normalization *)

(** C4: a [MsgVote] or [MsgPreVote] of a higher term that reaches a replica
    with [checkQuorum] set, a known leader and [electionElapsed] below
    [electionTimeout], and that does not carry the [CampaignTransfer]
    context, is dropped by [Step]: it returns [nil] and the replica is the
    one it was (same term, vote, role and leader, nothing enqueued, so no
    vote is granted). *)
Theorem Step_in_lease `{External} (r : raft) (m : pb.Message) :
  pb.m_Type m = pb.MsgVote \/ pb.m_Type m = pb.MsgPreVote ->
  Term r < pb.m_Term m ->
  checkQuorum r = true ->
  lead r <> NoneID ->
  (electionElapsed r < electionTimeout r)%Z ->
  pb.m_Context m <> campaignBytes campaignTransfer ->
  Step m r = Ok None r.
Proof.
  intros Hty Hterm Hcq Hlead Hel Hctx.
  unfold Step, stepTerm, force, inLease. run.
  rewrite bool_decide_eq_false_2 by lia.
  rewrite bool_decide_eq_true_2 by done.
  rewrite Hcq.
  rewrite (bool_decide_eq_false_2 (pb.m_Context m = _)) by done.
  rewrite (bool_decide_eq_true_2 (lead r <> NoneID)) by done.
  rewrite (bool_decide_eq_true_2 (electionElapsed r < electionTimeout r)%Z) by done.
  destruct Hty as [-> | ->]; decide_closed; reflexivity.
Qed.

(** ** Disallowed transitions *)

(** C9: [becomeLeader] panics in [StateFollower], and [becomeCandidate] and
    [becomePreCandidate] panic in [StateLeader]; hence none of the three
    returns from such a state, and the transition does not happen. *)
Theorem disallowed_transitions_panic (r : raft) :
  (state r = StateFollower ->
   becomeLeader r = Panic "invalid transition [follower -> leader]")
  /\ (state r = StateLeader ->
      becomeCandidate r = Panic "invalid transition [leader -> candidate]"
      /\ becomePreCandidate r = Panic "invalid transition [leader -> pre-candidate]")
  /\ (forall r', becomeLeader r = Ok tt r' -> state r <> StateFollower)
  /\ (forall r', becomeCandidate r = Ok tt r' -> state r <> StateLeader)
  /\ (forall r', becomePreCandidate r = Ok tt r' -> state r <> StateLeader).
Proof.
  unfold becomeLeader, becomeCandidate, becomePreCandidate. run.
  repeat split.
  - intros ->. by decide_closed.
  - rewrite H. by decide_closed.
  - rewrite H. by decide_closed.
  - intros r' Hr Hs. rewrite Hs in Hr. revert Hr. by decide_closed.
  - intros r' Hr Hs. rewrite Hs in Hr. revert Hr. by decide_closed.
  - intros r' Hr Hs. rewrite Hs in Hr. revert Hr. by decide_closed.
Qed.

(** ** Granting votes *)

(** The two conditions of section 4.3.3 of the design document. *)
Definition mayVoteFor (r : raft) (m : pb.Message) : Prop :=
  Vote r = pb.m_From m
  \/ (Vote r = NoneID /\ lead r = NoneID)
  \/ (pb.m_Type m = pb.MsgPreVote /\ Term r < pb.m_Term m).

Definition candidateUpToDate (r : raft) (m : pb.Message) : Prop :=
  let ours := log.lastEntryID (raftLog r) in
  eid_term ours < pb.m_LogTerm m
  \/ (pb.m_LogTerm m = eid_term ours /\ eid_index ours <= pb.m_Index m).

Lemma canVote_iff (r : raft) (m : pb.Message) :
  canVote r m = true <-> mayVoteFor r m.
Proof.
  unfold canVote, mayVoteFor.
  rewrite !orb_true_iff, !andb_true_iff, !bool_decide_eq_true. tauto.
Qed.

Lemma isUpToDate_iff (r : raft) (m : pb.Message) :
  log.isUpToDate (raftLog r)
    {| eid_term := pb.m_LogTerm m; eid_index := pb.m_Index m |} = true
  <-> candidateUpToDate r m.
Proof.
  unfold log.isUpToDate, candidateUpToDate. cbn.
  rewrite !orb_true_iff, !andb_true_iff, !bool_decide_eq_true. tauto.
Qed.

(** The state of a replica when the second switch of [Step] sees a vote
    request: [stepTerm] has brought the replica to the term of a
    [MsgVote], and has left it at or below the term of a [MsgPreVote];
    requests carry a term; a replica that has not seen any term has an
    empty log. *)
Definition normalized (r : raft) (m : pb.Message) : Prop :=
  0 < pb.m_Term m
  /\ Term r <= pb.m_Term m
  /\ (pb.m_Type m = pb.MsgVote -> Term r = pb.m_Term m)
  /\ (Term r = 0 ->
      log.lastEntryID (raftLog r) = {| eid_term := 0; eid_index := 0 |}).

(** A vote response on its way out: the sender is filled in, the term is
    the one given. *)
Lemma outbound_voteResp (r : raft) (resp : pb.MessageType) (to term : N) (rej : bool) :
  resp = pb.MsgVoteResp \/ resp = pb.MsgPreVoteResp ->
  outbound r (voteResp resp to term rej) = pb.set_From (id r) (voteResp resp to term rej).
Proof.
  intros Hr. unfold outbound. cbn.
  rewrite bool_decide_eq_true_2; [done|].
  unfold isCampaignType. cbn. tauto.
Qed.

Lemma send_voteResp (r : raft) (resp : pb.MessageType) (to term : N) (rej : bool) :
  resp = pb.MsgVoteResp \/ resp = pb.MsgPreVoteResp ->
  term <> 0 ->
  send (voteResp resp to term rej) r =
    Ok tt (set_msgsAfterAppend
             (msgsAfterAppend r ++ [pb.set_From (id r) (voteResp resp to term rej)]) r).
Proof.
  intros Hr Ht. rewrite send_ok.
  - rewrite outbound_voteResp by done.
    rewrite bool_decide_eq_true_2; [done|].
    unfold isAfterAppendType. cbn. tauto.
  - unfold sendable, isCampaignType, isAfterAppendType. cbn.
    split; [done|]. split; intros Hx; exfalso; apply Hx; tauto.
Qed.

Lemma stepVote_ok (r : raft) (m : pb.Message) (resp : pb.MessageType) :
  (pb.m_Type m = pb.MsgVote /\ resp = pb.MsgVoteResp)
  \/ (pb.m_Type m = pb.MsgPreVote /\ resp = pb.MsgPreVoteResp) ->
  normalized r m ->
  stepVote m r =
    Ok tt
      (if canVote r m
          && log.isUpToDate (raftLog r)
               {| eid_term := pb.m_LogTerm m; eid_index := pb.m_Index m |}
       then
         let r1 := set_msgsAfterAppend
           (msgsAfterAppend r
              ++ [pb.set_From (id r) (voteResp resp (pb.m_From m) (pb.m_Term m) false)]) r in
         if bool_decide (pb.m_Type m = pb.MsgVote)
         then set_Vote (pb.m_From m) (set_electionElapsed 0%Z r1)
         else r1
       else
         set_msgsAfterAppend
           (msgsAfterAppend r
              ++ [pb.set_From (id r) (voteResp resp (pb.m_From m) (Term r) true)]) r).
Proof.
  intros Hty (Hmt & Hle & Hvote & Hfresh).
  assert (Hresp : voteRespMsgType (pb.m_Type m) = Some resp)
    by (destruct Hty as [[-> ->] | [-> ->]]; reflexivity).
  assert (Hr : resp = pb.MsgVoteResp \/ resp = pb.MsgPreVoteResp) by tauto.
  unfold stepVote. run. rewrite Hresp.
  destruct (canVote r m && log.isUpToDate _ _) eqn:Hg.
  - rewrite send_voteResp by (done || lia).
    by destruct (bool_decide (pb.m_Type m = pb.MsgVote)).
  - rewrite send_voteResp; [done|done|].
    intros H0. apply andb_false_iff in Hg as [Hc|Hu].
    + apply not_true_iff_false in Hc. apply Hc, canVote_iff.
      destruct Hty as [[Hm _] | [Hm _]].
      * specialize (Hvote Hm). lia.
      * right. right. split; [done|lia].
    + apply not_true_iff_false in Hu. apply Hu, isUpToDate_iff.
      unfold candidateUpToDate. rewrite (Hfresh H0). cbn. lia.
Qed.

(** C2: on a [MsgVote] or [MsgPreVote], after term normalization, the
    second switch of [Step] returns [nil] having appended exactly one
    response to [msgsAfterAppend], of the response type of the request,
    addressed to the candidate.  The response is a grant (no [Reject],
    term of the request) exactly when the replica may vote for the
    candidate and the candidate's log is at least as up to date as the
    replica's; otherwise it is a rejection carrying the replica's term.
    A granted [MsgVote] also sets [electionElapsed] to 0 and [Vote] to the
    candidate; in every other case both stay as they were. *)
Theorem stepType_vote `{External} (r : raft) (m : pb.Message) (resp : pb.MessageType) :
  (pb.m_Type m = pb.MsgVote /\ resp = pb.MsgVoteResp)
  \/ (pb.m_Type m = pb.MsgPreVote /\ resp = pb.MsgPreVoteResp) ->
  normalized r m ->
  let grant := mayVoteFor r m /\ candidateUpToDate r m in
  exists r' out,
    stepType m r = Ok None r'
    /\ msgsAfterAppend r' = msgsAfterAppend r ++ [out]
    /\ msgs r' = msgs r
    /\ Term r' = Term r
    /\ pb.m_Type out = resp
    /\ pb.m_To out = pb.m_From m
    /\ (pb.m_Reject out = false <-> grant)
    /\ (grant -> pb.m_Term out = pb.m_Term m)
    /\ (~ grant -> pb.m_Reject out = true /\ pb.m_Term out = Term r)
    /\ (grant /\ pb.m_Type m = pb.MsgVote ->
        electionElapsed r' = 0%Z /\ Vote r' = pb.m_From m)
    /\ (~ (grant /\ pb.m_Type m = pb.MsgVote) ->
        electionElapsed r' = electionElapsed r /\ Vote r' = Vote r).
Proof.
  intros Hty Hnorm grant.
  assert (Hst : stepType m r = bind (stepVote m) (fun _ => ret None) r)
    by (unfold stepType; destruct Hty as [[-> _] | [-> _]]; reflexivity).
  rewrite Hst. unfold bind. rewrite (stepVote_ok r m resp) by done. unfold ret.
  destruct (canVote r m && log.isUpToDate _ _) eqn:Hg.
  - apply andb_true_iff in Hg as [Hc Hu].
    apply canVote_iff in Hc. apply isUpToDate_iff in Hu.
    assert (Hgrant : grant) by done.
    eexists _, (pb.set_From (id r) (voteResp resp (pb.m_From m) (pb.m_Term m) false)).
    split; [reflexivity|].
    case_bool_decide as Hv; cbn.
    + repeat split; try done; tauto.
    + repeat split; try done; tauto.
  - assert (Hng : ~ grant).
    { intros [Hc Hu]. apply canVote_iff in Hc. apply isUpToDate_iff in Hu.
      rewrite Hc, Hu in Hg. discriminate. }
    eexists _, (pb.set_From (id r) (voteResp resp (pb.m_From m) (Term r) true)).
    split; [reflexivity|]. cbn.
    repeat split; try done; tauto.
Qed.

(** ** Campaigns that do not start *)

Lemma scanPages_concat (size : pb.Entry -> N) (pageSize : N) (es cur : list pb.Entry)
    (curSize : N) :
  concat (scanPages size pageSize cur curSize es) = reverse cur ++ es.
Proof.
  revert cur curSize. induction es as [|e es IH]; intros cur curSize; cbn.
  - destruct cur; cbn; [done|]. by rewrite !app_nil_r.
  - destruct cur as [|c cur].
    + rewrite IH. by rewrite reverse_singleton.
    + case_bool_decide.
      * rewrite IH. rewrite (reverse_cons (c :: cur)).
        by rewrite <- app_assoc.
      * cbn. rewrite IH. rewrite reverse_singleton. done.
Qed.

Lemma visitPages_confChange (ps : list (list pb.Entry)) :
  visitPages confChangeVisitor ps =
    if existsb isConfChange (concat ps) then Some tt else None.
Proof.
  induction ps as [|p ps IH]; cbn; [done|].
  rewrite existsb_app. unfold confChangeVisitor at 1.
  destruct (existsb isConfChange p); cbn; [done|]. apply IH.
Qed.

(** The entries that are committed and not yet applied. *)
Definition unapplied (l : log.raftLog) : list pb.Entry :=
  take (N.to_nat (log.committed l - log.applied l))
    (drop (N.to_nat (log.applied l - eid_index (log.snap l))) (log.ents l)).

(** The invariants of section 4.1 that the scan of the unapplied entries
    relies on; the last index fits in a [uint64] with room for one more. *)
Definition scannable (l : log.raftLog) : Prop :=
  eid_index (log.snap l) <= log.applied l
  /\ log.committed l <= log.lastIndex l
  /\ log.lastIndex l < MaxUint64.

Lemma hasUnappliedConfChanges_ok `{External} (r : raft) :
  scannable (raftLog r) ->
  hasUnappliedConfChanges r = Ok (existsb isConfChange (unapplied (raftLog r))) r.
Proof.
  intros (Hsnap & Hcom & Hlast). unfold hasUnappliedConfChanges. run.
  case_bool_decide as Hle.
  { unfold unapplied. replace (log.committed (raftLog r) - log.applied (raftLog r)) with 0 by lia.
    reflexivity. }
  unfold MaxUint64 in *.
  rewrite !u64_small by (unfold MaxUint64; lia).
  unfold scan.
  rewrite bool_decide_eq_false_2 by lia.
  rewrite bool_decide_eq_false_2 by lia.
  rewrite visitPages_confChange, scanPages_concat. cbn.
  replace (log.committed (raftLog r) + 1 - (log.applied (raftLog r) + 1))
    with (log.committed (raftLog r) - log.applied (raftLog r)) by lia.
  replace (log.applied (raftLog r) + 1 - eid_index (log.snap (raftLog r)) - 1)
    with (log.applied (raftLog r) - eid_index (log.snap (raftLog r))) by lia.
  fold (unapplied (raftLog r)).
  by destruct (existsb isConfChange (unapplied (raftLog r))).
Qed.

(** The log holds a configuration change at index [i], committed and not
    yet applied. *)
Definition unappliedConfChangeAt (l : log.raftLog) (i : N) : Prop :=
  log.applied l < i <= log.committed l
  /\ exists e, log.ents l !! N.to_nat (i - eid_index (log.snap l) - 1) = Some e
               /\ (pb.e_Type e = pb.EntryConfChange \/ pb.e_Type e = pb.EntryConfChangeV2).

Lemma unapplied_found (l : log.raftLog) (i : N) :
  eid_index (log.snap l) <= log.applied l ->
  unappliedConfChangeAt l i ->
  existsb isConfChange (unapplied l) = true.
Proof.
  intros Hsnap ([Hlo Hhi] & e & Hl & Hty).
  apply existsb_exists. exists e. split.
  - apply list_elem_of_In. unfold unapplied.
    apply list_elem_of_lookup.
    exists (N.to_nat (i - log.applied l - 1)).
    rewrite lookup_take_lt by lia.
    rewrite lookup_drop. rewrite <- Hl. f_equal. lia.
  - unfold isConfChange. apply orb_true_iff.
    rewrite !bool_decide_eq_true. done.
Qed.

(** C10: [Step] of a [MsgHup] (a local message: its term does not exceed
    the replica's) returns [nil] and leaves the replica as it was, every
    field and both queues, when the replica is not the leader and either
    is not promotable or holds a committed configuration change that it
    has not applied yet. *)
Theorem Step_hup_refused `{External} (r : raft) (m : pb.Message) :
  pb.m_Type m = pb.MsgHup ->
  pb.m_Term m <= Term r ->
  state r <> StateLeader ->
  promotable r = false
  \/ (scannable (raftLog r) /\ exists i, unappliedConfChangeAt (raftLog r) i) ->
  Step m r = Ok None r.
Proof.
  intros Hty Hterm Hst Hwhy.
  unfold Step, stepTerm. run. rewrite Hty. decide_closed.
  assert (Hhup : forall t, hup t r = Ok tt r).
  { intros t. unfold hup. run.
    rewrite bool_decide_eq_false_2 by done.
    destruct (promotable r) eqn:Hp; cbn; [|done].
    destruct Hwhy as [|[Hscan [i Hi]]]; [done|].
    rewrite hasUnappliedConfChanges_ok by done.
    by rewrite (unapplied_found _ i) by (done || apply Hscan). }
  assert (Hdisp : stepType m r = Ok None r).
  { unfold stepType. rewrite Hty. run.
    destruct (preVote r); by rewrite Hhup. }
  case_bool_decide as H0; [exact Hdisp|].
  rewrite bool_decide_eq_false_2 by lia.
  case_bool_decide as Hlt; [|exact Hdisp].
  destruct (checkQuorum r || preVote r); reflexivity.
Qed.

(** ** Becoming leader *)

#[global] Arguments outbound : simpl never.

(** *** Resetting *)

(** Two replicas with the same fields are the same. *)
Lemma raft_ext (r1 r2 : raft) :
  id r1 = id r2 ->
  Term r1 = Term r2 ->
  Vote r1 = Vote r2 ->
  raftLog r1 = raftLog r2 ->
  maxMsgSize r1 = maxMsgSize r2 ->
  maxUncommittedSize r1 = maxUncommittedSize r2 ->
  config r1 = config r2 ->
  trk r1 = trk r2 ->
  electionTracker r1 = electionTracker r2 ->
  state r1 = state r2 ->
  isLearner r1 = isLearner r2 ->
  msgs r1 = msgs r2 ->
  msgsAfterAppend r1 = msgsAfterAppend r2 ->
  lead r1 = lead r2 ->
  leadEpoch r1 = leadEpoch r2 ->
  leadTransferee r1 = leadTransferee r2 ->
  pendingConfIndex r1 = pendingConfIndex r2 ->
  disableConfChangeValidation r1 = disableConfChangeValidation r2 ->
  uncommittedSize r1 = uncommittedSize r2 ->
  electionElapsed r1 = electionElapsed r2 ->
  heartbeatElapsed r1 = heartbeatElapsed r2 ->
  maxInflight r1 = maxInflight r2 ->
  maxInflightBytes r1 = maxInflightBytes r2 ->
  checkQuorum r1 = checkQuorum r2 ->
  preVote r1 = preVote r2 ->
  heartbeatTimeout r1 = heartbeatTimeout r2 ->
  electionTimeout r1 = electionTimeout r2 ->
  randomizedElectionTimeout r1 = randomizedElectionTimeout r2 ->
  disableProposalForwarding r1 = disableProposalForwarding r2 ->
  stepDownOnRemoval r1 = stepDownOnRemoval r2 ->
  tick r1 = tick r2 ->
  step r1 = step r2 ->
  globalRand r1 = globalRand r2 ->
  r1 = r2.
Proof.
  destruct r1, r2; cbn; intros; subst; reflexivity.
Qed.

(** The number that [reset] draws for the randomized election timeout. *)
Definition drawn (r : raft) : Z :=
  match globalRand r with
  | [] => 0%Z
  | x :: _ => (x mod electionTimeout r)%Z
  end.

(** The replica that [reset term] leaves. *)
Definition afterReset (term : N) (r : raft) : raft :=
  {| id := id r; Term := term;
     Vote := if bool_decide (Term r <> term) then NoneID else Vote r;
     raftLog := raftLog r; maxMsgSize := maxMsgSize r;
     maxUncommittedSize := maxUncommittedSize r; config := config r;
     trk := map_imap (fun i pr => Some (resetProgress r i pr)) (trk r);
     electionTracker := ∅; state := state r; isLearner := isLearner r;
     msgs := msgs r; msgsAfterAppend := msgsAfterAppend r; lead := NoneID;
     leadEpoch := leadEpoch r; leadTransferee := NoneID; pendingConfIndex := 0;
     disableConfChangeValidation := disableConfChangeValidation r;
     uncommittedSize := 0; electionElapsed := 0%Z; heartbeatElapsed := 0%Z;
     maxInflight := maxInflight r; maxInflightBytes := maxInflightBytes r;
     checkQuorum := checkQuorum r; preVote := preVote r;
     heartbeatTimeout := heartbeatTimeout r; electionTimeout := electionTimeout r;
     randomizedElectionTimeout := i64 (electionTimeout r + drawn r);
     disableProposalForwarding := disableProposalForwarding r;
     stepDownOnRemoval := stepDownOnRemoval r; tick := tick r; step := step r;
     globalRand := tail (globalRand r) |}.

Lemma reset_ok (term : N) (r : raft) :
  (0 < electionTimeout r)%Z ->
  reset term r = Ok tt (afterReset term r).
Proof.
  intros Het. unfold reset, resetRandomizedElectionTimeout, Intn,
    abortLeaderTransfer.
  run.
  destruct (bool_decide (Term r <> term)) eqn:Hterm; cbn;
    rewrite (bool_decide_eq_false_2 (electionTimeout r <= 0)%Z) by lia; cbn;
    destruct (globalRand r) as [|x g] eqn:Hg; cbn; rewrite ?Hg; cbn;
    f_equal; apply raft_ext; cbn; unfold drawn, resetProgress; cbn;
    rewrite ?Hg, ?Hterm; try reflexivity.
  all: apply bool_decide_eq_false in Hterm; by apply dec_stable in Hterm.
Qed.

(** *** Appending to the leader's log *)

Lemma lastEntryID_index (l : log.raftLog) :
  eid_index (log.lastEntryID l) = log.lastIndex l.
Proof.
  unfold log.lastEntryID, log.lastIndex.
  destruct (log.ents l) as [|e es] eqn:He using rev_ind; cbn.
  - lia.
  - by rewrite last_snoc.
Qed.

Lemma payloads_imap (f : nat -> pb.Entry -> pb.Entry) (es : list pb.Entry) :
  (forall i e, pb.e_Data (f i e) = pb.e_Data e) ->
  foldr (fun e acc => payloadSize e + acc) 0 (imap f es)
  = foldr (fun e acc => payloadSize e + acc) 0 es.
Proof.
  revert f. induction es as [|e es IH]; intros f Hf; cbn; [done|].
  unfold payloadSize at 1. rewrite Hf. fold (payloadSize e).
  f_equal. apply IH. intros i x. apply Hf.
Qed.

Lemma payloadsSize_stamp (term lastIdx : N) (es : list pb.Entry) :
  payloadsSize (stampEntries term lastIdx es) = payloadsSize es.
Proof.
  unfold payloadsSize, stampEntries. f_equal. by apply payloads_imap.
Qed.

(** Within the range of [uint64] the stamped indices are the consecutive
    ones. *)
Lemma stampEntries_plain (term lastIdx : N) (es : list pb.Entry) :
  lastIdx + N.of_nat (length es) <= MaxUint64 ->
  stampEntries term lastIdx es =
    imap (fun i e =>
      {| pb.e_Term := term; pb.e_Index := lastIdx + 1 + N.of_nat i;
         pb.e_Type := pb.e_Type e; pb.e_Data := pb.e_Data e |}) es.
Proof.
  intros Hr. unfold stampEntries. apply imap_ext. intros i e Hl. cbn.
  apply lookup_lt_Some in Hl.
  rewrite (u64_small (lastIdx + 1)) by lia.
  rewrite (u64_small (N.of_nat i)) by lia.
  rewrite u64_small by lia. done.
Qed.

Lemma stampEntries_length (term lastIdx : N) (es : list pb.Entry) :
  length (stampEntries term lastIdx es) = length es.
Proof. unfold stampEntries. apply length_imap. Qed.

Lemma valid_from_plain (term : N) (es : list pb.Entry) (prevT prevI : N) :
  prevT <= term ->
  log.valid_from {| eid_term := prevT; eid_index := prevI |}
    (imap (fun i e =>
       {| pb.e_Term := term; pb.e_Index := prevI + 1 + N.of_nat i;
          pb.e_Type := pb.e_Type e; pb.e_Data := pb.e_Data e |}) es) term = true.
Proof.
  revert prevT prevI. induction es as [|e es IH]; intros prevT prevI Hle; cbn.
  - by apply bool_decide_eq_true.
  - rewrite !andb_true_iff, !bool_decide_eq_true. split; [split; [cbn; lia|done]|].
    change (N.of_nat 0) with 0. rewrite N.add_0_r.
    erewrite imap_ext; [apply (IH term (prevI + 1)); lia|].
    intros i x _. cbn. f_equal. lia.
Qed.

Lemma slice_lastIndex_stamp (term lastIdx : N) (prev : entryID) (es : list pb.Entry) :
  eid_index prev = lastIdx ->
  lastIdx + N.of_nat (length es) <= MaxUint64 ->
  log.slice_lastIndex
    {| ls_term := term; ls_prev := prev; ls_entries := stampEntries term lastIdx es |}
  = lastIdx + N.of_nat (length es).
Proof.
  intros Hp Hr. unfold log.slice_lastIndex. cbn.
  rewrite stampEntries_plain by done.
  rewrite last_lookup, length_imap, list_lookup_imap.
  destruct es as [|e es] using rev_ind; cbn; [lia|].
  rewrite length_app. cbn.
  replace (Init.Nat.pred (length es + 1)) with (length es) by lia.
  rewrite lookup_app_r, Nat.sub_diag by lia. cbn. lia.
Qed.

(** The replica that [appendEntry es] leaves when it accepts the entries;
    [pr] is the progress of the replica itself. *)
Definition afterAppendEntry (es : list pb.Entry) (pr : tracker.Progress) (r : raft) : raft :=
  let es' := stampEntries (Term r) (log.lastIndex (raftLog r)) es in
  let l' := log.set_ents (log.ents (raftLog r) ++ es') (Term r) (raftLog r) in
  set_msgsAfterAppend
    (msgsAfterAppend r ++ [outbound r (appResp (id r) (log.lastIndex l') false 0 0)])
    (set_trk
       (<[id r := tracker.set_Next (u64 (log.lastIndex l' + 1)) pr]> (trk r))
       (set_raftLog l'
          (set_uncommittedSize (u64 (uncommittedSize r + payloadsSize es)) r))).

(** The test of [increaseUncommittedSize]. *)
Definition overQuota (r : raft) (es : list pb.Entry) : bool :=
  bool_decide (0 < uncommittedSize r) && bool_decide (0 < payloadsSize es)
  && bool_decide (maxUncommittedSize r < u64 (uncommittedSize r + payloadsSize es)).

Lemma appendEntry_dropped (es : list pb.Entry) (r : raft) :
  overQuota r es = true -> appendEntry es r = Ok false r.
Proof.
  intros Hq. unfold appendEntry, increaseUncommittedSize. run.
  rewrite payloadsSize_stamp. unfold overQuota in Hq. rewrite Hq. reflexivity.
Qed.

Lemma appendEntry_accepted (es : list pb.Entry) (pr : tracker.Progress) (r : raft) :
  overQuota r es = false ->
  trk r !! id r = Some pr ->
  log.accTerm (raftLog r) <= Term r ->
  eid_term (log.lastEntryID (raftLog r)) <= Term r ->
  log.lastIndex (raftLog r) + N.of_nat (length es) <= MaxUint64 ->
  appendEntry es r = Ok true (afterAppendEntry es pr r).
Proof.
  intros Hq Hpr Hacc Hlastt Hrange.
  unfold appendEntry, increaseUncommittedSize. run.
  rewrite payloadsSize_stamp. unfold overQuota in Hq. rewrite Hq. cbn.
  rewrite lastEntryID_index.
  assert (Hvalid : log.valid_from (log.lastEntryID (raftLog r))
            (stampEntries (Term r) (log.lastIndex (raftLog r)) es) (Term r) = true).
  { rewrite stampEntries_plain by done.
    rewrite <- lastEntryID_index.
    destruct (log.lastEntryID (raftLog r)) as [pt pi] eqn:Hl. cbn.
    apply valid_from_plain. by cbn in Hlastt. }
  rewrite Hvalid. cbn.
  unfold log.append. cbn.
  unfold log.accTerm in *.
  rewrite (bool_decide_eq_false_2 (Term r < log.acc (raftLog r))) by lia.
  rewrite (bool_decide_eq_true_2 (log.lastEntryID (raftLog r) = log.lastEntryID (raftLog r))) by done.
  cbn.
  rewrite Hpr.
  rewrite slice_lastIndex_stamp by (done || apply lastEntryID_index).
  rewrite send_ok; cycle 1.
  { unfold sendable, isCampaignType, isAfterAppendType. cbn.
    repeat split; try done; intros Hx; exfalso;
      try (decompose [or] Hx; discriminate); apply Hx; tauto. }
  cbn. unfold afterAppendEntry. cbn.
  assert (Hlast' : log.lastIndex
            (log.set_ents (log.ents (raftLog r)
               ++ stampEntries (Term r) (log.lastIndex (raftLog r)) es) (Term r) (raftLog r))
          = log.lastIndex (raftLog r) + N.of_nat (length es)).
  { unfold log.lastIndex. cbn. rewrite length_app, stampEntries_length. lia. }
  rewrite Hlast'. reflexivity.
Qed.

(** *** Becoming leader *)

(** The progress of the new leader itself, as [reset] and [becomeLeader]
    set it. *)
Definition leaderProgress (r : raft) (pr : tracker.Progress) : tracker.Progress :=
  tracker.set_RecentActive true (tracker.BecomeReplicate (resetProgress r (id r) pr)).

(** The replica just before [becomeLeader] appends its empty entry. *)
Definition beforeEmptyEntry (pr : tracker.Progress) (r : raft) : raft :=
  let r2 := set_state StateLeader
              (set_lead (id r)
                 (set_tick tickHeartbeat
                    (afterReset (Term r) (set_step stepLeaderFn r)))) in
  set_pendingConfIndex (log.lastIndex (raftLog r))
    (set_trk (<[id r := leaderProgress r pr]> (trk r2)) r2).

(** What [becomeLeader] needs in order not to panic: the replica is not a
    follower, tracks itself, its timeout is positive, its term is not
    behind its log, and the log has room for one more entry. *)
Definition mayLead (r : raft) : Prop :=
  state r <> StateFollower
  /\ (0 < electionTimeout r)%Z
  /\ is_Some (trk r !! id r)
  /\ log.accTerm (raftLog r) <= Term r
  /\ eid_term (log.lastEntryID (raftLog r)) <= Term r
  /\ log.lastIndex (raftLog r) < MaxUint64.

Lemma becomeLeader_ok (r : raft) (pr : tracker.Progress) :
  mayLead r ->
  trk r !! id r = Some pr ->
  becomeLeader r = Ok tt (afterAppendEntry [pb.Entry0] (leaderProgress r pr) (beforeEmptyEntry pr r)).
Proof.
  intros (Hst & Het & _ & Hacc & Hlt & Hlast) Hpr.
  unfold becomeLeader. run.
  rewrite bool_decide_eq_false_2 by done.
  rewrite reset_ok by done. cbn.
  assert (Hlk : map_imap (fun i p => Some (resetProgress r i p)) (trk r) !! id r
                = Some (resetProgress r (id r) pr)).
  { rewrite map_lookup_imap, Hpr. reflexivity. }
  change (resetProgress (set_step stepLeaderFn r)) with (resetProgress r).
  rewrite Hlk. cbn.
  rewrite (appendEntry_accepted _ (leaderProgress r pr)).
  - reflexivity.
  - unfold overQuota. cbn. by rewrite (bool_decide_eq_false_2 (0 < 0)) by lia.
  - cbn. apply lookup_insert_eq.
  - done.
  - done.
  - cbn. unfold MaxUint64 in *. lia.
Qed.


(** ** Proposals *)

(** *** The quota on uncommitted entries *)

Lemma overQuota_iff (r : raft) (es : list pb.Entry) :
  uncommittedSize r + payloadsSize es <= MaxUint64 ->
  overQuota r es = true
  <-> 0 < uncommittedSize r /\ 0 < payloadsSize es
      /\ maxUncommittedSize r < uncommittedSize r + payloadsSize es.
Proof.
  intros Hr. unfold overQuota. rewrite u64_small by done.
  rewrite !andb_true_iff, !bool_decide_eq_true. tauto.
Qed.

(** The loop over the proposed entries only ever writes
    [pendingConfIndex]. *)
Lemma proposeEntry_frame `{External} (i : nat) (e e' : pb.Entry) (r r1 : raft) :
  proposeEntry i e r = Ok e' r1 ->
  r1 = set_pendingConfIndex (pendingConfIndex r1) r.
Proof.
  unfold proposeEntry, decodeConfChange. run.
  repeat case_bool_decide; cbn;
    repeat match goal with
    | |- context [match ?x with Some _ => _ | None => _ end] => destruct x; cbn
    | |- context [if ?b then _ else _] => destruct b; cbn
    end;
    intros [= <- <-]; reflexivity.
Qed.

Lemma proposeEntries_cons `{External} (i : nat) (e : pb.Entry) (es : list pb.Entry) :
  proposeEntries i (e :: es) =
    bind (proposeEntry i e) (fun e' =>
      bind (proposeEntries (S i) es) (fun es'' => ret (e' :: es''))).
Proof. reflexivity. Qed.

Lemma proposeEntries_frame `{External} (es es' : list pb.Entry) (i : nat) (r r1 : raft) :
  proposeEntries i es r = Ok es' r1 ->
  r1 = set_pendingConfIndex (pendingConfIndex r1) r /\ length es' = length es.
Proof.
  revert es' i r r1. induction es as [|e es IH]; intros es' i r r1.
  - intros [= <- <-]. done.
  - rewrite proposeEntries_cons. unfold bind at 1.
    destruct (proposeEntry i e r) as [e1 r2| |] eqn:He; try discriminate.
    unfold bind at 1.
    destruct (proposeEntries (S i) es r2) as [es2 r3| |] eqn:Hes; try discriminate.
    unfold ret. intros [= <- <-].
    apply proposeEntry_frame in He. apply IH in Hes as [Hes Hlen].
    split; [|cbn; by rewrite Hlen].
    rewrite Hes. rewrite He. reflexivity.
Qed.

(** What [appendEntry] needs in order not to panic on [n] entries: the
    leader tracks itself, its term is not behind its log, and the log has
    room for the entries. *)
Definition mayAppend (r : raft) (n : nat) : Prop :=
  is_Some (trk r !! id r)
  /\ log.accTerm (raftLog r) <= Term r
  /\ eid_term (log.lastEntryID (raftLog r)) <= Term r
  /\ log.lastIndex (raftLog r) + N.of_nat n <= MaxUint64.

Lemma stepTerm_local (m : pb.Message) (r : raft) :
  pb.m_Term m = 0 -> stepTerm m r = Ok false r.
Proof. intros Hm. unfold stepTerm. run. by rewrite bool_decide_eq_true_2. Qed.

Lemma Step_prop_dropped `{External} (m : pb.Message) (r0 r : raft) (es : list pb.Entry) :
  step r0 = stepLeaderFn ->
  pb.m_Type m = pb.MsgProp ->
  pb.m_Term m = 0 ->
  pb.m_Entries m <> [] ->
  is_Some (trk r0 !! id r0) ->
  leadTransferee r0 = NoneID ->
  proposeEntries O (pb.m_Entries m) r0 = Ok es r ->
  overQuota r es = true ->
  Step m r0 = Ok (Some ErrProposalDropped) r
  /\ raftLog r = raftLog r0 /\ uncommittedSize r = uncommittedSize r0.
Proof.
  intros Hstep Hty Hterm Hne [pr Hpr] Hlt Hprop Hover.
  split.
  - unfold Step, bind. rewrite stepTerm_local by done.
    unfold stepType. rewrite Hty. run. rewrite Hstep.
    unfold stepLeader. rewrite Hty. run.
    rewrite bool_decide_eq_false_2 by (by destruct (pb.m_Entries m)).
    rewrite bool_decide_eq_false_2 by (by rewrite Hpr).
    rewrite bool_decide_eq_false_2 by (intros Hx; by apply Hx).
    rewrite Hprop.
    by rewrite appendEntry_dropped.
  - apply proposeEntries_frame in Hprop as [-> _]. done.
Qed.

(** C6: on a leader that may append, [appendEntry] returns; it returns
    [false], leaving the replica as it was, exactly when the uncommitted
    size is positive, the payload of the new entries is positive and the
    two together exceed [maxUncommittedSize]; otherwise the stamped
    entries are appended to the log and [uncommittedSize] grows by exactly
    the payload.  When the entries are those that [stepLeader] hands over
    for a [MsgProp] and they are over the quota, [Step] returns
    [ErrProposalDropped] with the log and [uncommittedSize] of the replica
    untouched. *)
Theorem appendEntry_quota `{External} (r : raft) (es : list pb.Entry) :
  mayAppend r (length es) ->
  uncommittedSize r + payloadsSize es <= MaxUint64 ->
  let s := payloadsSize es in
  let over :=
    0 < uncommittedSize r /\ 0 < s
    /\ maxUncommittedSize r < uncommittedSize r + s in
  exists b r',
    appendEntry es r = Ok b r'
    /\ (b = false <-> over)
    /\ (over -> r' = r)
    /\ (~ over ->
        log.ents (raftLog r') =
          log.ents (raftLog r) ++ stampEntries (Term r) (log.lastIndex (raftLog r)) es
        /\ uncommittedSize r' = uncommittedSize r + s)
    /\ (over -> forall m r0,
          step r0 = stepLeaderFn ->
          pb.m_Type m = pb.MsgProp ->
          pb.m_Term m = 0 ->
          pb.m_Entries m <> [] ->
          is_Some (trk r0 !! id r0) ->
          leadTransferee r0 = NoneID ->
          proposeEntries O (pb.m_Entries m) r0 = Ok es r ->
          Step m r0 = Ok (Some ErrProposalDropped) r
          /\ raftLog r = raftLog r0 /\ uncommittedSize r = uncommittedSize r0).
Proof.
  intros ([pr Hpr] & Hacc & Hlt & Hroom) Hrange s over.
  pose proof (overQuota_iff r es Hrange) as Hiff. fold s in Hiff. fold over in Hiff.
  destruct (overQuota r es) eqn:Hq.
  - assert (Hover : over) by (by apply Hiff).
    exists false, r. split; [by apply appendEntry_dropped|].
    split; [done|]. split; [done|]. split; [done|].
    intros _ m r0 ? ? ? ? ? ? ?. by apply (Step_prop_dropped m r0 r es).
  - assert (Hnover : ~ over) by (intros Hx; apply Hiff in Hx; discriminate).
    eexists true, _. split; [by apply (appendEntry_accepted es pr)|].
    split; [split; [discriminate|done]|].
    split; [done|]. split; [|done].
    intros _. unfold afterAppendEntry. cbn. split; [done|].
    by apply u64_small.
Qed.

(** *** Validation of configuration changes *)

(** The entry [e] is a configuration change that decodes to [cc]. *)
Definition decodesTo `{External} (e : pb.Entry) (cc : pb.ConfChangeI) : Prop :=
  (pb.e_Type e = pb.EntryConfChange
   /\ exists c, unmarshalConfChange (pb.e_Data e) = Some c /\ cc = pb.V1 c)
  \/ (pb.e_Type e = pb.EntryConfChangeV2
      /\ exists c, unmarshalConfChangeV2 (pb.e_Data e) = Some c /\ cc = pb.V2 c).

Lemma decodeConfChange_ok `{External} (e : pb.Entry) (cc : pb.ConfChangeI) (r : raft) :
  decodesTo e cc -> decodeConfChange e r = Ok (Some cc) r.
Proof.
  unfold decodeConfChange.
  intros [[Hty (c & Hc & ->)] | [Hty (c & Hc & ->)]]; rewrite Hty; run;
    decide_closed; by rewrite Hc.
Qed.

Lemma failedCheck_empty (alreadyPending alreadyJoint wantsLeaveJoint : bool) :
  String.eqb (failedCheck alreadyPending alreadyJoint wantsLeaveJoint) "" =
    negb (alreadyPending
          || (alreadyJoint && negb wantsLeaveJoint)
          || (negb alreadyJoint && wantsLeaveJoint)).
Proof. by destruct alreadyPending, alreadyJoint, wantsLeaveJoint. Qed.

Lemma u64_nested (a b : N) : u64 (u64 (a + u64 b) + 1) = u64 (a + b + 1).
Proof.
  unfold u64.
  rewrite (N.Div0.add_mod_idemp_r a b).
  rewrite (N.Div0.add_mod_idemp_l (a + b) 1). done.
Qed.

(** C5: a proposed entry at position [i] of the batch that is a
    configuration change is replaced by the empty normal entry (which
    takes its place in the batch) exactly when a change may already be
    pending ([pendingConfIndex > applied]) or validation is on and the
    change does not fit the configuration (joint and not a request to
    leave, or not joint and a request to leave); then the replica is
    unchanged.  Otherwise the entry stays and [pendingConfIndex] becomes
    [lastIndex + i + 1].  The loop does not change the length of the
    batch. *)
Theorem proposeEntry_confChange `{External} (i : nat) (e : pb.Entry)
    (cc : pb.ConfChangeI) (r : raft) :
  decodesTo e cc ->
  log.lastIndex (raftLog r) + N.of_nat i + 1 <= MaxUint64 ->
  let alreadyPending := log.applied (raftLog r) < pendingConfIndex r in
  let alreadyJoint := (quorum.Voters (config r)).2 <> ∅ in
  let wantsLeaveJoint := pb.cc2_Changes (pb.AsV2 cc) = [] in
  let refused :=
    alreadyPending
    \/ (disableConfChangeValidation r = false
        /\ ((alreadyJoint /\ ~ wantsLeaveJoint)
            \/ (~ alreadyJoint /\ wantsLeaveJoint))) in
  exists e' r',
    proposeEntry i e r = Ok e' r'
    /\ (e' = pb.Entry0 <-> refused)
    /\ (refused -> r' = r)
    /\ (~ refused ->
        e' = e
        /\ r' = set_pendingConfIndex (log.lastIndex (raftLog r) + N.of_nat i + 1) r)
    /\ (forall es es' j r1 r2,
          proposeEntries j es r1 = Ok es' r2 -> length es' = length es).
Proof.
  intros Hdec Hrange alreadyPending alreadyJoint wantsLeaveJoint refused.
  assert (Hne : e <> pb.Entry0).
  { intros ->. destruct Hdec as [[Hty _] | [Hty _]]; discriminate. }
  unfold proposeEntry, bind. rewrite (decodeConfChange_ok e cc r Hdec). run.
  rewrite failedCheck_empty, negb_involutive.
  rewrite u64_nested, (u64_small _ Hrange).
  assert (Hj : bool_decide (0 < size (quorum.Voters (config r)).2)%nat = true <-> alreadyJoint).
  { rewrite bool_decide_eq_true. unfold alreadyJoint. split.
    - intros Hs Hx. rewrite Hx, size_empty in Hs. lia.
    - intros Hx. destruct (decide (size (quorum.Voters (config r)).2 = O)) as [H0|]; [|lia].
      apply size_empty_iff, leibniz_equiv in H0. done. }
  assert (Hw : bool_decide (length (pb.cc2_Changes (pb.AsV2 cc)) = O) = true <-> wantsLeaveJoint).
  { rewrite bool_decide_eq_true. unfold wantsLeaveJoint. apply length_zero_iff_nil. }
  assert (Hp : bool_decide (log.applied (raftLog r) < pendingConfIndex r) = true <-> alreadyPending).
  { by rewrite bool_decide_eq_true. }
  set (bp := bool_decide (log.applied (raftLog r) < pendingConfIndex r)) in *.
  set (bj := bool_decide (0 < size (quorum.Voters (config r)).2)%nat) in *.
  set (bw := bool_decide (length (pb.cc2_Changes (pb.AsV2 cc)) = O)) in *.
  assert (Hd : disableConfChangeValidation r = false
               <-> negb (disableConfChangeValidation r) = true)
    by (by destruct (disableConfChangeValidation r)).
  assert (Hb : bp || (bp || bj && negb bw || negb bj && bw)
                      && negb (disableConfChangeValidation r) = true <-> refused).
  { unfold refused. rewrite Hd, <- Hp, <- Hj, <- Hw.
    destruct bp, bj, bw, (disableConfChangeValidation r); cbn; intuition congruence. }
  destruct (bp || _) eqn:Eb.
  - assert (Hr : refused) by (by apply Hb).
    exists pb.Entry0, r.
    split; [reflexivity|]. split; [tauto|]. split; [done|]. split; [tauto|].
    intros; by eapply proposeEntries_frame.
  - assert (Hr : ~ refused) by (intros Hx; apply Hb in Hx; discriminate).
    eexists e, _. split; [reflexivity|].
    split; [split; [intros He; by subst|tauto]|].
    split; [tauto|]. split; [done|].
    intros; by eapply proposeEntries_frame.
Qed.

(** ** Appends on a follower *)

#[global] Arguments log.maybeAppend : simpl never.
#[global] Arguments log.commitTo : simpl never.
#[global] Arguments log.findConflictByTerm : simpl never.
#[global] Arguments log.valid : simpl never.
#[global] Arguments log.slice_lastIndex : simpl never.

Lemma valid_from_lastIndex (es : list pb.Entry) (prev : entryID) (t : N) :
  log.valid_from prev es t = true ->
  log.slice_lastIndex {| ls_term := t; ls_prev := prev; ls_entries := es |}
  = eid_index prev + N.of_nat (length es).
Proof.
  unfold log.slice_lastIndex. cbn.
  revert prev. induction es as [|e es IH]; intros prev; cbn.
  - intros _. lia.
  - rewrite !andb_true_iff, !bool_decide_eq_true. intros [[Hi _] Hv].
    specialize (IH _ Hv). cbn in IH.
    rewrite last_cons. destruct (last es); lia.
Qed.

Lemma term_ok_ge_snap (l : log.raftLog) (i t : N) :
  log.term l i = TermOk t -> eid_index (log.snap l) <= i.
Proof.
  unfold log.term. case_bool_decide; [discriminate|]. intros _. lia.
Qed.

Lemma matching_prefix_bound (l : log.raftLog) (es : list pb.Entry) (i : N) :
  (log.matching_prefix l i es <= length es)%nat
  /\ ((0 < log.matching_prefix l i es)%nat ->
      i + N.of_nat (log.matching_prefix l i es) <= log.lastIndex l + 1).
Proof.
  revert i. induction es as [|e es IH]; intros i; cbn; [split; lia|].
  destruct (log.matchTerm l _) eqn:Hm; [|split; lia].
  apply matchTerm_term, term_ok_le_last in Hm.
  destruct (IH (i + 1)) as [Hle Hlast]. split; [lia|].
  intros _. destruct (log.matching_prefix l (i + 1) es); lia.
Qed.

Lemma maybeAppend_fail (l l' : log.raftLog) (a : logSlice) :
  log.maybeAppend l a = (l', false) -> l' = l.
Proof.
  unfold log.maybeAppend. destruct (negb _); [by intros [= ->]|].
  destruct (drop _ _); discriminate.
Qed.

Lemma maybeAppend_ok (l l' : log.raftLog) (a : logSlice) :
  log.maybeAppend l a = (l', true) ->
  log.valid a = true ->
  log.accTerm l' = ls_term a
  /\ log.committed l' = log.committed l
  /\ log.slice_lastIndex a <= log.lastIndex l'.
Proof.
  unfold log.maybeAppend, log.valid. destruct a as [t prev es]. cbn.
  destruct (log.matchTerm l prev) eqn:Hm; cbn; [|discriminate].
  intros Hl Hv. rewrite (valid_from_lastIndex es prev t Hv).
  destruct prev as [pt pi]. cbn in *.
  apply matchTerm_term in Hm.
  pose proof (term_ok_le_last _ _ _ Hm) as Hle.
  pose proof (term_ok_ge_snap _ _ _ Hm) as Hge.
  destruct (matching_prefix_bound l es (pi + 1)) as [Hk Hklast].
  unfold log.lastIndex in *.
  destruct (drop _ es) as [|e0 tl] eqn:Hdrop.
  - injection Hl as <-. cbn. split; [done|]. split; [done|].
    apply (f_equal length) in Hdrop. rewrite length_drop in Hdrop. cbn in Hdrop.
    destruct (log.matching_prefix l (pi + 1) es); lia.
  - injection Hl as <-. cbn. split; [done|]. split; [done|].
    apply (f_equal length) in Hdrop. rewrite length_drop in Hdrop. cbn in Hdrop.
    rewrite length_app, length_take. cbn.
    destruct (log.matching_prefix l (pi + 1) es); lia.
Qed.

Lemma commitTo_max (l : log.raftLog) (t i : N) :
  t = log.accTerm l -> i <= log.lastIndex l ->
  log.commitTo l {| mark_term := t; mark_index := i |}
  = log.set_committed (N.max (log.committed l) i) l.
Proof.
  intros -> Hle. unfold log.commitTo. cbn.
  rewrite N.min_l by done.
  rewrite bool_decide_eq_true_2 by done. cbn.
  case_bool_decide.
  - by rewrite N.max_r by lia.
  - by rewrite N.max_l by lia.
Qed.

Lemma send_appResp (r : raft) (to index : N) (reject : bool) (hint logTerm : N) :
  send (appResp to index reject hint logTerm) r =
    Ok tt (set_msgsAfterAppend
             (msgsAfterAppend r
                ++ [pb.set_Term (Term r) (pb.set_From (id r)
                      (appResp to index reject hint logTerm))]) r).
Proof.
  rewrite send_ok.
  - reflexivity.
  - unfold sendable, isCampaignType, isAfterAppendType. cbn.
    repeat split; try done; intros Hx; exfalso;
      try (decompose [or] Hx; discriminate); apply Hx; tauto.
Qed.

(** C3: a follower that steps a valid [MsgApp] of its own term notes the
    leader, restarts its election timer and answers with one [MsgAppResp]
    in [msgsAfterAppend].  If the append starts below [committed] the
    answer carries [committed] and the log is untouched.  Otherwise, if
    [maybeAppend] takes the slice, [committed] is raised to
    [min(m.Commit, last index of the slice)] (it never goes down) and the
    answer carries that last index; if [maybeAppend] refuses, the log is
    untouched and the answer is a rejection of [m.Index] with the hint
    [findConflictByTerm(min(m.Index, lastIndex), m.LogTerm)]. *)
Theorem Step_append `{External} (r : raft) (m : pb.Message) :
  state r = StateFollower ->
  step r = stepFollowerFn ->
  pb.m_Type m = pb.MsgApp ->
  pb.m_Term m = Term r ->
  Term r <> 0 ->
  log.valid (logSliceFromMsgApp m) = true ->
  pb.m_Match m <= log.lastIndex (raftLog r) ->
  let a := logSliceFromMsgApp m in
  let l := raftLog r in
  let answer (resp : pb.Message) (l' : log.raftLog) : raft :=
    set_msgsAfterAppend
      (msgsAfterAppend r ++ [pb.set_Term (Term r) (pb.set_From (id r) resp)])
      (set_raftLog l' (set_lead (pb.m_From m) (set_electionElapsed 0%Z r))) in
  (pb.m_Index m < log.committed l ->
   Step m r = Ok None (answer (appResp (pb.m_From m) (log.committed l) false 0 0) l))
  /\ (log.committed l <= pb.m_Index m ->
      forall l', log.maybeAppend l a = (l', true) ->
      let last := log.slice_lastIndex a in
      Step m r =
        Ok None
          (answer (appResp (pb.m_From m) last false 0 0)
             (log.set_committed
                (N.max (log.committed l) (N.min (pb.m_Commit m) last)) l')))
  /\ (log.committed l <= pb.m_Index m ->
      forall l', log.maybeAppend l a = (l', false) ->
      let hint :=
        log.findConflictByTerm l
          (N.min (pb.m_Index m) (log.lastIndex l)) (pb.m_LogTerm m) in
      Step m r =
        Ok None (answer (appResp (pb.m_From m) (pb.m_Index m) true hint.1 hint.2) l)).
Proof.
  intros _ Hstep Hty Hterm Hnz Hvalid Hmatch a l answer. subst a l.
  assert (Hpre :
    Step m r = bind (handleAppendEntries m) (fun _ => ret None)
                 (set_lead (pb.m_From m) (set_electionElapsed 0%Z r))).
  { unfold Step, bind at 1. unfold stepTerm. run.
    rewrite bool_decide_eq_false_2 by lia.
    rewrite bool_decide_eq_false_2 by lia.
    rewrite bool_decide_eq_false_2 by lia.
    unfold stepType. rewrite Hty. run. rewrite Hstep.
    unfold stepFollower. run. rewrite Hty. reflexivity. }
  rewrite Hpre. clear Hpre.
  unfold handleAppendEntries, checkMatch. run.
  rewrite bool_decide_eq_false_2 by lia.
  rewrite Hvalid. cbn.
  split; [|split].
  - intros Hlt. rewrite bool_decide_eq_true_2 by done.
    rewrite send_appResp. reflexivity.
  - intros Hge l' Hl. rewrite bool_decide_eq_false_2 by lia.
    rewrite Hl. cbn.
    destruct (maybeAppend_ok _ l' _ Hl Hvalid) as (Hacc & Hcom & Hlast).
    rewrite commitTo_max; [|by rewrite Hacc|lia].
    rewrite send_appResp. cbn. rewrite Hcom. reflexivity.
  - intros Hge l' Hl. rewrite bool_decide_eq_false_2 by lia.
    rewrite Hl. cbn.
    destruct (log.findConflictByTerm _ _ _) as [hi ht] eqn:Hh. cbn.
    rewrite send_appResp. reflexivity.
Qed.

(** ** The queues over a whole step *)

#[global] Instance sendable_dec (r : raft) (m : pb.Message) : Decision (sendable r m).
Proof. unfold sendable. apply _. Defined.

(** A message fit for [msgs] of replica [i], and one fit for
    [msgsAfterAppend]. *)
Definition fitForMsgs (i : PeerID) (m : pb.Message) : Prop :=
  ~ isAfterAppendType (pb.m_Type m)
  /\ pb.m_To m <> i
  /\ (pb.m_Type m = pb.MsgProp -> pb.m_Term m = 0)
  /\ (isCampaignType (pb.m_Type m) -> pb.m_Term m <> 0).

Definition fitForAfterAppend (m : pb.Message) : Prop :=
  isAfterAppendType (pb.m_Type m)
  /\ (isCampaignType (pb.m_Type m) -> pb.m_Term m <> 0).

(** [r'] comes from [r] by enqueuing messages, each on the queue of its
    type; the identity of the replica is the same. *)
Definition extends (r r' : raft) : Prop :=
  id r' = id r
  /\ exists out held,
       msgs r' = msgs r ++ out
       /\ msgsAfterAppend r' = msgsAfterAppend r ++ held
       /\ Forall (fitForMsgs (id r)) out
       /\ Forall fitForAfterAppend held.

(** A computation that, when it returns, has only enqueued that way. *)
Definition enqueues {A} (c : M A) : Prop :=
  forall r a r', c r = Ok a r' -> extends r r'.

Lemma extends_refl (r : raft) : extends r r.
Proof. split; [done|]. exists [], []. by rewrite !app_nil_r. Qed.

Lemma extends_trans (r1 r2 r3 : raft) :
  extends r1 r2 -> extends r2 r3 -> extends r1 r3.
Proof.
  intros (Hi & o1 & h1 & Hm1 & Ha1 & Ho1 & Hh1) (Hi' & o2 & h2 & Hm2 & Ha2 & Ho2 & Hh2).
  split; [congruence|]. exists (o1 ++ o2), (h1 ++ h2).
  rewrite Hm2, Hm1, Ha2, Ha1, !app_assoc. rewrite Hi in Ho2.
  split; [done|]. split; [done|]. split; by apply Forall_app.
Qed.

Lemma enqueues_ret {A} (a : A) : enqueues (ret a).
Proof. intros r x r' [= <- <-]. apply extends_refl. Qed.

Lemma enqueues_get : enqueues get.
Proof. intros r x r' [= <- <-]. apply extends_refl. Qed.

Lemma enqueues_panic {A} (msg : string) : enqueues (@panic A msg).
Proof. intros r x r'. discriminate. Qed.

Lemma enqueues_outside {A} (what : string) : enqueues (@outside A what).
Proof. intros r x r'. discriminate. Qed.

Lemma enqueues_bind {A B} (c : M A) (k : A -> M B) :
  enqueues c -> (forall a, enqueues (k a)) -> enqueues (bind c k).
Proof.
  intros Hc Hk r b r'. unfold bind.
  destruct (c r) as [a r1| |] eqn:Hcr; try discriminate.
  intros Hkr. eapply extends_trans; [by eapply Hc|by eapply Hk].
Qed.

(** An assignment to a field other than the queues and [id]. *)
Lemma enqueues_modify (f : raft -> raft) :
  (forall r, id (f r) = id r /\ msgs (f r) = msgs r
             /\ msgsAfterAppend (f r) = msgsAfterAppend r) ->
  enqueues (modify f).
Proof.
  intros Hf r x r' [= <- <-]. destruct (Hf r) as (Hi & Hm & Ha).
  split; [done|]. exists [], []. by rewrite !app_nil_r.
Qed.

Lemma enqueues_send (m : pb.Message) : enqueues (send m).
Proof.
  intros r u r'. destruct (decide (sendable r m)) as [Hs|Hs].
  - rewrite send_ok by done. intros [= <- <-].
    destruct Hs as (Hc & Hn & Hto).
    assert (Hterm : isCampaignType (pb.m_Type (outbound r m)) ->
                    pb.m_Term (outbound r m) <> 0).
    { rewrite outbound_type, outbound_term. intros Hx.
      rewrite bool_decide_eq_true_2 by tauto. by apply Hc. }
    case_bool_decide as Ht; (split; [done|]).
    + exists [], [outbound r m]. rewrite app_nil_r.
      split; [done|]. split; [done|]. split; [done|].
      apply Forall_singleton. split; [by rewrite outbound_type|done].
    + exists [outbound r m], []. rewrite app_nil_r.
      split; [done|]. split; [done|]. split; [|done].
      apply Forall_singleton. split; [by rewrite outbound_type|].
      split; [|split; [|done]].
      * unfold outbound. repeat case_bool_decide; cbn; by apply Hto.
      * rewrite outbound_type, outbound_term. intros Hp.
        rewrite bool_decide_eq_true_2 by tauto.
        apply Hn. rewrite Hp. unfold isCampaignType. intros Hor.
        decompose [or] Hor; discriminate.
  - destruct (send_panics r m Hs) as [msg ->]. discriminate.
Qed.

Lemma enqueues_forEach {A} (l : list A) (f : A -> M unit) :
  (forall x, enqueues (f x)) -> enqueues (forEach l f).
Proof.
  intros Hf. induction l as [|x l IH]; cbn.
  - apply enqueues_ret.
  - apply enqueues_bind; [apply Hf|intros _; apply IH].
Qed.

Create HintDb enqueue discriminated.

#[global] Hint Resolve enqueues_ret enqueues_get enqueues_panic enqueues_outside
  enqueues_send : enqueue.

(** One step through the body of a method. *)
Ltac enqueue_step :=
  first
    [ solve [auto with enqueue]
    | apply enqueues_bind; [|intros ?]
    | apply enqueues_forEach; intros ?
    | apply enqueues_modify; intros ?;
      repeat (match goal with |- context [if ?b then _ else _] => destruct b end);
      repeat split; reflexivity
    | match goal with
      | |- enqueues (if ?b then _ else _) => destruct b
      | |- enqueues (match ?x with _ => _ end) => destruct x
      end ].

Ltac enqueue := repeat enqueue_step.

Lemma enqueues_reset (term : N) : enqueues (reset term).
Proof.
  unfold reset, resetRandomizedElectionTimeout, Intn, abortLeaderTransfer.
  enqueue.
Qed.

#[global] Hint Resolve enqueues_reset : enqueue.

Lemma enqueues_becomeFollower (term : N) (ld : PeerID) : enqueues (becomeFollower term ld).
Proof. unfold becomeFollower. enqueue. Qed.

Lemma enqueues_becomeCandidate : enqueues becomeCandidate.
Proof. unfold becomeCandidate. enqueue. Qed.

Lemma enqueues_becomePreCandidate : enqueues becomePreCandidate.
Proof. unfold becomePreCandidate. enqueue. Qed.

Lemma enqueues_appendEntry (es : list pb.Entry) : enqueues (appendEntry es).
Proof. unfold appendEntry, increaseUncommittedSize. enqueue. Qed.

#[global] Hint Resolve enqueues_becomeFollower enqueues_becomeCandidate
  enqueues_becomePreCandidate enqueues_appendEntry : enqueue.

Lemma enqueues_becomeLeader : enqueues becomeLeader.
Proof. unfold becomeLeader. enqueue. Qed.

Lemma enqueues_campaign (t : CampaignType) : enqueues (campaign t).
Proof. unfold campaign, campaignSend. enqueue. Qed.

Lemma enqueues_handleAppendEntries (m : pb.Message) : enqueues (handleAppendEntries m).
Proof. unfold handleAppendEntries, checkMatch. enqueue. Qed.

Lemma enqueues_handleHeartbeat (m : pb.Message) : enqueues (handleHeartbeat m).
Proof. unfold handleHeartbeat, checkMatch. enqueue. Qed.

Lemma enqueues_maybeCommit : enqueues maybeCommit.
Proof. unfold maybeCommit. enqueue. Qed.

#[global] Hint Resolve enqueues_becomeLeader enqueues_campaign
  enqueues_handleAppendEntries enqueues_handleHeartbeat enqueues_maybeCommit : enqueue.

Section EnqueuesWithExternal.

Context `{External}.

Lemma enqueues_hup (t : CampaignType) : enqueues (hup t).
Proof. unfold hup, hasUnappliedConfChanges. enqueue. Qed.

Lemma enqueues_bcastAppend : enqueues bcastAppend.
Proof.
  unfold bcastAppend, maybeSendAppend, maybeSendSnapshot, sendAppend. enqueue.
Qed.

Lemma enqueues_bcastHeartbeat : enqueues bcastHeartbeat.
Proof. unfold bcastHeartbeat, sendHeartbeat. enqueue. Qed.

Lemma enqueues_proposeEntries (es : list pb.Entry) (i : nat) :
  enqueues (proposeEntries i es).
Proof.
  revert i. induction es as [|e es IH]; intros i.
  - apply enqueues_ret.
  - rewrite proposeEntries_cons.
    apply enqueues_bind; [unfold proposeEntry, decodeConfChange; enqueue|].
    intros e'. apply enqueues_bind; [apply IH|]. intros es'. apply enqueues_ret.
Qed.

#[local] Hint Resolve enqueues_hup enqueues_bcastAppend enqueues_bcastHeartbeat
  enqueues_proposeEntries : enqueue.

Lemma enqueues_stepLeader (m : pb.Message) : enqueues (stepLeader m).
Proof. unfold stepLeader. enqueue. Qed.

Lemma enqueues_stepCandidate (m : pb.Message) : enqueues (stepCandidate m).
Proof. unfold stepCandidate, poll. enqueue. Qed.

Lemma enqueues_stepFollower (m : pb.Message) : enqueues (stepFollower m).
Proof. unfold stepFollower. enqueue. Qed.

#[local] Hint Resolve enqueues_stepLeader enqueues_stepCandidate enqueues_stepFollower : enqueue.

Lemma enqueues_Step (m : pb.Message) : enqueues (Step m).
Proof.
  unfold Step, stepTerm, stepType, stepVote. enqueue.
Qed.

End EnqueuesWithExternal.

(** C7: [send] puts a message of type [MsgAppResp], [MsgVoteResp] or
    [MsgPreVoteResp] at the end of [msgsAfterAppend] and a message of any
    other type at the end of [msgs], and leaves the other queue alone.  The
    message keeps its type; a [MsgProp] is enqueued without a term, a
    campaign message ([MsgVote], [MsgPreVote] and their responses) with the
    term it was given, which is not zero, and every other message with the
    replica's current term.  A message that [send] does not accept (a
    campaign message without a term, another message with one, a message
    for [msgs] addressed to the replica itself) makes it panic, and nothing
    is enqueued.  Over a whole [Step], whatever the input: when [Step]
    returns, each queue is the queue it had followed by the messages
    enqueued, the responses of the three types on [msgsAfterAppend], the
    others, none of them addressed to the replica itself, on [msgs]. *)
Theorem outbound_queues `{External} :
  (forall (r : raft) (m : pb.Message),
    (sendable r m ->
     exists r',
       send m r = Ok tt r'
       /\ (isAfterAppendType (pb.m_Type m) ->
           msgsAfterAppend r' = msgsAfterAppend r ++ [outbound r m]
           /\ msgs r' = msgs r)
       /\ (~ isAfterAppendType (pb.m_Type m) ->
           msgs r' = msgs r ++ [outbound r m]
           /\ msgsAfterAppend r' = msgsAfterAppend r)
       /\ pb.m_Type (outbound r m) = pb.m_Type m
       /\ (pb.m_Type m = pb.MsgProp -> pb.m_Term (outbound r m) = 0)
       /\ (isCampaignType (pb.m_Type m) ->
           pb.m_Term (outbound r m) = pb.m_Term m /\ pb.m_Term m <> 0)
       /\ (~ isCampaignType (pb.m_Type m) -> pb.m_Type m <> pb.MsgProp ->
           pb.m_Term (outbound r m) = Term r))
    /\ (~ sendable r m -> exists msg, send m r = Panic msg))
  /\ (forall (m : pb.Message) (r r' : raft) (e : option error),
        Step m r = Ok e r' -> extends r r').
Proof.
  split; [|intros m r r' e; apply (enqueues_Step m r e r')].
  intros r m.
  split; [|apply send_panics].
  intros Hs. eexists. split; [by apply send_ok|].
  pose proof Hs as (Hc & Hn & _).
  rewrite outbound_type, outbound_term.
  repeat split.
  - by rewrite bool_decide_eq_true_2.
  - by rewrite bool_decide_eq_true_2.
  - by rewrite bool_decide_eq_false_2.
  - by rewrite bool_decide_eq_false_2.
  - intros Hp. rewrite bool_decide_eq_true_2 by tauto.
    apply Hn. rewrite Hp. unfold isCampaignType. intros Hor.
    decompose [or] Hor; discriminate.
  - by rewrite bool_decide_eq_true_2 by tauto.
  - by apply Hc.
  - intros Hnc Hnp. by rewrite bool_decide_eq_false_2 by tauto.
Qed.

(** ** Further properties *)

(** *** Term normalization in front of a vote request *)

(** A message of the replica's own term goes straight to the second
    switch. *)
Lemma Step_same_term `{External} (m : pb.Message) (r : raft) :
  pb.m_Term m = Term r -> Step m r = stepType m r.
Proof.
  intros Hm. unfold Step, bind, stepTerm. run.
  case_bool_decide; [done|].
  rewrite bool_decide_eq_false_2 by lia.
  by rewrite bool_decide_eq_false_2 by lia.
Qed.

(** A pre-vote request of a later term leaves the term alone. *)
Lemma Step_prevote_later `{External} (m : pb.Message) (r : raft) :
  pb.m_Type m = pb.MsgPreVote ->
  Term r < pb.m_Term m ->
  force m || negb (inLease r) = true ->
  Step m r = stepType m r.
Proof.
  intros Hty Hlt Hfree. unfold Step, bind, stepTerm. run.
  rewrite bool_decide_eq_false_2 by lia.
  rewrite bool_decide_eq_true_2 by done.
  rewrite Hty. decide_closed.
  destruct (force m), (inLease r); try discriminate; reflexivity.
Qed.


(** The replica that [becomeFollower term lead] leaves. *)
Definition afterBecomeFollower (term : N) (ld : PeerID) (r : raft) : raft :=
  set_state StateFollower
    (set_lead ld (set_tick tickElection (afterReset term (set_step stepFollowerFn r)))).

Lemma becomeFollower_ok (term : N) (ld : PeerID) (r : raft) :
  (0 < electionTimeout r)%Z ->
  becomeFollower term ld r = Ok tt (afterBecomeFollower term ld r).
Proof.
  intros Het. unfold becomeFollower. run. by rewrite reset_ok.
Qed.


(** *** What [send] leaves alone *)

Lemma send_frame (m : pb.Message) (r r' : raft) (u : unit) :
  send m r = Ok u r' ->
  r' = set_msgsAfterAppend (msgsAfterAppend r') (set_msgs (msgs r') r).
Proof.
  destruct (decide (sendable r m)) as [Hs|Hs].
  - rewrite send_ok by done. intros [= <- <-]. case_bool_decide; reflexivity.
  - destruct (send_panics r m Hs) as [msg ->]. discriminate.
Qed.

(** *** The leader's log is under the leader's term *)

(** [becomeLeader] leaves the accepted term of the log at the leader's
    term, and the new entry is the last one. *)
Theorem becomeLeader_accTerm (r r' : raft) :
  mayLead r ->
  becomeLeader r = Ok tt r' ->
  state r' = StateLeader
  /\ log.accTerm (raftLog r') = Term r'
  /\ log.lastEntryID (raftLog r')
     = {| eid_term := Term r'; eid_index := log.lastIndex (raftLog r) + 1 |}.
Proof.
  intros Hm Hrun. pose proof Hm as (_ & _ & [pr Hpr] & _ & _ & Hlast).
  rewrite (becomeLeader_ok r pr Hm Hpr) in Hrun. injection Hrun as <-.
  unfold afterAppendEntry, beforeEmptyEntry. cbn.
  split; [done|]. split; [done|].
  rewrite stampEntries_plain by (cbn; unfold MaxUint64 in *; lia).
  unfold log.lastEntryID, log.lastIndex. cbn.
  rewrite last_snoc, length_app. cbn. f_equal. lia.
Qed.

(** [appendEntry] keeps it there, whether it takes the entries or not. *)
Theorem appendEntry_accTerm (es : list pb.Entry) (b : bool) (r r' : raft) :
  log.accTerm (raftLog r) = Term r ->
  appendEntry es r = Ok b r' ->
  log.accTerm (raftLog r') = Term r' /\ Term r' = Term r /\ state r' = state r.
Proof.
  intros Hacc. unfold appendEntry, increaseUncommittedSize. run.
  destruct (_ && _); cbn; [by intros [= <- <-]|].
  destruct (log.valid _); cbn; [|discriminate].
  unfold log.append. cbn.
  case_bool_decide; cbn; [discriminate|].
  case_bool_decide; cbn; [|discriminate].
  destruct (trk r !! id r); [|discriminate].
  destruct (send _ _) as [u r1| |] eqn:Hs; try discriminate.
  intros [= <- <-]. apply send_frame in Hs. by rewrite Hs.
Qed.

(** *** The commit index does not go down *)

Lemma commitTo_mono (l : log.raftLog) (mark : logMark) :
  log.committed l <= log.committed (log.commitTo l mark).
Proof. unfold log.commitTo. destruct (_ && _) eqn:Hb; cbn; [|lia].
  apply andb_true_iff in Hb as [_ Hb]. apply bool_decide_eq_true in Hb. lia.
Qed.

(** [maybeCommit] never lowers [committed], keeps it within the log, and
    touches nothing but the log. *)
Theorem maybeCommit_monotone (r r' : raft) (b : bool) :
  maybeCommit r = Ok b r' ->
  log.committed (raftLog r) <= log.committed (raftLog r')
  /\ (log.committed (raftLog r) <= log.lastIndex (raftLog r) ->
      log.committed (raftLog r') <= log.lastIndex (raftLog r'))
  /\ log.ents (raftLog r') = log.ents (raftLog r)
  /\ r' = set_raftLog (raftLog r') r.
Proof.
  unfold maybeCommit. run.
  case_bool_decide; [by intros [= <- <-]|].
  destruct (log.matchTerm _ _); cbn; [|by intros [= <- <-]].
  intros [= <- <-]. cbn.
  split; [apply commitTo_mono|].
  unfold log.commitTo. destruct (_ && _) eqn:Hb; cbn; [|done].
  split; [|done]. intros _. unfold log.lastIndex. cbn.
  apply N.le_min_r.
Qed.

(** *** Winning the election *)

(** The response that completes a quorum of grants makes a candidate
    leader, which then sends its first appends; a pre-candidate starts the
    real election instead. *)
Theorem stepCandidate_won `{External} (m : pb.Message) (r : raft) :
  let r1 := set_electionTracker
              (tracker.RecordVote (electionTracker r) (pb.m_From m) (negb (pb.m_Reject m))) r in
  (tracker.TallyVotes (config r1) (trk r1) (electionTracker r1)).2 = quorum.VoteWon ->
  (state r = StateCandidate -> pb.m_Type m = pb.MsgVoteResp ->
   stepCandidate m r
   = bind (bind becomeLeader (fun _ => bcastAppend)) (fun _ => ret None) r1)
  /\ (state r = StatePreCandidate -> pb.m_Type m = pb.MsgPreVoteResp ->
      stepCandidate m r
      = bind (campaign campaignElection) (fun _ => ret None) r1).
Proof.
  intros r1 Hwon. subst r1. unfold tracker.TallyVotes in Hwon. cbn in Hwon.
  unfold stepCandidate, poll.
  split; intros Hst Hty; run; rewrite Hst, Hty; decide_closed; cbn;
    rewrite Hwon; cbn; rewrite Hst; decide_closed; reflexivity.
Qed.

(** ** Worked examples *)

(** The logs of scenario S3: a leader at term 5 and a follower with a
    divergent tail. *)
Definition leaderLog : log.raftLog := sampleLog [1; 3; 3; 3; 5; 5; 5; 5; 5] 1 1 5.
Definition followerLog : log.raftLog := sampleLog [1; 1; 1; 1; 2; 2] 1 1 2.

(** The leader of term 5; peers 1 and 2 hold the whole log. *)
Definition sampleLeader : raft :=
  sampleRaft StateLeader stepLeaderFn 5 1 1 leaderLog 9 9 0.

(** A follower of term 5 that has heard of leader 2 and has not voted. *)
Definition sampleFollower : raft :=
  sampleRaft StateFollower stepFollowerFn 5 0 2 followerLog 0 0 0.

(** A follower of term 5 that knows of no leader and has not voted. *)
Definition sampleVoter : raft :=
  sampleRaft StateFollower stepFollowerFn 5 0 0 followerLog 0 0 0.

(** A candidate of term 5 over the leader's log. *)
Definition sampleCandidate : raft :=
  sampleRaft StateCandidate stepCandidateFn 5 1 0 leaderLog 0 0 0.

Definition voteRequest (t : pb.MessageType) (from term logTerm index : N) : pb.Message :=
  {| pb.m_Type := t; pb.m_To := 1; pb.m_From := from; pb.m_Term := term;
     pb.m_LogTerm := logTerm; pb.m_Index := index; pb.m_Entries := [];
     pb.m_Commit := 0; pb.m_Match := 0; pb.m_Snapshot := None;
     pb.m_Reject := false; pb.m_RejectHint := 0; pb.m_Context := [] |}.

(** The leader commits index 9: a quorum holds it and it is of term 5. *)
Lemma maybeCommit_spec_witness :
  exists r', maybeCommit sampleLeader = Ok true r' /\ log.committed (raftLog r') = 9.
Proof.
  destruct (maybeCommit_spec sampleLeader eq_refl eq_refl)
    as (b & r' & Hrun & Hb & Hadv & _).
  assert (Hgo : log.committed (raftLog sampleLeader) < tracker.Committed (config sampleLeader) (trk sampleLeader)
                /\ log.term (raftLog sampleLeader) (tracker.Committed (config sampleLeader) (trk sampleLeader))
                   = TermOk (Term sampleLeader))
    by (split; vm_compute; reflexivity).
  exists r'. apply Hb in Hgo as Hbt. subst b. split; [exact Hrun|].
  destruct (Hadv Hgo) as [Hc _]. rewrite Hc. vm_compute. reflexivity.
Defined.

(** A vote request of term 6 reaches the follower while its leader's lease
    runs: it is dropped. *)
Lemma Step_in_lease_witness :
  @Step sampleExternal (voteRequest pb.MsgVote 3 6 5 9) sampleFollower
  = Ok None sampleFollower.
Proof.
  apply (@Step_in_lease sampleExternal).
  - left. reflexivity.
  - vm_compute. reflexivity.
  - reflexivity.
  - vm_compute. discriminate.
  - vm_compute. reflexivity.
  - vm_compute. discriminate.
Defined.

(** The voter grants its vote to a candidate whose log ends at (5, 9). *)
Lemma stepType_vote_witness :
  exists r' out,
    @stepType sampleExternal (voteRequest pb.MsgVote 2 5 5 9) sampleVoter = Ok None r'
    /\ msgsAfterAppend r' = [out]
    /\ pb.m_Type out = pb.MsgVoteResp
    /\ pb.m_Reject out = false
    /\ pb.m_Term out = 5
    /\ Vote r' = 2
    /\ electionElapsed r' = 0%Z.
Proof.
  destruct (@stepType_vote sampleExternal sampleVoter (voteRequest pb.MsgVote 2 5 5 9)
              pb.MsgVoteResp)
    as (r' & out & Hrun & Hq & _ & _ & Hty & _ & Hrej & Hterm & _ & Hvote & _).
  - left. split; reflexivity.
  - split; [vm_compute; reflexivity|]. split; [vm_compute; discriminate|].
    split; [reflexivity|]. vm_compute. discriminate.
  - assert (Hgrant : mayVoteFor sampleVoter (voteRequest pb.MsgVote 2 5 5 9)
                     /\ candidateUpToDate sampleVoter (voteRequest pb.MsgVote 2 5 5 9)).
    { split.
      - right. left. split; reflexivity.
      - left. vm_compute. reflexivity. }
    exists r', out. split; [exact Hrun|]. split; [exact Hq|]. split; [exact Hty|].
    split; [by apply Hrej|]. split; [by apply Hterm|].
    destruct Hvote as [He Hv]; [by split|]. by split.
Defined.

(** The append of scenario S3 that is anchored at (1, 1): the follower
    replaces its tail and commits up to index 3. *)
Definition sampleAppend : pb.Message :=
  {| pb.m_Type := pb.MsgApp; pb.m_To := 1; pb.m_From := 2; pb.m_Term := 5;
     pb.m_LogTerm := 1; pb.m_Index := 1;
     pb.m_Entries := stampEntries 3 1 [pb.Entry0; pb.Entry0];
     pb.m_Commit := 3; pb.m_Match := 0; pb.m_Snapshot := None;
     pb.m_Reject := false; pb.m_RejectHint := 0; pb.m_Context := [] |}.

Lemma Step_append_witness :
  exists r',
    @Step sampleExternal sampleAppend sampleFollower = Ok None r'
    /\ log.committed (raftLog r') = 3
    /\ log.ents (raftLog r') = entriesOfTerms [1; 3; 3]
    /\ msgsAfterAppend r' =
         [pb.set_Term 5 (pb.set_From 1 (appResp 2 3 false 0 0))].
Proof.
  destruct (@Step_append sampleExternal sampleFollower sampleAppend)
    as (_ & Hok & _); try reflexivity.
  - vm_compute. discriminate.
  - vm_compute. discriminate.
  - eexists. split.
    + apply (Hok ltac:(vm_compute; discriminate)
               (log.maybeAppend (raftLog sampleFollower) (logSliceFromMsgApp sampleAppend)).1).
      vm_compute. reflexivity.
    + vm_compute. repeat split; reflexivity.
Defined.

(** A configuration change with one single change, proposed first in its
    batch to the leader: it is accepted. *)
Definition sampleConfChange : pb.Entry :=
  {| pb.e_Term := 0; pb.e_Index := 0; pb.e_Type := pb.EntryConfChangeV2;
     pb.e_Data := [Byte.x01] |}.

Lemma proposeEntry_confChange_witness :
  @proposeEntry sampleExternal 0 sampleConfChange sampleLeader
  = Ok sampleConfChange (set_pendingConfIndex 10 sampleLeader).
Proof.
  destruct (@proposeEntry_confChange sampleExternal 0 sampleConfChange
              (pb.V2 {| pb.cc2_Transition := 0;
                        pb.cc2_Changes := [ {| pb.ccs_Type := 0; pb.ccs_NodeID := 0 |} ];
                        pb.cc2_Context := [] |}) sampleLeader)
    as (e' & r' & Hrun & _ & _ & Hacc & _).
  - right. split; [reflexivity|]. eexists. split; reflexivity.
  - vm_compute. intros Hx. discriminate Hx.
  - rewrite Hrun. destruct Hacc as [-> ->]; [|reflexivity].
    intros [Hp | (_ & [[Hj _] | [_ Hw]])].
    + vm_compute in Hp. discriminate Hp.
    + apply Hj. reflexivity.
    + discriminate Hw.
Defined.

(** Scenario S6: with 800 of 1024 bytes uncommitted, a proposal of 400
    bytes is dropped, by [appendEntry] and by [Step]. *)
Definition loadedLeader : raft := set_uncommittedSize 800 sampleLeader.

Definition payload400 : list pb.Entry :=
  [ {| pb.e_Term := 0; pb.e_Index := 0; pb.e_Type := pb.EntryNormal;
       pb.e_Data := replicate 400 Byte.x00 |} ].

Definition proposal400 : pb.Message :=
  {| pb.m_Type := pb.MsgProp; pb.m_To := 1; pb.m_From := 1; pb.m_Term := 0;
     pb.m_LogTerm := 0; pb.m_Index := 0; pb.m_Entries := payload400;
     pb.m_Commit := 0; pb.m_Match := 0; pb.m_Snapshot := None;
     pb.m_Reject := false; pb.m_RejectHint := 0; pb.m_Context := [] |}.

Lemma appendEntry_quota_witness :
  appendEntry payload400 loadedLeader = Ok false loadedLeader
  /\ @Step sampleExternal proposal400 loadedLeader
     = Ok (Some ErrProposalDropped) loadedLeader.
Proof.
  destruct (@appendEntry_quota sampleExternal loadedLeader payload400)
    as (b & r' & Hrun & Hb & Hsame & _ & Hstep).
  - split; [eexists; vm_compute; reflexivity|].
    repeat split; vm_compute; intros Hx; discriminate Hx.
  - vm_compute. intros Hx. discriminate Hx.
  - assert (Hover : 0 < uncommittedSize loadedLeader /\ 0 < payloadsSize payload400
                    /\ maxUncommittedSize loadedLeader
                       < uncommittedSize loadedLeader + payloadsSize payload400)
      by (repeat split; vm_compute; reflexivity).
    split.
    + rewrite Hrun. rewrite (Hsame Hover). f_equal. by apply Hb.
    + apply (Hstep Hover proposal400 loadedLeader); try reflexivity.
      * discriminate.
      * eexists. vm_compute. reflexivity.
Defined.


(** A follower that has committed a configuration change at index 2 and
    applied only index 1 does not campaign. *)
Definition confChangeLog : log.raftLog :=
  {| log.snap := {| eid_term := 0; eid_index := 0 |};
     log.ents :=
       [ {| pb.e_Term := 1; pb.e_Index := 1; pb.e_Type := pb.EntryNormal; pb.e_Data := [] |};
         {| pb.e_Term := 2; pb.e_Index := 2; pb.e_Type := pb.EntryConfChangeV2;
            pb.e_Data := [Byte.x01] |};
         {| pb.e_Term := 2; pb.e_Index := 3; pb.e_Type := pb.EntryNormal; pb.e_Data := [] |} ];
     log.committed := 3; log.applied := 1; log.acc := 2;
     log.pendingSnapshot := false; log.maxApplyingEntsSize := 1024 |}.

Definition reconfiguring : raft :=
  sampleRaft StateFollower stepFollowerFn 2 0 0 confChangeLog 0 0 0.

Lemma Step_hup_refused_witness :
  @Step sampleExternal (pb.Message0 pb.MsgHup) reconfiguring = Ok None reconfiguring.
Proof.
  apply (@Step_hup_refused sampleExternal).
  - reflexivity.
  - vm_compute. intros Hx. discriminate Hx.
  - discriminate.
  - right. split.
    + repeat split; vm_compute; (reflexivity || (intros Hx; discriminate Hx)).
    + exists 2. split; [split; vm_compute; (reflexivity || (intros Hx; discriminate Hx))|].
      eexists. split; [vm_compute; reflexivity|]. right. reflexivity.
Defined.

(** The queues at work: an append goes to [msgs] with the leader's term,
    its acknowledgement waits in [msgsAfterAppend], and a forwarded
    proposal leaves without a term. *)
Example send_queues_example :
  (exists r', send (pb.set_To 2 (pb.Message0 pb.MsgApp)) sampleLeader = Ok tt r'
     /\ msgs r' = [pb.set_Term 5 (pb.set_From 1 (pb.set_To 2 (pb.Message0 pb.MsgApp)))]
     /\ msgsAfterAppend r' = [])
  /\ (exists r', send (appResp 2 9 false 0 0) sampleFollower = Ok tt r'
        /\ msgs r' = []
        /\ msgsAfterAppend r' = [pb.set_Term 5 (pb.set_From 1 (appResp 2 9 false 0 0))])
  /\ (exists r', @Step sampleExternal (pb.Message0 pb.MsgProp) sampleFollower = Ok None r'
        /\ msgs r' = [pb.set_From 1 (pb.set_To 2 (pb.Message0 pb.MsgProp))]
        /\ msgsAfterAppend r' = []).
Proof. repeat split; eexists; vm_compute; repeat split; reflexivity. Qed.

(** The forbidden transitions on the samples. *)
Example disallowed_transitions_example :
  becomeLeader sampleFollower = Panic "invalid transition [follower -> leader]"
  /\ becomeCandidate sampleLeader = Panic "invalid transition [leader -> candidate]"
  /\ becomePreCandidate sampleLeader
     = Panic "invalid transition [leader -> pre-candidate]".
Proof. repeat split; vm_compute; reflexivity. Qed.


(** The candidate of term 5 becomes a leader whose log is under term 5 and
    ends with the entry (5, 10). *)
Lemma becomeLeader_accTerm_witness :
  exists r',
    becomeLeader sampleCandidate = Ok tt r'
    /\ state r' = StateLeader
    /\ log.accTerm (raftLog r') = Term r'
    /\ log.lastEntryID (raftLog r')
       = {| eid_term := Term r'; eid_index := log.lastIndex (raftLog sampleCandidate) + 1 |}.
Proof.
  eexists. split; [vm_compute; reflexivity|].
  apply (becomeLeader_accTerm sampleCandidate).
  - split; [discriminate|]. split; [reflexivity|].
    split; [eexists; vm_compute; reflexivity|].
    repeat split; vm_compute; (reflexivity || (intros Hx; discriminate Hx)).
  - vm_compute. reflexivity.
Defined.

(** The leader of term 5 takes a proposal of 400 bytes: its log stays under
    term 5. *)
Lemma appendEntry_accTerm_witness :
  exists r',
    appendEntry payload400 sampleLeader = Ok true r'
    /\ log.accTerm (raftLog r') = Term r'
    /\ Term r' = Term sampleLeader
    /\ state r' = state sampleLeader.
Proof.
  eexists. split; [vm_compute; reflexivity|].
  apply (appendEntry_accTerm payload400 true sampleLeader).
  - reflexivity.
  - vm_compute. reflexivity.
Defined.

(** The leader commits index 9 and leaves its entries as they are. *)
Lemma maybeCommit_monotone_witness :
  exists r',
    maybeCommit sampleLeader = Ok true r'
    /\ log.committed (raftLog sampleLeader) <= log.committed (raftLog r')
    /\ (log.committed (raftLog sampleLeader) <= log.lastIndex (raftLog sampleLeader) ->
        log.committed (raftLog r') <= log.lastIndex (raftLog r'))
    /\ log.ents (raftLog r') = log.ents (raftLog sampleLeader)
    /\ r' = set_raftLog (raftLog r') sampleLeader.
Proof.
  eexists. split; [vm_compute; reflexivity|].
  apply (maybeCommit_monotone sampleLeader _ true).
  vm_compute. reflexivity.
Defined.

(** A candidate that holds its own vote receives the grant of peer 2: with
    two votes of three it becomes leader and sends its appends. *)
Definition votedCandidate : raft := set_electionTracker {[ 1 := true ]} sampleCandidate.

Lemma stepCandidate_won_witness :
  @stepCandidate sampleExternal (voteRequest pb.MsgVoteResp 2 5 0 0) votedCandidate
  = bind (bind becomeLeader (fun _ => @bcastAppend sampleExternal)) (fun _ => ret None)
      (set_electionTracker {[ 1 := true; 2 := true ]} sampleCandidate).
Proof.
  destruct (@stepCandidate_won sampleExternal (voteRequest pb.MsgVoteResp 2 5 0 0)
              votedCandidate) as [Hc _].
  - vm_compute. reflexivity.
  - rewrite Hc by reflexivity. f_equal.
Defined.

(** A whole step on the samples: the follower's answer to the append of
    scenario S3 is the one message added to its queues. *)
Example Step_queues_example :
  exists r',
    @Step sampleExternal sampleAppend sampleFollower = Ok None r'
    /\ msgs r' = msgs sampleFollower
    /\ msgsAfterAppend r'
       = msgsAfterAppend sampleFollower
         ++ [pb.set_Term 5 (pb.set_From 1 (appResp 2 3 false 0 0))].
Proof. eexists. vm_compute. repeat split; reflexivity. Qed.

(** * More of raft.go *)

(** ** The configuration and its validation (lines 74, 115-314) *)

Definition noLimit : N := MaxUint64.

(** Modelled from the spec: [IsLocalMsgTarget] (util.go, absent): the
    identifier is one of the "two reserved sentinel ids [LocalAppend],
    [LocalApply]" (section 3). *)
Definition IsLocalMsgTarget (i : PeerID) : bool :=
  bool_decide (i = LocalAppendThread) || bool_decide (i = LocalApplyThread).

Section Configuration.

(** [Storage], [Logger] and [StoreLiveness] are interfaces of other files;
    [validate] tests the first two against nil and replaces a nil logger
    by the one of [getLogger]. *)
Context {StorageT LoggerT StoreLivenessT : Type} (getLogger : LoggerT).

(** The struct [Config] (lines 116-268). *)
Record Config := mkRaftConfig {
  ID : PeerID;
  ElectionTick : Z;
  HeartbeatTick : Z;
  Storage : option StorageT;
  Applied : N;
  AsyncStorageWrites : bool;
  MaxSizePerMsg : N;
  MaxCommittedSizePerReady : N;
  MaxUncommittedEntriesSize : N;
  MaxInflightMsgs : Z;
  MaxInflightBytes : N;
  CheckQuorum : bool;
  PreVote : bool;
  Logger : option LoggerT;
  DisableProposalForwarding : bool;
  DisableConfChangeValidation : bool;
  StepDownOnRemoval : bool;
  StoreLiveness : option StoreLivenessT;
}.

(** Assignments to the fields that [validate] writes. *)
Definition set_MaxCommittedSizePerReady (v : N) (c : Config) : Config :=
  {| ID := ID c; ElectionTick := ElectionTick c; HeartbeatTick := HeartbeatTick c;
     Storage := Storage c; Applied := Applied c;
     AsyncStorageWrites := AsyncStorageWrites c; MaxSizePerMsg := MaxSizePerMsg c;
     MaxCommittedSizePerReady := v;
     MaxUncommittedEntriesSize := MaxUncommittedEntriesSize c;
     MaxInflightMsgs := MaxInflightMsgs c; MaxInflightBytes := MaxInflightBytes c;
     CheckQuorum := CheckQuorum c; PreVote := PreVote c; Logger := Logger c;
     DisableProposalForwarding := DisableProposalForwarding c;
     DisableConfChangeValidation := DisableConfChangeValidation c;
     StepDownOnRemoval := StepDownOnRemoval c; StoreLiveness := StoreLiveness c |}.

Definition set_MaxUncommittedEntriesSize (v : N) (c : Config) : Config :=
  {| ID := ID c; ElectionTick := ElectionTick c; HeartbeatTick := HeartbeatTick c;
     Storage := Storage c; Applied := Applied c;
     AsyncStorageWrites := AsyncStorageWrites c; MaxSizePerMsg := MaxSizePerMsg c;
     MaxCommittedSizePerReady := MaxCommittedSizePerReady c;
     MaxUncommittedEntriesSize := v;
     MaxInflightMsgs := MaxInflightMsgs c; MaxInflightBytes := MaxInflightBytes c;
     CheckQuorum := CheckQuorum c; PreVote := PreVote c; Logger := Logger c;
     DisableProposalForwarding := DisableProposalForwarding c;
     DisableConfChangeValidation := DisableConfChangeValidation c;
     StepDownOnRemoval := StepDownOnRemoval c; StoreLiveness := StoreLiveness c |}.

Definition set_MaxInflightBytes (v : N) (c : Config) : Config :=
  {| ID := ID c; ElectionTick := ElectionTick c; HeartbeatTick := HeartbeatTick c;
     Storage := Storage c; Applied := Applied c;
     AsyncStorageWrites := AsyncStorageWrites c; MaxSizePerMsg := MaxSizePerMsg c;
     MaxCommittedSizePerReady := MaxCommittedSizePerReady c;
     MaxUncommittedEntriesSize := MaxUncommittedEntriesSize c;
     MaxInflightMsgs := MaxInflightMsgs c; MaxInflightBytes := v;
     CheckQuorum := CheckQuorum c; PreVote := PreVote c; Logger := Logger c;
     DisableProposalForwarding := DisableProposalForwarding c;
     DisableConfChangeValidation := DisableConfChangeValidation c;
     StepDownOnRemoval := StepDownOnRemoval c; StoreLiveness := StoreLiveness c |}.

Definition set_Logger (v : option LoggerT) (c : Config) : Config :=
  {| ID := ID c; ElectionTick := ElectionTick c; HeartbeatTick := HeartbeatTick c;
     Storage := Storage c; Applied := Applied c;
     AsyncStorageWrites := AsyncStorageWrites c; MaxSizePerMsg := MaxSizePerMsg c;
     MaxCommittedSizePerReady := MaxCommittedSizePerReady c;
     MaxUncommittedEntriesSize := MaxUncommittedEntriesSize c;
     MaxInflightMsgs := MaxInflightMsgs c; MaxInflightBytes := MaxInflightBytes c;
     CheckQuorum := CheckQuorum c; PreVote := PreVote c; Logger := v;
     DisableProposalForwarding := DisableProposalForwarding c;
     DisableConfChangeValidation := DisableConfChangeValidation c;
     StepDownOnRemoval := StepDownOnRemoval c; StoreLiveness := StoreLiveness c |}.

(** [validate] (lines 270-314): the configuration as the call leaves it
    (the receiver is a pointer) and the error it returns, [None] for
    nil. *)
Definition validate (c : Config) : Config * option string :=
  if bool_decide (ID c = NoneID) then (c, Some "cannot use none as id")
  else if IsLocalMsgTarget (ID c) then (c, Some "cannot use local target as id")
  else if bool_decide (HeartbeatTick c <= 0)%Z
  then (c, Some "heartbeat tick must be greater than 0")
  else if bool_decide (ElectionTick c <= HeartbeatTick c)%Z
  then (c, Some "election tick must be greater than heartbeat tick")
  else
    match Storage c with
    | None => (c, Some "storage cannot be nil")
    | Some _ =>
        let c := if bool_decide (MaxUncommittedEntriesSize c = 0)
                 then set_MaxUncommittedEntriesSize noLimit c else c in
        let c := if bool_decide (MaxCommittedSizePerReady c = 0)
                 then set_MaxCommittedSizePerReady (MaxSizePerMsg c) c else c in
        if bool_decide (MaxInflightMsgs c <= 0)%Z
        then (c, Some "max inflight messages must be greater than 0")
        else
          if bool_decide (MaxInflightBytes c = 0)
          then
            let c := set_MaxInflightBytes noLimit c in
            (match Logger c with None => set_Logger (Some getLogger) c | Some _ => c end,
             None)
          else if bool_decide (MaxInflightBytes c < MaxSizePerMsg c)
          then (c, Some "max inflight bytes must be >= max message size")
          else
            (match Logger c with None => set_Logger (Some getLogger) c | Some _ => c end,
             None)
    end.

(** What [validate] asks of a configuration. *)
Definition acceptable (c : Config) : Prop :=
  ID c <> NoneID /\ ID c <> LocalAppendThread /\ ID c <> LocalApplyThread
  /\ (0 < HeartbeatTick c)%Z
  /\ (HeartbeatTick c < ElectionTick c)%Z
  /\ Storage c <> None
  /\ (0 < MaxInflightMsgs c)%Z
  /\ (MaxInflightBytes c = 0 \/ MaxSizePerMsg c <= MaxInflightBytes c).

(** The configuration with the defaults that [validate] fills in. *)
Definition withDefaults (c : Config) : Config :=
  {| ID := ID c; ElectionTick := ElectionTick c; HeartbeatTick := HeartbeatTick c;
     Storage := Storage c; Applied := Applied c;
     AsyncStorageWrites := AsyncStorageWrites c; MaxSizePerMsg := MaxSizePerMsg c;
     MaxCommittedSizePerReady :=
       if bool_decide (MaxCommittedSizePerReady c = 0)
       then MaxSizePerMsg c else MaxCommittedSizePerReady c;
     MaxUncommittedEntriesSize :=
       if bool_decide (MaxUncommittedEntriesSize c = 0)
       then noLimit else MaxUncommittedEntriesSize c;
     MaxInflightMsgs := MaxInflightMsgs c;
     MaxInflightBytes :=
       if bool_decide (MaxInflightBytes c = 0) then noLimit else MaxInflightBytes c;
     CheckQuorum := CheckQuorum c; PreVote := PreVote c;
     Logger := match Logger c with None => Some getLogger | Some l => Some l end;
     DisableProposalForwarding := DisableProposalForwarding c;
     DisableConfChangeValidation := DisableConfChangeValidation c;
     StepDownOnRemoval := StepDownOnRemoval c; StoreLiveness := StoreLiveness c |}.

Lemma validate_ok (c : Config) :
  acceptable c -> validate c = (withDefaults c, None).
Proof.
  intros (Hid & Ha & Hp & Hh & He & Hs & Hm & Hb). unfold validate, IsLocalMsgTarget.
  rewrite (bool_decide_eq_false_2 (ID c = NoneID)) by done.
  rewrite (bool_decide_eq_false_2 (ID c = LocalAppendThread)) by done.
  rewrite (bool_decide_eq_false_2 (ID c = LocalApplyThread)) by done. cbn.
  rewrite (bool_decide_eq_false_2 (HeartbeatTick c <= 0)%Z) by lia.
  rewrite (bool_decide_eq_false_2 (ElectionTick c <= HeartbeatTick c)%Z) by lia.
  destruct (Storage c) as [s|] eqn:Hst; [|done].
  destruct c as [i et ht st ap asw msm mcs mue mim mib cq pv lg dpf dcv sdr sl].
  cbn in *. subst st. unfold withDefaults. cbn.
  repeat (case_bool_decide; cbn in * ); try lia; destruct lg; try reflexivity;
    unfold noLimit, MaxUint64 in *; lia.
Qed.

Lemma validate_error (c : Config) :
  ~ acceptable c -> exists c' e, validate c = (c', Some e).
Proof.
  intros Hn. unfold validate, IsLocalMsgTarget.
  case_bool_decide as H1; [eauto|].
  case_bool_decide as H2; [cbn; eauto|].
  case_bool_decide as H3; [cbn; eauto|]. cbn.
  case_bool_decide as H4; [eauto|].
  case_bool_decide as H5; [eauto|].
  destruct (Storage c) as [s|] eqn:Hst; [|eauto].
  destruct c as [i et ht st ap asw msm mcs mue mim mib cq pv lg dpf dcv sdr sl].
  cbn in *.
  repeat (case_bool_decide; cbn in * ); eauto;
    exfalso; apply Hn; unfold acceptable; cbn; subst st;
    repeat split; try done; try lia.
Qed.

(** [validate] returns nil exactly for a configuration whose id is neither
    zero nor one of the two local targets, with [0 < HeartbeatTick <
    ElectionTick], a storage, [0 < MaxInflightMsgs], and [MaxInflightBytes]
    either zero or at least [MaxSizePerMsg]; it then leaves the
    configuration with its defaults filled in: no limit for a zero
    [MaxUncommittedEntriesSize] or [MaxInflightBytes], [MaxSizePerMsg] for
    a zero [MaxCommittedSizePerReady], the global logger for a nil one. *)
Theorem validate_accepts (c : Config) :
  ((validate c).2 = None <-> acceptable c)
  /\ ((validate c).2 = None -> (validate c).1 = withDefaults c).
Proof.
  assert (Hiff : (validate c).2 = None <-> acceptable c).
  { split.
    - intros Hv. destruct (decide (acceptable c)) as [Ha|Hn]; [done|].
      destruct (validate_error c Hn) as (c' & e & Hr). rewrite Hr in Hv. discriminate.
    - intros Ha. by rewrite validate_ok. }
  split; [done|]. intros Hv. apply Hiff in Hv. by rewrite validate_ok.
Qed.

(** A configuration that [validate] has accepted is accepted again, and
    the second call changes nothing; its limits are set and its logger is
    not nil. *)
Theorem validate_idempotent (c c' : Config) :
  MaxSizePerMsg c <= MaxUint64 ->
  validate c = (c', None) ->
  validate c' = (c', None)
  /\ MaxUncommittedEntriesSize c' <> 0
  /\ MaxInflightBytes c' <> 0
  /\ MaxSizePerMsg c' <= MaxInflightBytes c'
  /\ Logger c' <> None.
Proof.
  intros Hr Hv.
  assert (Ha : acceptable c).
  { destruct (decide (acceptable c)) as [Ha|Hn]; [done|].
    destruct (validate_error c Hn) as (c'' & e & Hr'). rewrite Hr' in Hv. discriminate. }
  rewrite validate_ok in Hv by done. injection Hv as <-.
  destruct Ha as (Hid & Ha & Hp & Hh & He & Hs & Hm & Hb).
  assert (Hacc : acceptable (withDefaults c)).
  { unfold acceptable, withDefaults; cbn. repeat split; try done.
    case_bool_decide; [right; unfold noLimit; lia|right; lia]. }
  rewrite validate_ok by done.
  assert (Hn : noLimit <> 0) by (unfold noLimit, MaxUint64; lia).
  split.
  - f_equal. unfold withDefaults; cbn.
    destruct c as [i et ht st ap asw msm mcs mue mim mib cq pv lg dpf dcv sdr sl].
    cbn in *. f_equal.
    + repeat case_bool_decide; congruence.
    + repeat case_bool_decide; congruence.
    + repeat case_bool_decide; congruence.
    + by destruct lg.
  - unfold withDefaults; cbn. repeat split.
    + case_bool_decide; done.
    + case_bool_decide; done.
    + case_bool_decide; [unfold noLimit; lia|lia].
    + by destruct (Logger c).
Qed.

End Configuration.

(** ** Hard and soft state (lines 471-483 and 2010-2019) *)

(** Assignments to further fields of the replica. *)
Definition set_leadEpoch (v : Z) (r : raft) : raft :=
  {| id := id r; Term := Term r; Vote := Vote r; raftLog := raftLog r;
     maxMsgSize := maxMsgSize r; maxUncommittedSize := maxUncommittedSize r;
     config := config r; trk := trk r; electionTracker := electionTracker r;
     state := state r; isLearner := isLearner r; msgs := msgs r;
     msgsAfterAppend := msgsAfterAppend r; lead := lead r; leadEpoch := v;
     leadTransferee := leadTransferee r;
     pendingConfIndex := pendingConfIndex r;
     disableConfChangeValidation := disableConfChangeValidation r;
     uncommittedSize := uncommittedSize r;
     electionElapsed := electionElapsed r;
     heartbeatElapsed := heartbeatElapsed r; maxInflight := maxInflight r;
     maxInflightBytes := maxInflightBytes r; checkQuorum := checkQuorum r;
     preVote := preVote r; heartbeatTimeout := heartbeatTimeout r;
     electionTimeout := electionTimeout r;
     randomizedElectionTimeout := randomizedElectionTimeout r;
     disableProposalForwarding := disableProposalForwarding r;
     stepDownOnRemoval := stepDownOnRemoval r; tick := tick r;
     step := step r; globalRand := globalRand r |}.

Definition set_config (v : quorum.Config) (r : raft) : raft :=
  {| id := id r; Term := Term r; Vote := Vote r; raftLog := raftLog r;
     maxMsgSize := maxMsgSize r; maxUncommittedSize := maxUncommittedSize r;
     config := v; trk := trk r; electionTracker := electionTracker r;
     state := state r; isLearner := isLearner r; msgs := msgs r;
     msgsAfterAppend := msgsAfterAppend r; lead := lead r;
     leadEpoch := leadEpoch r; leadTransferee := leadTransferee r;
     pendingConfIndex := pendingConfIndex r;
     disableConfChangeValidation := disableConfChangeValidation r;
     uncommittedSize := uncommittedSize r;
     electionElapsed := electionElapsed r;
     heartbeatElapsed := heartbeatElapsed r; maxInflight := maxInflight r;
     maxInflightBytes := maxInflightBytes r; checkQuorum := checkQuorum r;
     preVote := preVote r; heartbeatTimeout := heartbeatTimeout r;
     electionTimeout := electionTimeout r;
     randomizedElectionTimeout := randomizedElectionTimeout r;
     disableProposalForwarding := disableProposalForwarding r;
     stepDownOnRemoval := stepDownOnRemoval r; tick := tick r;
     step := step r; globalRand := globalRand r |}.

Definition set_isLearner (v : bool) (r : raft) : raft :=
  {| id := id r; Term := Term r; Vote := Vote r; raftLog := raftLog r;
     maxMsgSize := maxMsgSize r; maxUncommittedSize := maxUncommittedSize r;
     config := config r; trk := trk r; electionTracker := electionTracker r;
     state := state r; isLearner := v; msgs := msgs r;
     msgsAfterAppend := msgsAfterAppend r; lead := lead r;
     leadEpoch := leadEpoch r; leadTransferee := leadTransferee r;
     pendingConfIndex := pendingConfIndex r;
     disableConfChangeValidation := disableConfChangeValidation r;
     uncommittedSize := uncommittedSize r;
     electionElapsed := electionElapsed r;
     heartbeatElapsed := heartbeatElapsed r; maxInflight := maxInflight r;
     maxInflightBytes := maxInflightBytes r; checkQuorum := checkQuorum r;
     preVote := preVote r; heartbeatTimeout := heartbeatTimeout r;
     electionTimeout := electionTimeout r;
     randomizedElectionTimeout := randomizedElectionTimeout r;
     disableProposalForwarding := disableProposalForwarding r;
     stepDownOnRemoval := stepDownOnRemoval r; tick := tick r;
     step := step r; globalRand := globalRand r |}.

(** [pb.HardState] and [SoftState], with the fields that raft.go reads and
    writes. *)
Record HardState := mkHardState {
  hs_Term : N;
  hs_Vote : PeerID;
  hs_Commit : N;
  hs_Lead : PeerID;
  hs_LeadEpoch : Z;
}.

Record SoftState := mkSoftState { RaftState : StateType }.

(** [hasLeader], [softState] and [hardState] (lines 471-483). *)
Definition hasLeader (r : raft) : bool := bool_decide (lead r <> NoneID).

Definition softState (r : raft) : SoftState := {| RaftState := state r |}.

Definition hardState (r : raft) : HardState :=
  {| hs_Term := Term r; hs_Vote := Vote r;
     hs_Commit := log.committed (raftLog r);
     hs_Lead := lead r; hs_LeadEpoch := leadEpoch r |}.

(** [loadState] (lines 2010-2019). *)
Definition loadState (st : HardState) : M unit :=
  r <- get ;;
  if bool_decide (hs_Commit st < log.committed (raftLog r))
     || bool_decide (log.lastIndex (raftLog r) < hs_Commit st)
  then panic "state.commit is out of range"
  else
    modify (fun r => set_raftLog (log.set_committed (hs_Commit st) (raftLog r)) r) ;;
    modify (set_Term (hs_Term st)) ;;
    modify (set_Vote (hs_Vote st)) ;;
    modify (set_lead (hs_Lead st)) ;;
    modify (set_leadEpoch (hs_LeadEpoch st)).

#[global] Arguments loadState : simpl never.

(** The replica with a hard state written over its own. *)
Definition withHardState (st : HardState) (r : raft) : raft :=
  set_leadEpoch (hs_LeadEpoch st)
    (set_lead (hs_Lead st)
       (set_Vote (hs_Vote st)
          (set_Term (hs_Term st)
             (set_raftLog (log.set_committed (hs_Commit st) (raftLog r)) r)))).

(** [loadState] takes a hard state whose commit index lies between the
    replica's commit index and the end of its log, and panics on any
    other; what it has loaded is what [hardState] reads back, and nothing
    but the five fields changes.  Loading the replica's own hard state
    changes nothing. *)
Theorem loadState_hardState (st : HardState) (r : raft) :
  (log.committed (raftLog r) <= hs_Commit st <= log.lastIndex (raftLog r) ->
   loadState st r = Ok tt (withHardState st r)
   /\ hardState (withHardState st r) = st
   /\ softState (withHardState st r) = softState r
   /\ log.ents (raftLog (withHardState st r)) = log.ents (raftLog r))
  /\ (~ log.committed (raftLog r) <= hs_Commit st <= log.lastIndex (raftLog r) ->
      exists msg, loadState st r = Panic msg)
  /\ (log.committed (raftLog r) <= log.lastIndex (raftLog r) ->
      loadState (hardState r) r = Ok tt r).
Proof.
  assert (Hok : forall st', log.committed (raftLog r) <= hs_Commit st' <= log.lastIndex (raftLog r) ->
                      loadState st' r = Ok tt (withHardState st' r)).
  { intros st' [Hlo Hhi]. unfold loadState. run.
    rewrite (bool_decide_eq_false_2 (hs_Commit st' < _)) by lia.
    by rewrite (bool_decide_eq_false_2 (_ < hs_Commit st')) by lia. }
  split; [|split].
  - intros Hr. split; [by apply Hok|]. by destruct st.
  - intros Hn. unfold loadState. run.
    destruct (bool_decide (hs_Commit st < _)) eqn:H1; cbn; [eauto|].
    destruct (bool_decide (_ < hs_Commit st)) eqn:H2; cbn; [eauto|].
    apply bool_decide_eq_false in H1, H2. exfalso. apply Hn. lia.
  - intros Hc. rewrite Hok by (cbn; lia). reflexivity.
Qed.

(** ** Messages that [send] puts on [msgs] *)

(** A message that is neither a campaign message nor a proposal nor one of
    the three delayed responses leaves with the sender and the term of the
    replica filled in. *)
Lemma send_msgs (m : pb.Message) (r : raft) :
  ~ isCampaignType (pb.m_Type m) ->
  ~ isAfterAppendType (pb.m_Type m) ->
  pb.m_Type m <> pb.MsgProp ->
  pb.m_From m = NoneID ->
  pb.m_Term m = 0 ->
  pb.m_To m <> id r ->
  send m r = Ok tt (set_msgs (msgs r ++ [pb.set_Term (Term r) (pb.set_From (id r) m)]) r).
Proof.
  intros Hc Ha Hp Hf Ht Hto.
  assert (Hs : sendable r m) by (split; [tauto|split; tauto]).
  rewrite send_ok by done.
  rewrite (bool_decide_eq_false_2 (isAfterAppendType _)) by done.
  unfold outbound. rewrite (bool_decide_eq_true_2 (pb.m_From m = NoneID)) by done. cbn.
  rewrite bool_decide_eq_false_2 by (cbn; tauto). reflexivity.
Qed.

Lemma send_self_addressed (m : pb.Message) (r : raft) :
  ~ isAfterAppendType (pb.m_Type m) ->
  pb.m_To m = id r ->
  exists msg, send m r = Panic msg.
Proof.
  intros Ha Hto. apply send_panics. intros (_ & _ & Hs). by apply Hs.
Qed.

(** ** Heartbeats on a follower (lines 1659-1662 and 1774-1804) *)

(** The literal [pb.Message{To: to, Type: pb.MsgHeartbeatResp}]. *)
Definition heartbeatResp (to : N) : pb.Message :=
  {| pb.m_Type := pb.MsgHeartbeatResp; pb.m_To := to; pb.m_From := 0;
     pb.m_Term := 0; pb.m_LogTerm := 0; pb.m_Index := 0;
     pb.m_Entries := []; pb.m_Commit := 0; pb.m_Match := 0;
     pb.m_Snapshot := None; pb.m_Reject := false;
     pb.m_RejectHint := 0; pb.m_Context := [] |}.

(** The commit index that a heartbeat leaves: raised to [min(m.Commit,
    lastIndex)] when the log was last appended to by the leader of the
    heartbeat's term, and never lowered. *)
Definition heartbeatCommit (r : raft) (m : pb.Message) : N :=
  if bool_decide (pb.m_Term m = log.accTerm (raftLog r))
  then N.max (log.committed (raftLog r))
         (N.min (pb.m_Commit m) (log.lastIndex (raftLog r)))
  else log.committed (raftLog r).

Lemma handleHeartbeat_ok (m : pb.Message) (r : raft) :
  pb.m_Match m <= log.lastIndex (raftLog r) ->
  pb.m_From m <> id r ->
  handleHeartbeat m r
  = Ok tt (set_msgs
             (msgs r ++ [pb.set_Term (Term r) (pb.set_From (id r) (heartbeatResp (pb.m_From m)))])
             (set_raftLog (log.set_committed (heartbeatCommit r m) (raftLog r)) r)).
Proof.
  intros Hm Hfrom. unfold handleHeartbeat, checkMatch, heartbeatCommit. run.
  rewrite bool_decide_eq_false_2 by lia. cbn.
  case_bool_decide as Hacc; cbn.
  - rewrite commitTo_max by (done || apply N.le_min_r).
    rewrite send_msgs; cbn; try done;
      unfold isCampaignType, isAfterAppendType; cbn;
      intros Hx; decompose [or] Hx; discriminate.
  - rewrite send_msgs; cbn; try done;
      unfold isCampaignType, isAfterAppendType; cbn;
      try (intros Hx; decompose [or] Hx; discriminate).
Qed.

(** A follower that steps a heartbeat of its own term takes the sender for
    its leader, restarts its election timer, raises its commit index to
    [min(m.Commit, lastIndex)] only if its log was last written by the
    leader of that term, never lowers it, and answers with one
    [MsgHeartbeatResp] on [msgs].  A heartbeat that claims a match beyond
    the end of the log panics, and so does one that comes from the replica
    itself. *)
Theorem Step_heartbeat `{External} (m : pb.Message) (r : raft) :
  pb.m_Type m = pb.MsgHeartbeat ->
  step r = stepFollowerFn ->
  pb.m_Term m = Term r ->
  (pb.m_Match m <= log.lastIndex (raftLog r) -> pb.m_From m <> id r ->
   exists r',
     Step m r = Ok None r'
     /\ lead r' = pb.m_From m
     /\ electionElapsed r' = 0%Z
     /\ log.committed (raftLog r') = heartbeatCommit r m
     /\ log.committed (raftLog r) <= log.committed (raftLog r')
     /\ log.ents (raftLog r') = log.ents (raftLog r)
     /\ msgs r' = msgs r ++ [pb.set_Term (Term r)
                               (pb.set_From (id r) (heartbeatResp (pb.m_From m)))]
     /\ msgsAfterAppend r' = msgsAfterAppend r
     /\ Term r' = Term r /\ Vote r' = Vote r /\ state r' = state r)
  /\ (log.lastIndex (raftLog r) < pb.m_Match m -> exists msg, Step m r = Panic msg)
  /\ (pb.m_From m = id r -> exists msg, Step m r = Panic msg).
Proof.
  intros Hty Hstep Hterm.
  rewrite Step_same_term by done.
  assert (Hst : stepType m r
                = bind (handleHeartbeat m) (fun _ => ret None)
                    (set_lead (pb.m_From m) (set_electionElapsed 0%Z r))).
  { unfold stepType, stepFollower. rewrite Hty. run. by rewrite Hstep. }
  rewrite Hst. unfold bind. split; [|split].
  - intros Hm Hfrom. rewrite handleHeartbeat_ok by done.
    eexists. split; [reflexivity|]. cbn. repeat split; try done.
    unfold heartbeatCommit. cbn. case_bool_decide; lia.
  - intros Hm. unfold handleHeartbeat, checkMatch. run.
    rewrite bool_decide_eq_true_2 by done. eauto.
  - intros Hfrom. unfold handleHeartbeat, checkMatch. run.
    case_bool_decide; cbn; [eauto|].
    case_bool_decide; cbn;
      match goal with
      | |- context [send ?x ?s] => destruct (send_self_addressed x s) as [msg Hp]
      end;
      try (unfold isAfterAppendType; cbn; intros Hx; decompose [or] Hx; discriminate);
      try done; rewrite Hp; eauto.
Qed.

(** ** Messages of an earlier term (lines 1108-1142) *)

(** A message of an earlier term changes nothing in the replica but its
    queue of delayed responses: with [checkQuorum] or [preVote] a
    [MsgHeartbeat] or [MsgApp] is answered with a [MsgAppResp] at the
    replica's term, so that the stale leader steps down; a [MsgPreVote] is
    rejected at the replica's term; anything else is dropped.  [Step]
    returns nil in every case. *)
Theorem Step_stale `{External} (m : pb.Message) (r : raft) :
  pb.m_Term m <> 0 ->
  pb.m_Term m < Term r ->
  let answer :=
    if (checkQuorum r || preVote r)
       && (bool_decide (pb.m_Type m = pb.MsgHeartbeat)
           || bool_decide (pb.m_Type m = pb.MsgApp))
    then [pb.set_Term (Term r) (pb.set_From (id r) (appResp (pb.m_From m) 0 false 0 0))]
    else if bool_decide (pb.m_Type m = pb.MsgPreVote)
    then [pb.set_From (id r) (voteResp pb.MsgPreVoteResp (pb.m_From m) (Term r) true)]
    else [] in
  Step m r = Ok None (set_msgsAfterAppend (msgsAfterAppend r ++ answer) r).
Proof.
  intros H0 Hlt answer. subst answer. unfold Step, stepTerm. run.
  rewrite (bool_decide_eq_false_2 (pb.m_Term m = 0)) by done.
  rewrite (bool_decide_eq_false_2 (Term r < pb.m_Term m)) by lia.
  rewrite (bool_decide_eq_true_2 (pb.m_Term m < Term r)) by done.
  destruct ((checkQuorum r || preVote r) && _) eqn:Hq; cbn.
  - by rewrite send_appResp.
  - destruct (bool_decide (pb.m_Type m = pb.MsgPreVote)); cbn.
    + rewrite send_voteResp by (tauto || lia). reflexivity.
    + by rewrite app_nil_r.
Qed.

(** ** Proposals on a replica that is not the leader (lines 1601-1603 and
    1637-1649) *)

(** A proposal stepped on a candidate is dropped.  A follower drops it when
    it knows no leader, when forwarding is disabled or when it takes itself
    for the leader; otherwise it forwards the proposal, entries untouched
    and without a term, to its leader.  The replica itself does not
    change. *)
Theorem Step_prop_not_leader `{External} (m : pb.Message) (r : raft) :
  pb.m_Type m = pb.MsgProp ->
  pb.m_Term m = 0 ->
  (step r = stepCandidateFn -> Step m r = Ok (Some ErrProposalDropped) r)
  /\ (step r = stepFollowerFn ->
      lead r = NoneID \/ disableProposalForwarding r = true \/ lead r = id r ->
      Step m r = Ok (Some ErrProposalDropped) r)
  /\ (step r = stepFollowerFn ->
      lead r <> NoneID -> disableProposalForwarding r = false -> lead r <> id r ->
      Step m r = Ok None (set_msgs (msgs r ++ [outbound r (pb.set_To (lead r) m)]) r)
      /\ pb.m_To (outbound r (pb.set_To (lead r) m)) = lead r
      /\ pb.m_Term (outbound r (pb.set_To (lead r) m)) = 0
      /\ pb.m_Entries (outbound r (pb.set_To (lead r) m)) = pb.m_Entries m).
Proof.
  intros Hty Hterm.
  assert (Hs : Step m r = stepType m r) by (unfold Step, bind; by rewrite stepTerm_local).
  rewrite Hs. unfold stepType. rewrite Hty. run.
  split; [|split].
  - intros ->. unfold stepCandidate. run. rewrite Hty. by decide_closed.
  - intros -> Hd. unfold stepFollower. run. rewrite Hty.
    case_bool_decide; [done|]. destruct (disableProposalForwarding r); [done|].
    case_bool_decide; [done|]. destruct Hd as [Hd|[Hd|Hd]]; done.
  - intros -> Hl Hd Hi. unfold stepFollower. run. rewrite Hty.
    rewrite (bool_decide_eq_false_2 (lead r = NoneID)) by done. rewrite Hd.
    rewrite (bool_decide_eq_false_2 (lead r = id r)) by done.
    assert (Hsend : sendable r (pb.set_To (lead r) m)).
    { unfold sendable, isCampaignType, isAfterAppendType. cbn. rewrite Hty.
      split; [intros Hx; decompose [or] Hx; discriminate|]. split; done. }
    rewrite send_ok by done.
    rewrite (bool_decide_eq_false_2 (isAfterAppendType _))
      by (unfold isAfterAppendType; cbn; intros Hx; decompose [or] Hx; congruence).
    split; [done|].
    unfold outbound.
    rewrite (bool_decide_eq_true_2 (_ \/ _ = pb.MsgProp))
      by (right; by destruct (bool_decide _)).
    case_bool_decide; cbn; done.
Qed.

(** ** Proposals that the leader refuses at once (lines 1257-1270) *)

(** The leader panics on a proposal without entries; it drops a proposal,
    and does nothing else, once it has been removed from the configuration
    (it does not track itself) or while it is transferring its
    leadership. *)
Theorem Step_prop_refused `{External} (m : pb.Message) (r : raft) :
  pb.m_Type m = pb.MsgProp ->
  pb.m_Term m = 0 ->
  step r = stepLeaderFn ->
  (pb.m_Entries m = [] -> exists msg, Step m r = Panic msg)
  /\ (pb.m_Entries m <> [] ->
      trk r !! id r = None \/ leadTransferee r <> NoneID ->
      Step m r = Ok (Some ErrProposalDropped) r).
Proof.
  intros Hty Hterm Hstep.
  assert (Hs : Step m r = stepType m r) by (unfold Step, bind; by rewrite stepTerm_local).
  rewrite Hs. unfold stepType. rewrite Hty. run. rewrite Hstep.
  unfold stepLeader. rewrite Hty. run. split.
  - intros ->. cbn. decide_closed. eauto.
  - intros Hne Hd.
    rewrite bool_decide_eq_false_2 by (by destruct (pb.m_Entries m)).
    case_bool_decide; [done|].
    case_bool_decide; [done|]. destruct Hd; done.
Qed.

(** ** The quorum check of the leader (lines 1238-1256) *)

(** The progress map with every peer but [i] marked inactive. *)
Definition markInactive (i : PeerID) (prs : gmap N tracker.Progress)
    : gmap N tracker.Progress :=
  map_imap (fun j pr =>
    Some (if bool_decide (j <> i) then tracker.set_RecentActive false pr else pr)) prs.

Lemma markInactive_lookup (i j : PeerID) (prs : gmap N tracker.Progress) :
  markInactive i prs !! j
  = (fun pr => if bool_decide (j <> i) then tracker.set_RecentActive false pr else pr)
      <$> prs !! j.
Proof. unfold markInactive. rewrite map_lookup_imap. by destruct (prs !! j). Qed.

(** On [MsgCheckQuorum] a leader that has heard of a quorum since the last
    check stays leader; one that has not steps down to a follower of the
    same term, keeps its vote and keeps itself as the leader it knows.  In
    both cases every peer but the replica itself is marked inactive for
    the next check, the same peers are tracked, and nothing is sent. *)
Theorem Step_checkQuorum `{External} (m : pb.Message) (r : raft) :
  pb.m_Type m = pb.MsgCheckQuorum ->
  pb.m_Term m = 0 ->
  step r = stepLeaderFn ->
  (0 < electionTimeout r)%Z ->
  exists r',
    Step m r = Ok None r'
    /\ (forall j pr, trk r' !! j = Some pr -> j <> id r -> tracker.RecentActive pr = false)
    /\ dom (trk r') = dom (trk r)
    /\ msgs r' = msgs r /\ msgsAfterAppend r' = msgsAfterAppend r
    /\ Term r' = Term r /\ Vote r' = Vote r /\ raftLog r' = raftLog r
    /\ (tracker.QuorumActive (config r) (trk r) = true ->
        r' = set_trk (markInactive (id r) (trk r)) r)
    /\ (tracker.QuorumActive (config r) (trk r) = false ->
        state r' = StateFollower /\ step r' = stepFollowerFn
        /\ tick r' = tickElection /\ lead r' = id r).
Proof.
  intros Hty Hterm Hstep Het.
  assert (Hs : Step m r = stepType m r) by (unfold Step, bind; by rewrite stepTerm_local).
  rewrite Hs. unfold stepType. rewrite Hty. run. rewrite Hstep.
  unfold stepLeader. rewrite Hty. run.
  assert (Hdom : forall i prs, dom (markInactive i prs) = dom prs).
  { intros i prs. apply set_eq. intros j. rewrite !elem_of_dom, markInactive_lookup.
    by rewrite fmap_is_Some. }
  assert (Hin : forall i prs j pr, markInactive i prs !! j = Some pr -> j <> i ->
                        tracker.RecentActive pr = false).
  { intros i prs j pr Hl Hj. rewrite markInactive_lookup in Hl.
    destruct (prs !! j) as [p|]; [|done]. cbn in Hl.
    rewrite bool_decide_eq_true_2 in Hl by done. by injection Hl as <-. }
  destruct (tracker.QuorumActive (config r) (trk r)) eqn:Hq; cbn.
  - eexists. split; [reflexivity|]. cbn. fold (markInactive (id r) (trk r)).
    split; [apply Hin|]. split; [apply Hdom|]. repeat split; done.
  - rewrite becomeFollower_ok by done. cbn.
    eexists. split; [reflexivity|]. cbn.
    match goal with |- context [map_imap ?f ?p] =>
      change (map_imap f p) with (markInactive (id r) p) end.
    split; [apply Hin|]. split.
    { rewrite Hdom. apply set_eq. intros j. rewrite !elem_of_dom, map_lookup_imap.
      by destruct (trk r !! j). }
    rewrite bool_decide_eq_false_2 by (intros Hx; by apply Hx).
    repeat split; done.
Qed.

(** ** Campaigning (lines 879-910 and 1003-1051) *)

(** The replica that [becomePreCandidate] and [becomeCandidate] leave. *)
Definition asPreCandidate (r : raft) : raft :=
  set_state StatePreCandidate
    (set_lead NoneID
       (set_tick tickElection (set_electionTracker ∅ (set_step stepCandidateFn r)))).

Definition asCandidate (r : raft) : raft :=
  set_state StateCandidate
    (set_Vote (id r)
       (set_tick tickElection
          (afterReset (u64 (Term r + 1)) (set_step stepCandidateFn r)))).

Lemma becomePreCandidate_ok (r : raft) :
  state r <> StateLeader -> becomePreCandidate r = Ok tt (asPreCandidate r).
Proof.
  intros Hst. unfold becomePreCandidate. run.
  by rewrite bool_decide_eq_false_2 by done.
Qed.

Lemma becomeCandidate_ok (r : raft) :
  state r <> StateLeader -> (0 < electionTimeout r)%Z ->
  becomeCandidate r = Ok tt (asCandidate r).
Proof.
  intros Hst Het. unfold becomeCandidate. run.
  rewrite bool_decide_eq_false_2 by done. cbn.
  by rewrite reset_ok by done.
Qed.

(** The request that [campaign] sends to the voter [i], and the response
    that it sends to itself, as they stand on the queues. *)
Definition voteRequestTo (t : CampaignType) (voteMsg : pb.MessageType) (term : N)
    (r : raft) (i : PeerID) : pb.Message :=
  {| pb.m_Type := voteMsg; pb.m_To := i; pb.m_From := id r;
     pb.m_Term := term;
     pb.m_LogTerm := eid_term (log.lastEntryID (raftLog r));
     pb.m_Index := eid_index (log.lastEntryID (raftLog r));
     pb.m_Entries := []; pb.m_Commit := 0; pb.m_Match := 0;
     pb.m_Snapshot := None; pb.m_Reject := false; pb.m_RejectHint := 0;
     pb.m_Context := if bool_decide (t = campaignTransfer) then campaignBytes t else [] |}.

Definition ownVote (resp : pb.MessageType) (term : N) (r : raft) : pb.Message :=
  {| pb.m_Type := resp; pb.m_To := id r; pb.m_From := id r;
     pb.m_Term := term; pb.m_LogTerm := 0; pb.m_Index := 0;
     pb.m_Entries := []; pb.m_Commit := 0; pb.m_Match := 0;
     pb.m_Snapshot := None; pb.m_Reject := false; pb.m_RejectHint := 0;
     pb.m_Context := [] |}.

Lemma campaignSend_ok (t : CampaignType) (voteMsg resp : pb.MessageType) (term : N)
    (i : PeerID) (r : raft) :
  voteRespMsgType voteMsg = Some resp ->
  term <> 0 ->
  campaignSend t voteMsg term i r
  = Ok tt (if bool_decide (i = id r)
           then set_msgsAfterAppend (msgsAfterAppend r ++ [ownVote resp term r]) r
           else set_msgs (msgs r ++ [voteRequestTo t voteMsg term r i]) r).
Proof.
  intros Hresp Hterm. unfold campaignSend. run.
  assert (Hv : (voteMsg = pb.MsgVote /\ resp = pb.MsgVoteResp)
               \/ (voteMsg = pb.MsgPreVote /\ resp = pb.MsgPreVoteResp)).
  { destruct voteMsg; cbn in Hresp; try discriminate; injection Hresp as <-; tauto. }
  case_bool_decide as Hi.
  - rewrite Hresp. rewrite send_ok.
    + rewrite bool_decide_eq_true_2
        by (unfold isAfterAppendType; cbn; destruct Hv as [[_ ->]|[_ ->]]; tauto).
      subst i. unfold outbound. cbn.
      rewrite bool_decide_eq_true_2
        by (unfold isCampaignType; cbn; destruct Hv as [[_ ->]|[_ ->]]; tauto).
      reflexivity.
    + unfold sendable, isCampaignType, isAfterAppendType. cbn.
      split; [done|]. split; intros Hx; exfalso; apply Hx;
        destruct Hv as [[_ ->]|[_ ->]]; tauto.
  - rewrite send_ok.
    + rewrite bool_decide_eq_false_2
        by (unfold isAfterAppendType; cbn; destruct Hv as [[-> _]|[-> _]];
            intros Hx; decompose [or] Hx; discriminate).
      unfold outbound. cbn.
      rewrite bool_decide_eq_true_2
        by (unfold isCampaignType; cbn; destruct Hv as [[-> _]|[-> _]]; tauto).
      reflexivity.
    + unfold sendable, isCampaignType, isAfterAppendType. cbn.
      split; [done|]. split; [|done]. intros Hx; exfalso; apply Hx;
        destruct Hv as [[-> _]|[-> _]]; tauto.
Qed.

Lemma forEach_cons {A} (x : A) (l : list A) (f : A -> M unit) :
  forEach (x :: l) f = bind (f x) (fun _ => forEach l f).
Proof. reflexivity. Qed.

(** The queues after the loop of [campaign] over the voters [l]. *)
Definition campaigned (t : CampaignType) (voteMsg resp : pb.MessageType) (term : N)
    (l : list PeerID) (r : raft) : raft :=
  set_msgsAfterAppend
    (msgsAfterAppend r ++ ((fun _ => ownVote resp term r) <$> filter (fun i => i = id r) l))
    (set_msgs
       (msgs r ++ (voteRequestTo t voteMsg term r <$> filter (fun i => i <> id r) l)) r).

Lemma forEach_campaignSend (t : CampaignType) (voteMsg resp : pb.MessageType) (term : N)
    (l : list PeerID) (r : raft) :
  voteRespMsgType voteMsg = Some resp ->
  term <> 0 ->
  forEach l (campaignSend t voteMsg term) r
  = Ok tt (campaigned t voteMsg resp term l r).
Proof.
  intros Hresp Hterm. revert r. induction l as [|i l IH]; intros r.
  - cbn. unfold ret, campaigned. cbn. by rewrite !app_nil_r.
  - rewrite forEach_cons. unfold bind. rewrite (campaignSend_ok t voteMsg resp) by done.
    case_bool_decide as Hi.
    + rewrite IH. f_equal. unfold campaigned.
      rewrite (filter_cons_True (fun i => i = id r)) by done.
      rewrite (filter_cons_False (fun i => i <> id r)) by (intros Hx; by apply Hx).
      cbn. by rewrite <- app_assoc.
    + rewrite IH. f_equal. unfold campaigned.
      rewrite (filter_cons_False (fun i => i = id r)) by done.
      rewrite (filter_cons_True (fun i => i <> id r)) by done.
      cbn. by rewrite <- app_assoc.
Qed.

Lemma filter_eq_NoDup (x : N) (l : list N) :
  NoDup l ->
  filter (fun i => i = x) l = if bool_decide (x ∈ l) then [x] else [].
Proof.
  induction 1 as [|y l Hy Hnd IH].
  - done.
  - destruct (decide (y = x)) as [->|Hne].
    + rewrite filter_cons_True by done. rewrite IH.
      rewrite (bool_decide_eq_false_2 (x ∈ l)) by done.
      by rewrite bool_decide_eq_true_2 by left.
    + rewrite filter_cons_False by done. rewrite IH.
      rewrite (bool_decide_ext (x ∈ y :: l) (x ∈ l)); [done|].
      rewrite elem_of_cons. split; [intros [Hx|Hx]; [congruence|done]|by right].
Qed.

(** The voters in the order in which [campaign] visits them. *)
Definition votersInOrder (r : raft) : list PeerID :=
  merge_sort N.le (elements (quorum.IDs (quorum.Voters (config r)))).

(** The replica that [campaign t] leaves. *)
Definition afterCampaign (t : CampaignType) (r : raft) : raft :=
  let pre := bool_decide (t = campaignPreElection) in
  let r1 := if pre then asPreCandidate r else asCandidate r in
  let voteMsg := if pre then pb.MsgPreVote else pb.MsgVote in
  let resp := if pre then pb.MsgPreVoteResp else pb.MsgVoteResp in
  set_msgsAfterAppend
    (msgsAfterAppend r
       ++ (if bool_decide (id r ∈ quorum.IDs (quorum.Voters (config r)))
           then [ownVote resp (Term r + 1) r] else []))
    (set_msgs
       (msgs r ++ (voteRequestTo t voteMsg (Term r + 1) r
                     <$> filter (fun i => i <> id r) (votersInOrder r)))
       r1).

Lemma campaign_ok (t : CampaignType) (r : raft) :
  state r <> StateLeader ->
  (0 < electionTimeout r)%Z ->
  Term r < MaxUint64 ->
  campaign t r = Ok tt (afterCampaign t r).
Proof.
  intros Hst Het Hterm. unfold campaign, afterCampaign.
  assert (Hu : u64 (Term r + 1) = Term r + 1) by (apply u64_small; lia).
  assert (Hnd : NoDup (votersInOrder r)).
  { unfold votersInOrder. rewrite merge_sort_Permutation. apply NoDup_elements. }
  assert (Hin : bool_decide (id r ∈ votersInOrder r)
                = bool_decide (id r ∈ quorum.IDs (quorum.Voters (config r)))).
  { apply bool_decide_ext. unfold votersInOrder.
    rewrite merge_sort_Permutation. apply elem_of_elements. }
  destruct (bool_decide (t = campaignPreElection)) eqn:Hpre; run.
  - rewrite becomePreCandidate_ok by done. cbn.
    rewrite (forEach_campaignSend _ _ pb.MsgPreVoteResp) by (done || lia).
    f_equal. unfold campaigned. cbn. fold (votersInOrder r).
    rewrite filter_eq_NoDup by done. rewrite Hin, Hu.
    destruct (bool_decide (id r ∈ quorum.IDs _)); reflexivity.
  - rewrite becomeCandidate_ok by done. cbn.
    rewrite (forEach_campaignSend _ _ pb.MsgVoteResp) by (done || lia).
    f_equal. unfold campaigned. cbn. fold (votersInOrder r).
    rewrite filter_eq_NoDup by done. rewrite Hin, Hu.
    destruct (bool_decide (id r ∈ quorum.IDs _)); reflexivity.
Qed.

(** [campaign] on a replica that is not the leader: in a pre-election the
    replica becomes a pre-candidate and keeps its term and its vote; in an
    election or a transfer it becomes a candidate of the next term and
    votes for itself.  Either way it forgets its leader, clears the votes
    it has counted, sends one request at the next term, with the end of
    its log, to every other voter in increasing order of id, and hands
    its own vote to itself through [msgsAfterAppend]. *)
Theorem campaign_spec (t : CampaignType) (r : raft) :
  state r <> StateLeader ->
  (0 < electionTimeout r)%Z ->
  Term r < MaxUint64 ->
  let pre := bool_decide (t = campaignPreElection) in
  let voteMsg := if pre then pb.MsgPreVote else pb.MsgVote in
  let resp := if pre then pb.MsgPreVoteResp else pb.MsgVoteResp in
  exists r',
    campaign t r = Ok tt r'
    /\ msgs r' = msgs r ++ (voteRequestTo t voteMsg (Term r + 1) r
                             <$> filter (fun i => i <> id r) (votersInOrder r))
    /\ msgsAfterAppend r'
       = msgsAfterAppend r
         ++ (if bool_decide (id r ∈ quorum.IDs (quorum.Voters (config r)))
             then [ownVote resp (Term r + 1) r] else [])
    /\ (t = campaignPreElection ->
        state r' = StatePreCandidate /\ Term r' = Term r /\ Vote r' = Vote r)
    /\ (t <> campaignPreElection ->
        state r' = StateCandidate /\ Term r' = Term r + 1 /\ Vote r' = id r)
    /\ lead r' = NoneID
    /\ electionTracker r' = ∅
    /\ step r' = stepCandidateFn
    /\ raftLog r' = raftLog r.
Proof.
  intros Hst Het Hterm pre voteMsg resp.
  exists (afterCampaign t r). split; [by apply campaign_ok|].
  assert (Hu : u64 (Term r + 1) = Term r + 1) by (apply u64_small; lia).
  unfold afterCampaign. subst pre voteMsg resp.
  split; [reflexivity|]. split; [reflexivity|].
  destruct (bool_decide (t = campaignPreElection)) eqn:Ht;
    [apply bool_decide_eq_true in Ht|apply bool_decide_eq_false in Ht];
    cbn; rewrite ?Hu; repeat split; done.
Qed.

(** A vote request of a transfer makes the receiver ignore its lease. *)
Lemma force_transfer (voteMsg : pb.MessageType) (term : N) (r : raft) (i : PeerID) :
  force (voteRequestTo campaignTransfer voteMsg term r i) = true.
Proof. unfold force. cbn. by rewrite bool_decide_eq_true_2. Qed.

Lemma Step_campaigns_ok `{External} (m : pb.Message) (t : CampaignType) (r : raft) :
  (pb.m_Type m = pb.MsgHup
   /\ t = (if preVote r then campaignPreElection else campaignElection))
  \/ (pb.m_Type m = pb.MsgTimeoutNow /\ step r = stepFollowerFn /\ t = campaignTransfer) ->
  pb.m_Term m = 0 \/ pb.m_Term m = Term r ->
  state r <> StateLeader ->
  promotable r = true ->
  scannable (raftLog r) ->
  existsb isConfChange (unapplied (raftLog r)) = false ->
  (0 < electionTimeout r)%Z ->
  Term r < MaxUint64 ->
  Step m r = Ok None (afterCampaign t r).
Proof.
  intros Hm Hterm Hst Hp Hscan Hcc Het Hmax.
  assert (Hs : Step m r = stepType m r).
  { destruct Hterm as [H0|Heq]; [|by apply Step_same_term].
    unfold Step, bind. by rewrite stepTerm_local. }
  assert (Hhup : hup t r = Ok tt (afterCampaign t r)).
  { unfold hup. run. rewrite bool_decide_eq_false_2 by done. rewrite Hp. cbn.
    rewrite hasUnappliedConfChanges_ok by done. rewrite Hcc.
    by apply campaign_ok. }
  rewrite Hs. unfold stepType.
  destruct Hm as [[Hty ->]|(Hty & Hstep & ->)]; rewrite Hty; run.
  - destruct (preVote r); by rewrite Hhup.
  - rewrite Hstep. unfold stepFollower. run. rewrite Hty. by rewrite Hhup.
Qed.

(** [Step] turns a [MsgHup] into a pre-election when [preVote] is set and
    into an election otherwise, and a follower turns a [MsgTimeoutNow]
    into an election for a transfer, which skips the pre-vote round and
    whose requests make their receivers ignore the lease, whenever the
    replica is promotable, is not the leader and has applied every
    committed configuration change: the replica is then as [campaign]
    leaves it. *)
Theorem Step_campaigns `{External} (m : pb.Message) (t : CampaignType) (r : raft) :
  (pb.m_Type m = pb.MsgHup
   /\ t = (if preVote r then campaignPreElection else campaignElection))
  \/ (pb.m_Type m = pb.MsgTimeoutNow /\ step r = stepFollowerFn /\ t = campaignTransfer) ->
  pb.m_Term m = 0 \/ pb.m_Term m = Term r ->
  state r <> StateLeader ->
  promotable r = true ->
  scannable (raftLog r) ->
  existsb isConfChange (unapplied (raftLog r)) = false ->
  (0 < electionTimeout r)%Z ->
  Term r < MaxUint64 ->
  Step m r = Ok None (afterCampaign t r)
  /\ campaign t r = Ok tt (afterCampaign t r)
  /\ (t = campaignTransfer ->
      state (afterCampaign t r) = StateCandidate
      /\ Term (afterCampaign t r) = Term r + 1
      /\ forall i, force (voteRequestTo t pb.MsgVote (Term r + 1) r i) = true).
Proof.
  intros Hm Hterm Hst Hp Hscan Hcc Het Hmax.
  split; [by apply Step_campaigns_ok|]. split; [by apply campaign_ok|].
  intros ->. assert (Hu : u64 (Term r + 1) = Term r + 1) by (apply u64_small; lia).
  unfold afterCampaign. decide_closed. rewrite Hu.
  split; [done|]. split; [done|]. intros i. apply force_transfer.
Qed.

(** ** Heartbeats of the leader (lines 654-691 and 1235-1237) *)

Section Heartbeats.

Context `{External}.

(** The commit index that the leader tells a peer: not beyond what the
    peer is known to hold. *)
Definition heartbeatCommitFor (r : raft) (pr : tracker.Progress) : N :=
  N.min (tracker.Match pr) (log.committed (raftLog r)).

(** The heartbeat for the peer [to] as it stands on [msgs]. *)
Definition heartbeatTo (r : raft) (to : PeerID) (pr : tracker.Progress) : pb.Message :=
  {| pb.m_Type := pb.MsgHeartbeat; pb.m_To := to; pb.m_From := id r;
     pb.m_Term := Term r; pb.m_LogTerm := 0; pb.m_Index := 0;
     pb.m_Entries := []; pb.m_Commit := heartbeatCommitFor r pr;
     pb.m_Match := tracker.Match pr;
     pb.m_Snapshot := None; pb.m_Reject := false;
     pb.m_RejectHint := 0; pb.m_Context := [] |}.

Lemma sendHeartbeat_ok (to : PeerID) (pr : tracker.Progress) (r : raft) :
  trk r !! to = Some pr ->
  to <> id r ->
  sendHeartbeat to r
  = Ok tt (set_trk (<[to := SentCommit pr (heartbeatCommitFor r pr)]> (trk r))
             (set_msgs (msgs r ++ [heartbeatTo r to pr]) r)).
Proof.
  intros Hpr Hto. unfold sendHeartbeat. run. rewrite Hpr.
  rewrite send_msgs; cbn; try done;
    unfold isCampaignType, isAfterAppendType; cbn;
    intros Hx; decompose [or] Hx; discriminate.
Qed.

(** The heartbeats for the peers [l], in that order. *)
Definition heartbeats (r : raft) (l : list PeerID) : list pb.Message :=
  omap (fun i => if bool_decide (i = id r) then None
                 else heartbeatTo r i <$> trk r !! i) l.

(** The progress of the peer [j] once the peers [l] have been sent their
    heartbeat. *)
Definition heartbeatSent (r : raft) (l : list PeerID) (j : PeerID)
    : option tracker.Progress :=
  (fun pr => if bool_decide (j ∈ l /\ j <> id r)
             then SentCommit pr (heartbeatCommitFor r pr) else pr) <$> trk r !! j.

Lemma heartbeats_ext (r r1 : raft) (l : list PeerID) :
  id r1 = id r -> Term r1 = Term r -> raftLog r1 = raftLog r ->
  (forall j, j ∈ l -> trk r1 !! j = trk r !! j) ->
  heartbeats r1 l = heartbeats r l.
Proof.
  intros Hi Ht Hl Hprs. unfold heartbeats.
  induction l as [|i l IH]; [done|]. cbn.
  rewrite IH by (intros j Hj; apply Hprs; by right).
  rewrite Hi, (Hprs i) by left.
  unfold heartbeatTo, heartbeatCommitFor. by rewrite Hi, Ht, Hl.
Qed.

Lemma forEach_sendHeartbeat (l : list PeerID) (r : raft) :
  NoDup l ->
  (forall i, i ∈ l -> is_Some (trk r !! i)) ->
  exists r',
    forEach l (fun i => if bool_decide (i = id r) then ret tt else sendHeartbeat i) r
    = Ok tt r'
    /\ msgs r' = msgs r ++ heartbeats r l
    /\ (forall j, trk r' !! j = heartbeatSent r l j)
    /\ r' = set_trk (trk r') (set_msgs (msgs r') r).
Proof.
  intros Hnd. revert r. induction Hnd as [|i l Hi Hnd IH]; intros r Hall.
  - exists r. cbn. unfold ret, heartbeats, heartbeatSent. cbn.
    rewrite app_nil_r. split; [done|]. split; [done|]. split; [|done].
    intros j. destruct (trk r !! j) as [pr|]; [|done]. cbn.
    by rewrite bool_decide_eq_false_2 by (intros [Hx _]; by apply elem_of_nil in Hx).
  - rewrite forEach_cons. unfold bind.
    destruct (Hall i) as [pr Hpr]; [by left|].
    destruct (decide (i = id r)) as [Heq|Hne].
    + rewrite (bool_decide_eq_true_2 (i = id r)) by done. unfold ret.
      destruct (IH r) as (r' & Hrun & Hm & Ht & Hfr).
      { intros j Hj. apply Hall. by right. }
      exists r'. split; [exact Hrun|]. split; [|split; [|exact Hfr]].
      * rewrite Hm. unfold heartbeats. cbn.
        by rewrite (bool_decide_eq_true_2 (i = id r)) by done.
      * intros j. rewrite Ht. unfold heartbeatSent.
        destruct (trk r !! j) as [p|]; [|done]. cbn. f_equal.
        apply (f_equal (fun b : bool => if b then _ else p)).
        apply bool_decide_ext. rewrite elem_of_cons. split; [tauto|].
        intros [[->|Hj] Hid]; [done|tauto].
    + rewrite (bool_decide_eq_false_2 (i = id r)) by done.
      rewrite (sendHeartbeat_ok i pr) by done.
      set (r1 := set_trk _ _).
      destruct (IH r1) as (r' & Hrun & Hm & Ht & Hfr).
      { intros j Hj. subst r1. cbn.
        destruct (decide (i = j)) as [->|Hij]; [by rewrite lookup_insert_eq|].
        rewrite lookup_insert_ne by done. apply Hall. by right. }
      assert (Hother : forall j, j ∈ l -> trk r1 !! j = trk r !! j).
      { intros j Hj. subst r1. cbn. apply lookup_insert_ne. intros ->. done. }
      exists r'. split; [exact Hrun|]. split; [|split].
      * rewrite Hm. rewrite (heartbeats_ext r r1) by done.
        assert (Hc : heartbeats r (i :: l) = heartbeatTo r i pr :: heartbeats r l).
        { unfold heartbeats. cbn.
          rewrite (bool_decide_eq_false_2 (i = id r)) by done. by rewrite Hpr. }
        rewrite Hc. subst r1. cbn. by rewrite <- app_assoc.
      * intros j. rewrite Ht. unfold heartbeatSent.
        change (id r1) with (id r).
        change (heartbeatCommitFor r1) with (heartbeatCommitFor r).
        destruct (decide (j = i)) as [->|Hji].
        -- subst r1. cbn. rewrite lookup_insert_eq, Hpr. cbn.
           rewrite (bool_decide_eq_false_2 (i ∈ l /\ _)) by tauto.
           by rewrite (bool_decide_eq_true_2 (i ∈ i :: l /\ _)) by (split; [left|done]).
        -- replace (trk r1 !! j) with (trk r !! j)
             by (subst r1; cbn; by rewrite lookup_insert_ne).
           destruct (trk r !! j) as [p|]; [|done]. cbn. f_equal.
           apply (f_equal (fun b : bool => if b then _ else p)).
           apply bool_decide_ext. rewrite elem_of_cons. tauto.
      * rewrite Hfr at 1. subst r1. reflexivity.
Qed.

Lemma bcastHeartbeat_ok (r : raft) :
  exists r',
    bcastHeartbeat r = Ok tt r'
    /\ msgs r' = msgs r ++ heartbeats r (tracker.visitOrder (trk r))
    /\ (forall j, trk r' !! j
                  = (fun pr => if bool_decide (j <> id r)
                               then SentCommit pr (heartbeatCommitFor r pr) else pr)
                      <$> trk r !! j)
    /\ r' = set_trk (trk r') (set_msgs (msgs r') r).
Proof.
  change (bcastHeartbeat r)
    with (forEach (tracker.visitOrder (trk r))
            (fun i => if bool_decide (i = id r) then ret tt else sendHeartbeat i) r).
  assert (Hin : forall i, i ∈ tracker.visitOrder (trk r) <-> is_Some (trk r !! i)).
  { intros i. unfold tracker.visitOrder. rewrite merge_sort_Permutation.
    by rewrite elem_of_elements, elem_of_dom. }
  destruct (forEach_sendHeartbeat (tracker.visitOrder (trk r)) r)
    as (r' & Hrun & Hm & Ht & Hfr).
  { unfold tracker.visitOrder. rewrite merge_sort_Permutation. apply NoDup_elements. }
  { intros i Hi. by apply Hin. }
  exists r'. split; [done|]. split; [done|]. split; [|done].
  intros j. rewrite Ht. unfold heartbeatSent.
  destruct (trk r !! j) as [p|] eqn:Hp; [|done]. cbn. f_equal.
  apply (f_equal (fun b : bool => if b then _ else p)).
  apply bool_decide_ext. split; [tauto|]. intros Hj. split; [|done].
  apply Hin. by rewrite Hp.
Qed.

Lemma Step_beat_dispatch (m : pb.Message) (r : raft) :
  pb.m_Type m = pb.MsgBeat ->
  pb.m_Term m = 0 ->
  step r = stepLeaderFn ->
  Step m r = bind bcastHeartbeat (fun _ => ret None) r.
Proof.
  intros Hty Hterm Hstep.
  assert (Hs : Step m r = stepType m r) by (unfold Step, bind; by rewrite stepTerm_local).
  rewrite Hs. unfold stepType. rewrite Hty. run. rewrite Hstep.
  unfold stepLeader. by rewrite Hty.
Qed.

(** On [MsgBeat] the leader sends one [MsgHeartbeat] to every peer it
    tracks but itself, in increasing order of id, each with the peer's
    [Match] and with a commit index that exceeds neither the leader's nor
    that [Match]; it notes the commit index sent in the peer's progress
    and changes nothing else.  The broadcast never panics. *)
Theorem Step_beat (m : pb.Message) (r : raft) :
  pb.m_Type m = pb.MsgBeat ->
  pb.m_Term m = 0 ->
  step r = stepLeaderFn ->
  exists r',
    Step m r = Ok None r'
    /\ msgs r' = msgs r ++ heartbeats r (tracker.visitOrder (trk r))
    /\ (forall j, trk r' !! j
                  = (fun pr => if bool_decide (j <> id r)
                               then SentCommit pr (heartbeatCommitFor r pr) else pr)
                      <$> trk r !! j)
    /\ r' = set_trk (trk r') (set_msgs (msgs r') r)
    /\ (forall hb, hb ∈ heartbeats r (tracker.visitOrder (trk r)) ->
          pb.m_To hb <> id r
          /\ pb.m_Commit hb <= pb.m_Match hb
          /\ pb.m_Commit hb <= log.committed (raftLog r)).
Proof.
  intros Hty Hterm Hstep.
  rewrite Step_beat_dispatch by done. unfold bind.
  destruct (bcastHeartbeat_ok r) as (r' & Hrun & Hm & Ht & Hfr).
  rewrite Hrun. exists r'. split; [done|]. split; [done|].
  split; [done|]. split; [done|].
  intros hb Hhb. unfold heartbeats in Hhb.
  apply list_elem_of_omap in Hhb as (i & Hi & Hsome).
  case_bool_decide as Hid; [done|].
  destruct (trk r !! i) as [p|]; [|done]. cbn in Hsome. injection Hsome as <-.
  cbn. unfold heartbeatCommitFor. split; [done|]. lia.
Qed.

End Heartbeats.

(** ** Relations that computations keep *)

Section Kept.

Context (R : raft -> raft -> Prop) `{!Reflexive R} `{!Transitive R}.

(** A computation that, when it returns, leaves a replica related to the
    one it started from. *)
Definition kept {A} (c : M A) : Prop :=
  forall r a r', c r = Ok a r' -> R r r'.

Lemma kept_ret {A} (a : A) : kept (ret a).
Proof using Type*. intros r x r' [= <- <-]. reflexivity. Qed.

Lemma kept_get : kept get.
Proof using Type*. intros r x r' [= <- <-]. reflexivity. Qed.

Lemma kept_panic {A} (msg : string) : kept (@panic A msg).
Proof. intros r x r'. discriminate. Qed.

Lemma kept_outside {A} (what : string) : kept (@outside A what).
Proof. intros r x r'. discriminate. Qed.

Lemma kept_bind {A B} (c : M A) (k : A -> M B) :
  kept c -> (forall a, kept (k a)) -> kept (bind c k).
Proof using Type*.
  intros Hc Hk r b r'. unfold bind.
  destruct (c r) as [a r1| |] eqn:Hcr; try discriminate.
  intros Hkr. transitivity r1; [by eapply Hc|by eapply Hk].
Qed.

Lemma kept_forEach {A} (l : list A) (f : A -> M unit) :
  (forall x, kept (f x)) -> kept (forEach l f).
Proof using Type*.
  intros Hf. induction l as [|x l IH].
  - apply kept_ret.
  - rewrite forEach_cons. apply kept_bind; [apply Hf|intros _; apply IH].
Qed.

Lemma kept_modify (f : raft -> raft) :
  (forall r, R r (f r)) -> kept (modify f).
Proof. intros Hf r u r' [= <- <-]. apply Hf. Qed.

End Kept.

(** ** What a step leaves alone, and where it takes the commit index *)

(** The parts of the replica that no embedded method writes: its
    identity, its configuration and the settings taken from [Config], the
    lead epoch, the peers it tracks, and in the log the snapshot it starts
    after and the applied index. *)
Definition sameSetup (r r' : raft) : Prop :=
  id r' = id r
  /\ config r' = config r
  /\ isLearner r' = isLearner r
  /\ leadEpoch r' = leadEpoch r
  /\ maxMsgSize r' = maxMsgSize r
  /\ maxUncommittedSize r' = maxUncommittedSize r
  /\ disableConfChangeValidation r' = disableConfChangeValidation r
  /\ maxInflight r' = maxInflight r
  /\ maxInflightBytes r' = maxInflightBytes r
  /\ checkQuorum r' = checkQuorum r
  /\ preVote r' = preVote r
  /\ heartbeatTimeout r' = heartbeatTimeout r
  /\ electionTimeout r' = electionTimeout r
  /\ disableProposalForwarding r' = disableProposalForwarding r
  /\ stepDownOnRemoval r' = stepDownOnRemoval r
  /\ dom (trk r') = dom (trk r)
  /\ log.snap (raftLog r') = log.snap (raftLog r)
  /\ log.applied (raftLog r') = log.applied (raftLog r)
  /\ log.pendingSnapshot (raftLog r') = log.pendingSnapshot (raftLog r)
  /\ log.maxApplyingEntsSize (raftLog r') = log.maxApplyingEntsSize (raftLog r).

(** The commit index does not go down, and stays within the log if it was
    within the log. *)
Definition commitGrows (r r' : raft) : Prop :=
  log.committed (raftLog r) <= log.committed (raftLog r')
  /\ (log.committed (raftLog r) <= log.lastIndex (raftLog r) ->
      log.committed (raftLog r') <= log.lastIndex (raftLog r')).

Definition steady (r r' : raft) : Prop := sameSetup r r' /\ commitGrows r r'.

Ltac steady_solve :=
  unfold steady, sameSetup, commitGrows in *; cbn -[log.lastIndex] in *;
  repeat match goal with H : _ /\ _ |- _ => destruct H end;
  repeat split; try congruence; try lia.

#[global] Instance steady_refl : Reflexive steady.
Proof. intros r. steady_solve. Qed.

#[global] Instance steady_trans : Transitive steady.
Proof. intros r1 r2 r3 H1 H2. steady_solve. Qed.

(** A computation that, when it returns, has kept all that. *)
Abbreviation keeps := (kept steady).

Lemma keeps_ret {A} (a : A) : keeps (ret a).
Proof. exact (kept_ret steady a). Qed.

Lemma keeps_get : keeps get.
Proof. exact (kept_get steady). Qed.

Lemma keeps_panic {A} (msg : string) : keeps (@panic A msg).
Proof. apply kept_panic. Qed.

Lemma keeps_outside {A} (what : string) : keeps (@outside A what).
Proof. apply kept_outside. Qed.

Lemma keeps_bind {A B} (c : M A) (k : A -> M B) :
  keeps c -> (forall a, keeps (k a)) -> keeps (bind c k).
Proof. exact (kept_bind steady c k). Qed.

Lemma keeps_forEach {A} (l : list A) (f : A -> M unit) :
  (forall x, keeps (f x)) -> keeps (forEach l f).
Proof. exact (kept_forEach steady l f). Qed.

Lemma keeps_send (m : pb.Message) : keeps (send m).
Proof.
  intros r u r' Hs. apply send_frame in Hs. rewrite Hs. steady_solve.
Qed.

Create HintDb keeps discriminated.

#[global] Hint Resolve keeps_ret keeps_get keeps_panic keeps_outside keeps_send : keeps.

(** One step through the body of a method: a call to a method that is
    known to keep the setup is replaced by what it returns; a test is
    decided both ways. *)
Ltac steady_step :=
  match goal with
  | |- ?f ?s = Ok _ _ -> _ =>
      lazymatch f with
      | Ok _ => fail
      | _ =>
          let K := fresh "K" in
          let E := fresh "E" in
          assert (K : keeps f) by (auto with keeps);
          intros E; apply K in E; clear K
      end
  | |- context [match ?f ?s with Ok _ _ => _ | Panic _ => _ | Outside _ => _ end] =>
      let K := fresh "K" in
      let E := fresh "E" in
      assert (K : keeps f) by (auto with keeps);
      destruct (f s) as [? ?| |] eqn:E;
      [apply K in E; clear K|cbn; discriminate|cbn; discriminate]
  | |- context [if ?b then _ else _] =>
      lazymatch b with
      | context [match _ with _ => _ end] => fail
      | _ => destruct b eqn:?
      end
  | |- context [match ?x with _ => _ end] =>
      lazymatch type of x with
      | Res _ => fail
      | _ =>
          lazymatch x with
          | context [match _ with _ => _ end] => fail
          | _ => destruct x eqn:?
          end
      end
  end; cbn -[log.lastIndex]; try discriminate.

Ltac steady_run := repeat steady_step; try (intros [= <- <-]).

Lemma dom_insert_present (prs : gmap N tracker.Progress) (i : N) (pr pr' : tracker.Progress) :
  prs !! i = Some pr -> dom (<[i := pr']> prs) = dom prs.
Proof.
  intros Hi. rewrite dom_insert_L. apply elem_of_dom_2 in Hi.
  apply set_eq. intros j. rewrite elem_of_union, elem_of_singleton.
  split; [intros [->|Hj]; done|by right].
Qed.

Lemma dom_imap_total {B} (f : N -> tracker.Progress -> B) (prs : gmap N tracker.Progress) :
  dom (map_imap (fun i pr => Some (f i pr)) prs) = dom prs.
Proof.
  apply set_eq. intros j. rewrite !elem_of_dom, map_lookup_imap.
  destruct (prs !! j) as [p|]; cbn; [split; eauto|split; intros [? ?]; done].
Qed.

Lemma keeps_reset (term : N) : keeps (reset term).
Proof.
  intros r u r'. unfold reset, resetRandomizedElectionTimeout, Intn, abortLeaderTransfer.
  run. steady_run; steady_solve; apply dom_imap_total.
Qed.


#[global] Hint Resolve keeps_reset : keeps.

Lemma keeps_becomeFollower (term : N) (ld : PeerID) : keeps (becomeFollower term ld).
Proof.
  intros r u r'. unfold becomeFollower. run. steady_run. steady_solve.
Qed.

Lemma keeps_becomeCandidate : keeps becomeCandidate.
Proof.
  intros r u r'. unfold becomeCandidate. run. steady_run. steady_solve.
Qed.

Lemma keeps_becomePreCandidate : keeps becomePreCandidate.
Proof.
  intros r u r'. unfold becomePreCandidate. run. steady_run. steady_solve.
Qed.

#[global] Hint Resolve keeps_becomeFollower keeps_becomeCandidate
  keeps_becomePreCandidate : keeps.

(** The same for the log alone, over the three operations that write
    it. *)
Definition logSteady (l l' : log.raftLog) : Prop :=
  log.snap l' = log.snap l
  /\ log.applied l' = log.applied l
  /\ log.pendingSnapshot l' = log.pendingSnapshot l
  /\ log.maxApplyingEntsSize l' = log.maxApplyingEntsSize l
  /\ log.committed l <= log.committed l'
  /\ (log.committed l <= log.lastIndex l -> log.committed l' <= log.lastIndex l').

Lemma commitTo_steady (l : log.raftLog) (mark : logMark) :
  logSteady l (log.commitTo l mark).
Proof.
  unfold logSteady, log.commitTo.
  destruct (_ && _) eqn:Hb; cbn; [|repeat split; lia || done].
  apply andb_true_iff in Hb as [_ Hb]. apply bool_decide_eq_true in Hb.
  repeat split; try done; try lia.
  intros _. unfold log.lastIndex. cbn. apply N.le_min_r.
Qed.

Lemma append_steady (l l' : log.raftLog) (a : logSlice) (ok : bool) :
  log.append l a = (l', ok) -> logSteady l l'.
Proof.
  unfold logSteady, log.append.
  case_bool_decide; [intros [= <- <-]; repeat split; lia || done|].
  case_bool_decide; intros [= <- <-]; cbn; repeat split; try done; try lia.
  unfold log.lastIndex. cbn. rewrite length_app. lia.
Qed.

Lemma maybeAppend_steady (l l' : log.raftLog) (a : logSlice) (ok : bool) :
  log.committed l <= eid_index (ls_prev a) ->
  log.maybeAppend l a = (l', ok) -> logSteady l l'.
Proof.
  intros Hprev. unfold logSteady, log.maybeAppend.
  destruct (log.matchTerm l (ls_prev a)) eqn:Hm; cbn;
    [|intros [= <- <-]; repeat split; lia || done].
  destruct (ls_prev a) as [pt pi] eqn:Hp. cbn in *.
  apply matchTerm_term in Hm.
  pose proof (term_ok_le_last _ _ _ Hm) as Hle.
  pose proof (term_ok_ge_snap _ _ _ Hm) as Hge.
  destruct (drop _ _) as [|e tl] eqn:Hd; intros [= <- <-]; cbn;
    repeat split; try done; try lia.
  intros _. unfold log.lastIndex in *. cbn.
  rewrite length_app, length_take. cbn. lia.
Qed.

Lemma dom_insert_in (prs : gmap N tracker.Progress) (i : N) (pr : tracker.Progress) :
  i ∈ dom prs -> dom (<[i := pr]> prs) = dom prs.
Proof.
  intros Hi. rewrite dom_insert_L.
  apply set_eq. intros j. rewrite elem_of_union, elem_of_singleton.
  split; [intros [->|Hj]; done|by right].
Qed.

(** A peer that was looked up is tracked, also after steps that keep the
    tracked peers. *)
Ltac dom_side :=
  first
    [ assumption
    | match goal with
      | H : dom ?a = dom ?b |- _ ∈ dom ?a => rewrite H; dom_side
      end ].

Ltac steady_solve ::=
  unfold steady, sameSetup, commitGrows, logSteady in *; cbn -[log.lastIndex] in *;
  repeat match goal with H : _ /\ _ |- _ => destruct H end;
  repeat match goal with
         | H : ?m !! ?i = Some _ |- _ => apply elem_of_dom_2 in H
         end;
  repeat match goal with
         | H : context [dom (<[?i := ?x]> ?m)] |- _ =>
             rewrite (dom_insert_in m i x) in H by dom_side
         | |- context [dom (<[?i := ?x]> ?m)] =>
             rewrite (dom_insert_in m i x) by dom_side
         | H : context [dom (map_imap (fun i pr => Some (@?f i pr)) ?m)] |- _ =>
             rewrite (dom_imap_total f m) in H
         | |- context [dom (map_imap (fun i pr => Some (@?f i pr)) ?m)] =>
             rewrite (dom_imap_total f m)
         end;
  repeat split; try congruence; try lia.

Lemma keeps_maybeCommit : keeps maybeCommit.
Proof.
  intros r b r'. unfold maybeCommit. run. steady_run;
    match goal with
    | |- context [log.commitTo ?l ?mk] => pose proof (commitTo_steady l mk)
    | _ => idtac
    end; steady_solve.
Qed.

Lemma keeps_appendEntry (es : list pb.Entry) : keeps (appendEntry es).
Proof.
  intros r b r'. unfold appendEntry, increaseUncommittedSize. run.
  steady_run;
    try match goal with
    | H : log.append _ _ = _ |- _ => apply append_steady in H
    end;
    steady_solve.
Qed.

#[global] Hint Resolve keeps_maybeCommit keeps_appendEntry : keeps.

Lemma keeps_becomeLeader : keeps becomeLeader.
Proof.
  intros r u r'. unfold becomeLeader. run.
  steady_run; steady_solve.
Qed.

Lemma keeps_poll (i : PeerID) (t : pb.MessageType) (v : bool) : keeps (poll i t v).
Proof. intros r u r'. unfold poll. run. steady_run. steady_solve. Qed.

Lemma keeps_campaign (t : CampaignType) : keeps (campaign t).
Proof.
  unfold campaign.
  apply keeps_bind.
  - destruct (bool_decide _); (apply keeps_bind; [auto with keeps|intros _]);
      (apply keeps_bind; [auto with keeps|intros ?]); apply keeps_ret.
  - intros [voteMsg term]. apply keeps_bind; [auto with keeps|intros r0].
    apply keeps_forEach. intros i. unfold campaignSend.
    apply keeps_bind; [auto with keeps|intros r1].
    destruct (bool_decide _); [destruct (voteRespMsgType _)|]; auto with keeps.
Qed.

Lemma keeps_handleAppendEntries (m : pb.Message) : keeps (handleAppendEntries m).
Proof.
  intros r u r'. unfold handleAppendEntries, checkMatch. run.
  steady_run;
    try match goal with
    | H : log.maybeAppend _ _ = _ |- _ =>
        apply maybeAppend_steady in H;
        [|cbn; match goal with Hc : bool_decide _ = false |- _ =>
                 apply bool_decide_eq_false in Hc; cbn in Hc; lia end]
    end;
    try match goal with
    | |- context [log.commitTo ?l ?mk] => pose proof (commitTo_steady l mk)
    | H : context [log.commitTo ?l ?mk] |- _ => pose proof (commitTo_steady l mk)
    end;
    steady_solve.
Qed.

Lemma keeps_handleHeartbeat (m : pb.Message) : keeps (handleHeartbeat m).
Proof.
  intros r u r'. unfold handleHeartbeat, checkMatch. run.
  steady_run;
    try match goal with
    | |- context [log.commitTo ?l ?mk] => pose proof (commitTo_steady l mk)
    | H : context [log.commitTo ?l ?mk] |- _ => pose proof (commitTo_steady l mk)
    end;
    steady_solve.
Qed.

#[global] Hint Resolve keeps_becomeLeader keeps_poll keeps_campaign
  keeps_handleAppendEntries keeps_handleHeartbeat : keeps.

Lemma keeps_modify (f : raft -> raft) :
  (forall r, steady r (f r)) -> keeps (modify f).
Proof. apply kept_modify. Qed.

(** One step through a body that never reads back what it has written. *)
Ltac keeps_step :=
  first
    [ solve [auto with keeps]
    | apply keeps_bind; [|intros ?]
    | apply keeps_forEach; intros ?
    | apply keeps_modify; intros ?; steady_solve
    | match goal with
      | |- keeps (if ?b then _ else _) => destruct b
      | |- keeps (match ?x with _ => _ end) => destruct x
      end ].

Ltac keeps_all := repeat keeps_step.

Section KeepsWithExternal.

Context `{External}.

Lemma keeps_hup (t : CampaignType) : keeps (hup t).
Proof. unfold hup, hasUnappliedConfChanges. keeps_all. Qed.

Lemma keeps_maybeSendSnapshot (to : PeerID) (pr : tracker.Progress) (r0 : raft) :
  trk r0 !! to = Some pr ->
  forall a r', maybeSendSnapshot to pr r0 = Ok a r' -> steady r0 r'.
Proof.
  intros Hpr a r'. unfold maybeSendSnapshot. run. steady_run; steady_solve.
Qed.

Lemma keeps_sendAppend (to : PeerID) (pr : tracker.Progress)
    (prevIndex prevTerm commit : N) (entries : list pb.Entry) (r0 : raft) :
  trk r0 !! to = Some pr ->
  forall a r', sendAppend to pr prevIndex prevTerm commit entries r0 = Ok a r' ->
               steady r0 r'.
Proof.
  intros Hpr a r'. unfold sendAppend. run. steady_run; steady_solve.
Qed.

Lemma keeps_maybeSendAppend (to : PeerID) : keeps (maybeSendAppend to).
Proof.
  intros r a r'. unfold maybeSendAppend. run.
  destruct (trk r !! to) as [pr|] eqn:Hpr; [|discriminate].
  repeat match goal with
         | |- context [if ?b then _ else _] =>
             lazymatch b with
             | context [match _ with _ => _ end] => fail
             | _ => destruct b eqn:?
             end
         | |- context [match ?x with _ => _ end] =>
             lazymatch type of x with
             | Res _ => fail
             | _ =>
                 lazymatch x with
                 | context [match _ with _ => _ end] => fail
                 | _ => destruct x eqn:?
                 end
             end
         end;
    try (intros [= <- <-]; reflexivity);
    first [ by apply keeps_sendAppend | by apply keeps_maybeSendSnapshot ].
Qed.

Lemma keeps_sendHeartbeat (to : PeerID) : keeps (sendHeartbeat to).
Proof.
  intros r a r'. unfold sendHeartbeat. run. steady_run; steady_solve.
Qed.

#[local] Hint Resolve keeps_hup keeps_maybeSendAppend keeps_sendHeartbeat : keeps.

Lemma keeps_bcastAppend : keeps bcastAppend.
Proof. unfold bcastAppend. keeps_all. Qed.

Lemma keeps_bcastHeartbeat : keeps bcastHeartbeat.
Proof. unfold bcastHeartbeat. keeps_all. Qed.

Lemma keeps_proposeEntries (es : list pb.Entry) (i : nat) :
  keeps (proposeEntries i es).
Proof.
  revert i. induction es as [|e es IH]; intros i.
  - apply keeps_ret.
  - rewrite proposeEntries_cons.
    apply keeps_bind; [unfold proposeEntry, decodeConfChange; keeps_all|].
    intros e'. apply keeps_bind; [apply IH|]. intros es'. apply keeps_ret.
Qed.

#[local] Hint Resolve keeps_bcastAppend keeps_bcastHeartbeat keeps_proposeEntries : keeps.

Lemma keeps_stepLeader (m : pb.Message) : keeps (stepLeader m).
Proof.
  unfold stepLeader.
  destruct (pb.m_Type m); keeps_all;
    try (intros r0 u r' [= <- <-]; steady_solve).
Qed.

Lemma keeps_stepCandidate (m : pb.Message) : keeps (stepCandidate m).
Proof. unfold stepCandidate. keeps_all. Qed.

Lemma keeps_stepFollower (m : pb.Message) : keeps (stepFollower m).
Proof. unfold stepFollower. keeps_all. Qed.

#[local] Hint Resolve keeps_stepLeader keeps_stepCandidate keeps_stepFollower : keeps.

Lemma keeps_Step (m : pb.Message) : keeps (Step m).
Proof. unfold Step, stepTerm, stepType, stepVote. keeps_all. Qed.

End KeepsWithExternal.

(** Whatever message it is given, a [Step] that returns has changed none
    of: the replica's id, its configuration and learner flag, the lead
    epoch, the settings taken from [Config] (sizes, in-flight limits,
    timeouts, [checkQuorum], [preVote] and the other switches), the set of
    peers it tracks, and the snapshot position and applied index of its
    log. *)
Theorem Step_keeps_setup `{External} (m : pb.Message) (r r' : raft) (e : option error) :
  Step m r = Ok e r' -> sameSetup r r'.
Proof. intros Hrun. by apply keeps_Step in Hrun as [Hs _]. Qed.

(** Whatever message it is given, a [Step] that returns has not lowered
    the commit index; if the commit index was within the log it still is,
    and if the applied index was not beyond the commit index it still
    is not. *)
Theorem Step_commit_grows `{External} (m : pb.Message) (r r' : raft) (e : option error) :
  Step m r = Ok e r' ->
  log.committed (raftLog r) <= log.committed (raftLog r')
  /\ (log.committed (raftLog r) <= log.lastIndex (raftLog r) ->
      log.committed (raftLog r') <= log.lastIndex (raftLog r'))
  /\ (log.applied (raftLog r) <= log.committed (raftLog r) ->
      log.applied (raftLog r') <= log.committed (raftLog r')).
Proof.
  intros Hrun. apply keeps_Step in Hrun as [Hs [Hc Hl]].
  split; [done|]. split; [done|].
  destruct Hs as (_ & _ & _ & _ & _ & _ & _ & _ & _ & _ & _ & _ & _ & _ & _ & _ & _ & Ha & _).
  rewrite Ha. lia.
Qed.

(** ** The term over a step *)

Definition sameTerm (r r' : raft) : Prop := Term r' = Term r.

#[global] Instance sameTerm_refl : Reflexive sameTerm.
Proof. by intros r. Qed.

#[global] Instance sameTerm_trans : Transitive sameTerm.
Proof. unfold sameTerm. intros r1 r2 r3 H1 H2. congruence. Qed.

Create HintDb sameTerm discriminated.

Lemma sameTerm_send (m : pb.Message) : kept sameTerm (send m).
Proof. intros r u r' Hs. apply send_frame in Hs. by rewrite Hs. Qed.

#[global] Hint Resolve sameTerm_send : sameTerm.
#[global] Hint Extern 0 (kept sameTerm (ret _)) => exact (kept_ret sameTerm _) : sameTerm.
#[global] Hint Extern 0 (kept sameTerm get) => exact (kept_get sameTerm) : sameTerm.
#[global] Hint Extern 0 (kept sameTerm (panic _)) => apply kept_panic : sameTerm.
#[global] Hint Extern 0 (kept sameTerm (outside _)) => apply kept_outside : sameTerm.

(** One step through a body that leaves the term alone. *)
Ltac sameTerm_step :=
  first
    [ solve [auto with sameTerm]
    | apply (kept_bind sameTerm); [|intros ?]
    | apply (kept_forEach sameTerm); intros ?
    | apply kept_modify; intros ?; reflexivity
    | match goal with
      | |- kept _ (if ?b then _ else _) => destruct b
      | |- kept _ (match ?x with _ => _ end) => destruct x
      end ].

Ltac sameTerm_all := repeat sameTerm_step.

Lemma sameTerm_appendEntry (es : list pb.Entry) : kept sameTerm (appendEntry es).
Proof. unfold appendEntry, increaseUncommittedSize. sameTerm_all. Qed.

Lemma sameTerm_maybeCommit : kept sameTerm maybeCommit.
Proof. unfold maybeCommit. sameTerm_all. Qed.

Lemma sameTerm_handleAppendEntries (m : pb.Message) : kept sameTerm (handleAppendEntries m).
Proof. unfold handleAppendEntries, checkMatch. sameTerm_all. Qed.

Lemma sameTerm_handleHeartbeat (m : pb.Message) : kept sameTerm (handleHeartbeat m).
Proof. unfold handleHeartbeat, checkMatch. sameTerm_all. Qed.

Lemma sameTerm_becomePreCandidate : kept sameTerm becomePreCandidate.
Proof. unfold becomePreCandidate. sameTerm_all. Qed.

Lemma sameTerm_poll (i : PeerID) (t : pb.MessageType) (v : bool) :
  kept sameTerm (poll i t v).
Proof. unfold poll. sameTerm_all. Qed.

#[global] Hint Resolve sameTerm_appendEntry sameTerm_maybeCommit
  sameTerm_handleAppendEntries sameTerm_handleHeartbeat
  sameTerm_becomePreCandidate sameTerm_poll : sameTerm.

(** [reset] and the transitions set the term they are given. *)
Lemma reset_Term (term : N) (r r' : raft) (u : unit) :
  reset term r = Ok u r' -> Term r' = term.
Proof.
  unfold reset, resetRandomizedElectionTimeout, Intn, abortLeaderTransfer. run.
  destruct (bool_decide (Term r <> term)) eqn:Ht; cbn;
    destruct (bool_decide (electionTimeout r <= 0)%Z); cbn; try discriminate;
    destruct (globalRand r); cbn; intros [= <- <-]; cbn; try reflexivity;
    apply bool_decide_eq_false in Ht; by apply dec_stable in Ht.
Qed.

Lemma becomeFollower_Term (term : N) (ld : PeerID) (r r' : raft) (u : unit) :
  becomeFollower term ld r = Ok u r' -> Term r' = term.
Proof.
  unfold becomeFollower. run.
  destruct (reset term _) as [x r1| |] eqn:E; try discriminate.
  apply reset_Term in E. by intros [= <- <-].
Qed.

Lemma becomeCandidate_Term (r r' : raft) (u : unit) :
  becomeCandidate r = Ok u r' -> Term r' = u64 (Term r + 1).
Proof.
  unfold becomeCandidate. run. destruct (bool_decide _); [discriminate|]. cbn.
  destruct (reset _ _) as [x r1| |] eqn:E; try discriminate.
  apply reset_Term in E. by intros [= <- <-].
Qed.

Lemma becomeLeader_Term (r r' : raft) (u : unit) :
  becomeLeader r = Ok u r' -> Term r' = Term r.
Proof.
  unfold becomeLeader. run. destruct (bool_decide _); [discriminate|]. cbn.
  destruct (reset _ _) as [x r1| |] eqn:E; try discriminate.
  apply reset_Term in E. cbn.
  destruct (trk r1 !! id r1); [|discriminate].
  destruct (appendEntry _ _) as [b r2| |] eqn:Ea; try discriminate.
  apply sameTerm_appendEntry in Ea. unfold sameTerm in Ea. cbn in Ea.
  destruct b; cbn; [|discriminate]. intros [= <- <-]. congruence.
Qed.

(** The term after a campaign: the same in a pre-election, the next one
    otherwise. *)
Lemma campaign_Term (t : CampaignType) (r r' : raft) (u : unit) :
  campaign t r = Ok u r' ->
  Term r' = if bool_decide (t = campaignPreElection) then Term r else u64 (Term r + 1).
Proof.
  unfold campaign. unfold bind at 1.
  assert (Hloop : forall voteMsg term r1,
            kept sameTerm (forEach
              (merge_sort N.le (elements (quorum.IDs (quorum.Voters (config r1)))))
              (campaignSend t voteMsg term))).
  { intros voteMsg term r1. apply (kept_forEach sameTerm). intros i.
    unfold campaignSend. sameTerm_all. }
  destruct (bool_decide (t = campaignPreElection)); run.
  - destruct (becomePreCandidate r) as [x r1| |] eqn:E; try discriminate.
    apply sameTerm_becomePreCandidate in E. intros Hl. apply Hloop in Hl.
    unfold sameTerm in *. congruence.
  - destruct (becomeCandidate r) as [x r1| |] eqn:E; try discriminate.
    apply becomeCandidate_Term in E. intros Hl. apply Hloop in Hl.
    unfold sameTerm in *. congruence.
Qed.

(** The messages that only a leader sends. *)
Definition fromLeader (t : pb.MessageType) : Prop :=
  t = pb.MsgApp \/ t = pb.MsgHeartbeat \/ t = pb.MsgSnap.

#[global] Instance fromLeader_dec t : Decision (fromLeader t).
Proof. unfold fromLeader. apply _. Defined.

Section TermWithExternal.

Context `{External}.

Lemma sameTerm_hasUnappliedConfChanges : kept sameTerm hasUnappliedConfChanges.
Proof. unfold hasUnappliedConfChanges. sameTerm_all. Qed.

Lemma sameTerm_maybeSendAppend (to : PeerID) : kept sameTerm (maybeSendAppend to).
Proof. unfold maybeSendAppend, maybeSendSnapshot, sendAppend. sameTerm_all. Qed.

Lemma sameTerm_sendHeartbeat (to : PeerID) : kept sameTerm (sendHeartbeat to).
Proof. unfold sendHeartbeat. sameTerm_all. Qed.

#[local] Hint Resolve sameTerm_hasUnappliedConfChanges sameTerm_maybeSendAppend
  sameTerm_sendHeartbeat : sameTerm.

Lemma sameTerm_bcastAppend : kept sameTerm bcastAppend.
Proof. unfold bcastAppend. sameTerm_all. Qed.

Lemma sameTerm_bcastHeartbeat : kept sameTerm bcastHeartbeat.
Proof. unfold bcastHeartbeat. sameTerm_all. Qed.

Lemma sameTerm_proposeEntries (es : list pb.Entry) (i : nat) :
  kept sameTerm (proposeEntries i es).
Proof.
  revert i. induction es as [|e es IH]; intros i.
  - apply (kept_ret sameTerm).
  - rewrite proposeEntries_cons.
    apply (kept_bind sameTerm); [unfold proposeEntry, decodeConfChange; sameTerm_all|].
    intros e'. apply (kept_bind sameTerm); [apply IH|]. intros es'.
    apply (kept_ret sameTerm).
Qed.

Lemma sameTerm_stepVote (m : pb.Message) : kept sameTerm (stepVote m).
Proof. unfold stepVote. sameTerm_all. Qed.

#[local] Hint Resolve sameTerm_bcastAppend sameTerm_bcastHeartbeat
  sameTerm_proposeEntries sameTerm_stepVote : sameTerm.

(** The term after [hup]: the same, or the next one. *)
Lemma hup_Term (t : CampaignType) (r r' : raft) (u : unit) :
  hup t r = Ok u r' -> Term r' = Term r \/ Term r' = u64 (Term r + 1).
Proof.
  unfold hup. run.
  destruct (bool_decide _); cbn; [intros [= <- <-]; by left|].
  destruct (negb _); cbn; [intros [= <- <-]; by left|].
  destruct (hasUnappliedConfChanges r) as [b r1| |] eqn:E; try discriminate.
  apply sameTerm_hasUnappliedConfChanges in E. unfold sameTerm in E.
  destruct b; [intros [= <- <-]; by left|].
  intros Hc. apply campaign_Term in Hc. rewrite E in Hc.
  destruct (bool_decide _); tauto.
Qed.

Lemma stepLeader_Term (m : pb.Message) (r r' : raft) (e : option error) :
  stepLeader m r = Ok e r' -> Term r' = Term r.
Proof.
  unfold stepLeader.
  destruct (pb.m_Type m);
    try (revert r e r'; change (kept sameTerm
           (r0 <- get ;;
            match trk r0 !! pb.m_From m with
            | Some _ => ret None
            | None => ret None
            end)); sameTerm_all; fail).
  all: try (revert r e r'; fold (sameTerm); match goal with
            | |- forall r e r', ?c r = Ok e r' -> _ =>
                change (kept sameTerm c) end; sameTerm_all; fail).
  (* MsgCheckQuorum *)
  run. destruct (negb _); cbn.
  - destruct (becomeFollower _ _ r) as [x r1| |] eqn:E; try discriminate.
    apply becomeFollower_Term in E. by intros [= <- <-].
  - by intros [= <- <-].
Qed.

Lemma stepFollower_Term (m : pb.Message) (r r' : raft) (e : option error) :
  stepFollower m r = Ok e r' -> Term r' = Term r \/ Term r' = u64 (Term r + 1).
Proof.
  unfold stepFollower. unfold bind at 1, get at 1.
  destruct (pb.m_Type m);
    try (intros Hrun; left; revert Hrun;
         match goal with
         | |- ?c r = Ok e r' -> _ =>
             let K := fresh in
             assert (K : kept sameTerm c) by sameTerm_all;
             apply K
         end).
  (* MsgTimeoutNow *)
  run. destruct (hup _ r) as [x r1| |] eqn:E; try discriminate.
  apply hup_Term in E. by intros [= <- <-].
Qed.

Lemma stepCandidate_Term (m : pb.Message) (r r' : raft) (e : option error) :
  stepCandidate m r = Ok e r' ->
  Term r' = Term r \/ Term r' = u64 (Term r + 1)
  \/ (fromLeader (pb.m_Type m) /\ Term r' = pb.m_Term m).
Proof.
  unfold stepCandidate. run.
  destruct (bool_decide (pb.m_Type m = pb.MsgProp)); [intros [= <- <-]; by left|].
  destruct (bool_decide (pb.m_Type m = pb.MsgApp)) eqn:Happ.
  { apply bool_decide_eq_true in Happ. cbn.
    destruct (becomeFollower _ _ r) as [x r1| |] eqn:E; try discriminate.
    apply becomeFollower_Term in E.
    destruct (handleAppendEntries m r1) as [y r2| |] eqn:Eh; try discriminate.
    apply sameTerm_handleAppendEntries in Eh. unfold sameTerm in Eh.
    intros [= <- <-]. right. right. split; [by left|congruence]. }
  destruct (bool_decide (pb.m_Type m = pb.MsgHeartbeat)) eqn:Hhb.
  { apply bool_decide_eq_true in Hhb. cbn.
    destruct (becomeFollower _ _ r) as [x r1| |] eqn:E; try discriminate.
    apply becomeFollower_Term in E.
    destruct (handleHeartbeat m r1) as [y r2| |] eqn:Eh; try discriminate.
    apply sameTerm_handleHeartbeat in Eh. unfold sameTerm in Eh.
    intros [= <- <-]. right. right. split; [right; by left|congruence]. }
  destruct (bool_decide (pb.m_Type m = pb.MsgSnap)).
  { cbn. by destruct (becomeFollower _ _ r). }
  match goal with
  | |- context [bool_decide (pb.m_Type m = (if ?b then ?x else ?y))] =>
      destruct (bool_decide (pb.m_Type m = (if b then x else y)))
  end; cbn; [|intros [= <- <-]; by left].
  destruct (poll _ _ _ r) as [[[gr rj] res] r1| |] eqn:Ep; [|discriminate..].
  apply sameTerm_poll in Ep. unfold sameTerm in Ep.
  destruct res; cbn.
  - intros [= <- <-]. by left.
  - destruct (becomeFollower _ _ r1) as [x r2| |] eqn:E; try discriminate.
    apply becomeFollower_Term in E. intros [= <- <-]. left. congruence.
  - destruct (bool_decide (state r1 = StatePreCandidate)); cbn.
    + destruct (campaign _ r1) as [x r2| |] eqn:E; try discriminate.
      apply campaign_Term in E. rewrite bool_decide_eq_false_2 in E by done.
      intros [= <- <-]. right. left. congruence.
    + destruct (becomeLeader r1) as [x r2| |] eqn:E; try discriminate.
      apply becomeLeader_Term in E.
      destruct (bcastAppend r2) as [y r3| |] eqn:Eb; try discriminate.
      apply sameTerm_bcastAppend in Eb. unfold sameTerm in Eb.
      intros [= <- <-]. left. congruence.
Qed.

(** The first switch of [Step]: either the term stays, and a message that
    goes on to the second switch then has no term, the replica's term, or
    a later term without being a leader's message; or the replica adopts
    the later term of the message. *)
Lemma stepTerm_Term (m : pb.Message) (r r1 : raft) (d : bool) :
  stepTerm m r = Ok d r1 ->
  (Term r1 = Term r
   /\ (d = false ->
       pb.m_Term m = 0 \/ pb.m_Term m = Term r
       \/ (Term r < pb.m_Term m /\ ~ fromLeader (pb.m_Type m))))
  \/ (Term r < pb.m_Term m /\ Term r1 = pb.m_Term m).
Proof.
  unfold stepTerm. run.
  case_bool_decide as H0; [intros [= <- <-]; left; tauto|].
  case_bool_decide as Hgt.
  - destruct (_ && _); cbn; [intros [= <- <-]; left; split; [done|discriminate]|].
    destruct (bool_decide (pb.m_Type m = pb.MsgPreVote)) eqn:Hpv; cbn.
    { apply bool_decide_eq_true in Hpv. intros [= <- <-]. left. split; [done|].
      intros _. right. right. split; [done|]. unfold fromLeader. rewrite Hpv.
      intros Hx. decompose [or] Hx; discriminate. }
    destruct (bool_decide (pb.m_Type m = pb.MsgPreVoteResp) && _) eqn:Hpr; cbn.
    { apply andb_true_iff in Hpr as [Hpr _]. apply bool_decide_eq_true in Hpr.
      intros [= <- <-]. left. split; [done|].
      intros _. right. right. split; [done|]. unfold fromLeader. rewrite Hpr.
      intros Hx. decompose [or] Hx; discriminate. }
    destruct (_ || _); cbn;
      (destruct (becomeFollower _ _ r) as [x r2| |] eqn:E; try discriminate;
       apply becomeFollower_Term in E; intros [= <- <-]; right; by split).
  - case_bool_decide as Hlt.
    + destruct (_ && _); cbn.
      * destruct (send _ r) as [x r2| |] eqn:E; try discriminate.
        apply sameTerm_send in E. intros [= <- <-]. left. split; [done|discriminate].
      * destruct (bool_decide _); cbn.
        -- destruct (send _ r) as [x r2| |] eqn:E; try discriminate.
           apply sameTerm_send in E. intros [= <- <-]. left. split; [done|discriminate].
        -- intros [= <- <-]. left. split; [done|discriminate].
    + intros [= <- <-]. left. split; [done|]. intros _. right. left. lia.
Qed.

Lemma stepType_Term (m : pb.Message) (r r' : raft) (e : option error) :
  stepType m r = Ok e r' ->
  Term r' = Term r \/ Term r' = u64 (Term r + 1)
  \/ (fromLeader (pb.m_Type m) /\ Term r' = pb.m_Term m).
Proof.
  unfold stepType.
  assert (Hdisp : forall r0,
            match step r0 with
            | stepFollowerFn => stepFollower m
            | stepCandidateFn => stepCandidate m
            | stepLeaderFn => stepLeader m
            end r0 = Ok e r' ->
            Term r' = Term r0 \/ Term r' = u64 (Term r0 + 1)
            \/ (fromLeader (pb.m_Type m) /\ Term r' = pb.m_Term m)).
  { intros r0. destruct (step r0); intros Hrun.
    - apply stepFollower_Term in Hrun. tauto.
    - by apply stepCandidate_Term in Hrun.
    - apply stepLeader_Term in Hrun. tauto. }
  destruct (pb.m_Type m) eqn:Hty; run; try (apply Hdisp); try discriminate.
  - (* MsgHup *)
    destruct (preVote r);
      (destruct (hup _ r) as [x r1| |] eqn:E; try discriminate;
       apply hup_Term in E; intros [= <- <-]; tauto).
  - destruct (stepVote m r) as [x r1| |] eqn:E; try discriminate.
    apply sameTerm_stepVote in E. intros [= <- <-]. by left.
  - destruct (stepVote m r) as [x r1| |] eqn:E; try discriminate.
    apply sameTerm_stepVote in E. intros [= <- <-]. by left.
Qed.

End TermWithExternal.

(** A [Step] that returns has not lowered the term, and has raised it at
    most to one more than the larger of the replica's term and the
    message's.  This holds as long as neither term is the largest
    [uint64], on which the next term wraps around to zero, and the message
    is not a leader's message ([MsgApp], [MsgHeartbeat], [MsgSnap]) without
    a term, which would take a candidate back to term zero. *)
Theorem Step_term_grows `{External} (m : pb.Message) (r r' : raft) (e : option error) :
  Term r < MaxUint64 ->
  pb.m_Term m < MaxUint64 ->
  (pb.m_Term m = 0 -> ~ fromLeader (pb.m_Type m)) ->
  Step m r = Ok e r' ->
  Term r <= Term r' <= N.max (Term r) (pb.m_Term m) + 1.
Proof.
  intros Hr Hm Hlocal. unfold Step. unfold bind.
  destruct (stepTerm m r) as [d r1| |] eqn:Et; try discriminate.
  apply stepTerm_Term in Et.
  destruct d.
  { intros [= <- <-]. destruct Et as [[-> _]|[Hlt ->]]; lia. }
  intros Hty. apply stepType_Term in Hty.
  assert (Hu : forall x, x < MaxUint64 -> u64 (x + 1) = x + 1)
    by (intros x Hx; apply u64_small; lia).
  destruct Et as [[Heq Hd]|[Hlt Heq]].
  - rewrite Heq in Hty. rewrite Hu in Hty by done.
    destruct Hty as [->|[->|[Hfl ->]]]; [lia|lia|].
    destruct (Hd eq_refl) as [H0|[->|[_ Hn]]]; [by apply Hlocal in H0|lia|done].
  - rewrite Heq in Hty. rewrite Hu in Hty by done.
    destruct Hty as [->|[->|[Hfl ->]]]; lia.
Qed.

(** ** Ticks (lines 824-863 and 2024-2026) *)

(** [pastElectionTimeout] (lines 2024-2026). *)
Definition pastElectionTimeout (r : raft) : bool :=
  bool_decide (randomizedElectionTimeout r <= electionElapsed r)%Z.

(** The literal [pb.Message{From: r.id, Type: t}] of the tick functions. *)
Definition localMsg (from : PeerID) (t : pb.MessageType) : pb.Message :=
  pb.set_From from (pb.Message0 t).

Section Ticks.

Context `{External}.

(** [tickElection] (lines 824-833); the name itself is taken by the value
    of the field [tick].  The error that [Step] returns is logged and
    dropped. *)
Definition runTickElection : M unit :=
  modify (fun r => set_electionElapsed (i64 (electionElapsed r + 1)) r) ;;
  r <- get ;;
  if promotable r && pastElectionTimeout r
  then
    modify (set_electionElapsed 0%Z) ;;
    _ <- Step (localMsg (id r) pb.MsgHup) ;;
    ret tt
  else ret tt.

(** [tickHeartbeat] (lines 836-863), in its two parts: what happens when
    the election timeout has passed (lines 840-851), and the heartbeat
    (lines 853-862). *)
Definition tickHeartbeat_timeout : M unit :=
  r <- get ;;
  if bool_decide (electionTimeout r <= electionElapsed r)%Z
  then
    modify (set_electionElapsed 0%Z) ;;
    (if checkQuorum r
     then _ <- Step (localMsg (id r) pb.MsgCheckQuorum) ;; ret tt
     else ret tt) ;;
    r <- get ;;
    if bool_decide (state r = StateLeader) && bool_decide (leadTransferee r <> NoneID)
    then abortLeaderTransfer
    else ret tt
  else ret tt.

Definition tickHeartbeat_beat : M unit :=
  r <- get ;;
  if bool_decide (state r <> StateLeader) then ret tt
  else if bool_decide (heartbeatTimeout r <= heartbeatElapsed r)%Z
  then
    modify (set_heartbeatElapsed 0%Z) ;;
    _ <- Step (localMsg (id r) pb.MsgBeat) ;;
    ret tt
  else ret tt.

Definition runTickHeartbeat : M unit :=
  modify (fun r => set_heartbeatElapsed (i64 (heartbeatElapsed r + 1)) r) ;;
  modify (fun r => set_electionElapsed (i64 (electionElapsed r + 1)) r) ;;
  tickHeartbeat_timeout ;;
  tickHeartbeat_beat.

(** The call [r.tick()], and [n] of them in a row. *)
Definition runTick : M unit :=
  r <- get ;;
  match tick r with
  | tickElection => runTickElection
  | tickHeartbeat => runTickHeartbeat
  end.

Fixpoint ticks (n : nat) : M unit :=
  match n with
  | O => ret tt
  | S k => runTick ;; ticks k
  end.

End Ticks.

#[global] Arguments promotable : simpl never.
#[global] Arguments runTickElection : simpl never.
#[global] Arguments runTickHeartbeat : simpl never.
#[global] Arguments tickHeartbeat_timeout : simpl never.
#[global] Arguments tickHeartbeat_beat : simpl never.
#[global] Arguments runTick : simpl never.

Definition MaxInt : Z := 9223372036854775807.

Section TickProperties.

Context `{External}.

Lemma runTickElection_waits (r : raft) :
  (0 <= electionElapsed r < MaxInt)%Z ->
  promotable r = false
  \/ (electionElapsed r + 1 < randomizedElectionTimeout r)%Z ->
  runTickElection r = Ok tt (set_electionElapsed (electionElapsed r + 1) r).
Proof.
  intros Hr Hwhy. unfold runTickElection, pastElectionTimeout. run.
  rewrite i64_small by (unfold MaxInt in Hr; lia).
  change (promotable (set_electionElapsed _ r)) with (promotable r).
  destruct (promotable r) eqn:Hp; cbn; [|done].
  destruct Hwhy as [|Hlt]; [done|].
  by rewrite bool_decide_eq_false_2 by lia.
Qed.

Lemma runTickElection_fires (r : raft) :
  (0 <= electionElapsed r < MaxInt)%Z ->
  promotable r = true ->
  (randomizedElectionTimeout r <= electionElapsed r + 1)%Z ->
  runTickElection r
  = bind (Step (localMsg (id r) pb.MsgHup)) (fun _ => ret tt) (set_electionElapsed 0%Z r).
Proof.
  intros Hr Hp Hge. unfold runTickElection, pastElectionTimeout. run.
  rewrite i64_small by (unfold MaxInt in Hr; lia).
  change (promotable (set_electionElapsed _ r)) with (promotable r).
  rewrite Hp. cbn. by rewrite bool_decide_eq_true_2 by lia.
Qed.

Lemma ticks_S (n : nat) : ticks (S n) = bind runTick (fun _ => ticks n).
Proof. reflexivity. Qed.

Lemma ticks_count (n : nat) (r : raft) :
  tick r = tickElection ->
  (0 <= electionElapsed r)%Z ->
  (electionElapsed r + Z.of_nat n <= MaxInt)%Z ->
  promotable r = false
  \/ (electionElapsed r + Z.of_nat n < randomizedElectionTimeout r)%Z ->
  ticks n r = Ok tt (set_electionElapsed (electionElapsed r + Z.of_nat n) r).
Proof.
  revert r. induction n as [|n IH]; intros r Htick H0 Hmax Hwhy.
  - cbn. unfold ret. f_equal. by rewrite Z.add_0_r.
  - rewrite ticks_S. unfold bind, runTick. run. rewrite Htick.
    rewrite runTickElection_waits;
      [|unfold MaxInt in *; lia|destruct Hwhy as [Hp|Hlt]; [by left|right; lia]].
    rewrite IH; cbn; try done; try lia.
    + f_equal. replace (electionElapsed r + 1 + Z.of_nat n)%Z
        with (electionElapsed r + Z.of_nat (S n))%Z by lia. reflexivity.
    + destruct Hwhy as [Hp|Hlt]; [by left|right; lia].
Qed.

(** A replica that is not promotable (it does not track itself, is a
    learner, or has a snapshot pending) never campaigns on a tick: however
    many election ticks it is given, it only counts them. *)
Theorem ticks_unpromotable (n : nat) (r : raft) :
  tick r = tickElection ->
  promotable r = false ->
  (0 <= electionElapsed r)%Z ->
  (electionElapsed r + Z.of_nat n <= MaxInt)%Z ->
  ticks n r = Ok tt (set_electionElapsed (electionElapsed r + Z.of_nat n) r).
Proof. intros Htick Hp H0 Hmax. apply ticks_count; try done. by left. Qed.

(** A promotable replica that is not the leader and has applied every
    committed configuration change starts to campaign at the tick on
    which its election timer reaches the randomized timeout, and not
    before: after the [n] silent ticks that lead up to it, the next tick
    leaves the replica as [campaign] does, in a pre-election if [preVote]
    is set and in an election otherwise, with the timer back at zero. *)
Theorem ticks_fire (n : nat) (r : raft) :
  tick r = tickElection ->
  state r <> StateLeader ->
  promotable r = true ->
  scannable (raftLog r) ->
  existsb isConfChange (unapplied (raftLog r)) = false ->
  (0 < electionTimeout r)%Z ->
  Term r < MaxUint64 ->
  (0 <= electionElapsed r)%Z ->
  (electionElapsed r + Z.of_nat n + 1 = randomizedElectionTimeout r)%Z ->
  (randomizedElectionTimeout r <= MaxInt)%Z ->
  ticks n r = Ok tt (set_electionElapsed (electionElapsed r + Z.of_nat n) r)
  /\ ticks (S n) r
     = Ok tt (afterCampaign
                (if preVote r then campaignPreElection else campaignElection)
                (set_electionElapsed 0%Z r)).
Proof.
  revert r. induction n as [|n IH];
    intros r Htick Hst Hp Hscan Hcc Het Hterm H0 Hfire Hmax.
  - split; [cbn; unfold ret; f_equal; by rewrite Z.add_0_r|].
    rewrite ticks_S. unfold bind, runTick. run. rewrite Htick.
    rewrite runTickElection_fires by (done || unfold MaxInt in *; lia).
    unfold bind.
    rewrite (Step_campaigns_ok _ (if preVote r then campaignPreElection else campaignElection));
      cbn; try done; try tauto.
  - split.
    { apply ticks_count; try done; try lia; right; lia. }
    rewrite ticks_S. unfold bind, runTick. run. rewrite Htick.
    rewrite runTickElection_waits; [|unfold MaxInt in *; lia|right; lia].
    destruct (IH (set_electionElapsed (electionElapsed r + 1) r)) as [_ Hrun];
      cbn; try done; try lia.
Qed.

(** The leader's quorum check, with the replica it leaves. *)
Definition afterCheckQuorum (r : raft) : raft :=
  let r1 := if tracker.QuorumActive (config r) (trk r) then r
            else afterBecomeFollower (Term r) (id r) r in
  set_trk (markInactive (id r) (trk r1)) r1.

Lemma Step_checkQuorum_ok (m : pb.Message) (r : raft) :
  pb.m_Type m = pb.MsgCheckQuorum ->
  pb.m_Term m = 0 ->
  step r = stepLeaderFn ->
  (0 < electionTimeout r)%Z ->
  Step m r = Ok None (afterCheckQuorum r).
Proof.
  intros Hty Hterm Hstep Het.
  assert (Hs : Step m r = stepType m r) by (unfold Step, bind; by rewrite stepTerm_local).
  rewrite Hs. unfold stepType. rewrite Hty. run. rewrite Hstep.
  unfold stepLeader. rewrite Hty. run. unfold afterCheckQuorum.
  destruct (tracker.QuorumActive (config r) (trk r)); cbn; [done|].
  by rewrite becomeFollower_ok by done.
Qed.

#[local] Arguments afterCheckQuorum : simpl never.

(** The replica after the first part of [tickHeartbeat], when the election
    timeout has passed. *)
Definition afterElectionTimeout (r : raft) : raft :=
  let r0 := set_electionElapsed 0%Z r in
  let r1 := if checkQuorum r then afterCheckQuorum r0 else r0 in
  if bool_decide (state r1 = StateLeader) && bool_decide (leadTransferee r1 <> NoneID)
  then set_leadTransferee NoneID r1 else r1.

Lemma tickHeartbeat_timeout_ok (r : raft) :
  step r = stepLeaderFn ->
  (0 < electionTimeout r)%Z ->
  tickHeartbeat_timeout r
  = Ok tt (if bool_decide (electionTimeout r <= electionElapsed r)%Z
           then afterElectionTimeout r else r).
Proof.
  intros Hstep Het. unfold tickHeartbeat_timeout, abortLeaderTransfer. run.
  destruct (bool_decide (electionTimeout r <= electionElapsed r)%Z); cbn; [|done].
  unfold afterElectionTimeout.
  destruct (checkQuorum r); cbn.
  - rewrite Step_checkQuorum_ok by done. cbn.
    by destruct (bool_decide _ && _).
  - by destruct (bool_decide _ && _).
Qed.

Lemma tickHeartbeat_beat_ok (r : raft) :
  (state r = StateLeader -> step r = stepLeaderFn) ->
  tickHeartbeat_beat r
  = if bool_decide (state r <> StateLeader) then Ok tt r
    else if bool_decide (heartbeatTimeout r <= heartbeatElapsed r)%Z
    then bind bcastHeartbeat (fun _ => ret tt) (set_heartbeatElapsed 0%Z r)
    else Ok tt r.
Proof.
  intros Hstep. unfold tickHeartbeat_beat. run.
  case_bool_decide as Hl; cbn; [done|]. try apply dec_stable in Hl.
  destruct (bool_decide (heartbeatTimeout r <= heartbeatElapsed r)%Z); cbn; [|done].
  rewrite Step_beat_dispatch by (done || by apply Hstep).
  unfold bind. cbn. by destruct (bcastHeartbeat _).
Qed.

Lemma afterCheckQuorum_leader (r : raft) :
  step r = stepLeaderFn ->
  state (afterCheckQuorum r) = StateLeader -> step (afterCheckQuorum r) = stepLeaderFn.
Proof.
  intros Hstep. unfold afterCheckQuorum.
  destruct (tracker.QuorumActive _ _); cbn; [done|discriminate].
Qed.

Lemma afterElectionTimeout_leader (r : raft) :
  step r = stepLeaderFn ->
  state (afterElectionTimeout r) = StateLeader ->
  step (afterElectionTimeout r) = stepLeaderFn.
Proof.
  intros Hstep. unfold afterElectionTimeout.
  destruct (checkQuorum r); cbn.
  - destruct (bool_decide _ && _); cbn; by apply afterCheckQuorum_leader.
  - by destruct (bool_decide _ && _).
Qed.

Lemma afterElectionTimeout_transferee (r : raft) :
  state (afterElectionTimeout r) = StateLeader ->
  leadTransferee (afterElectionTimeout r) = NoneID.
Proof.
  unfold afterElectionTimeout.
  set (r1 := if checkQuorum r then _ else _).
  destruct (bool_decide (state r1 = StateLeader)) eqn:Hl; cbn.
  - destruct (bool_decide (leadTransferee r1 <> NoneID)) eqn:Ht; cbn; [done|].
    intros _. apply bool_decide_eq_false in Ht. by apply dec_stable in Ht.
  - intros Hx. apply bool_decide_eq_false in Hl. done.
Qed.

(** The replica with both timers advanced by a tick. *)
Definition ticked (r : raft) : raft :=
  set_electionElapsed (electionElapsed r + 1)
    (set_heartbeatElapsed (heartbeatElapsed r + 1) r).

(** A heartbeat tick of the leader before the election timeout: the timers
    advance, and once the heartbeat timer has reached its timeout it goes
    back to zero and one heartbeat is sent to every other peer; nothing
    else changes. *)
Theorem tickHeartbeat_beats (r : raft) :
  state r = StateLeader ->
  step r = stepLeaderFn ->
  (0 < electionTimeout r)%Z ->
  (0 <= electionElapsed r < MaxInt)%Z ->
  (0 <= heartbeatElapsed r < MaxInt)%Z ->
  (electionElapsed r + 1 < electionTimeout r)%Z ->
  ((heartbeatElapsed r + 1 < heartbeatTimeout r)%Z ->
   runTickHeartbeat r = Ok tt (ticked r))
  /\ ((heartbeatTimeout r <= heartbeatElapsed r + 1)%Z ->
      exists r',
        runTickHeartbeat r = Ok tt r'
        /\ msgs r' = msgs r ++ heartbeats r (tracker.visitOrder (trk r))
        /\ heartbeatElapsed r' = 0%Z
        /\ electionElapsed r' = (electionElapsed r + 1)%Z
        /\ r' = set_trk (trk r') (set_msgs (msgs r') (set_heartbeatElapsed 0%Z (ticked r)))).
Proof.
  intros Hst Hstep Het He Hh Hno.
  assert (Hrun : runTickHeartbeat r = tickHeartbeat_beat (ticked r)).
  { unfold runTickHeartbeat. run.
    rewrite !i64_small by (unfold MaxInt in *; lia).
    rewrite tickHeartbeat_timeout_ok by done. cbn.
    by rewrite bool_decide_eq_false_2 by lia. }
  rewrite Hrun, tickHeartbeat_beat_ok by done. cbn.
  rewrite (bool_decide_eq_false_2 (state r <> StateLeader)) by (intros Hx; by apply Hx).
  split.
  - intros Hlt. by rewrite bool_decide_eq_false_2 by lia.
  - intros Hge. rewrite bool_decide_eq_true_2 by lia. unfold bind.
    destruct (bcastHeartbeat_ok (set_heartbeatElapsed 0%Z (ticked r)))
      as (r' & Hb & Hm & Ht & Hfr).
    rewrite Hb. exists r'. split; [done|]. split; [exact Hm|].
    split; [by rewrite Hfr|]. split; [by rewrite Hfr|]. exact Hfr.
Qed.

(** A heartbeat tick on which the election timeout passes: the election
    timer restarts, and a pending leadership transfer is given up, whether
    the leader stays leader or, with [checkQuorum], steps down for want of
    an active quorum; in that case it becomes a follower of the same term
    and sends no heartbeat on this tick. *)
Theorem tickHeartbeat_timeout_spec (r : raft) :
  state r = StateLeader ->
  step r = stepLeaderFn ->
  (0 < electionTimeout r)%Z ->
  (0 <= electionElapsed r < MaxInt)%Z ->
  (0 <= heartbeatElapsed r < MaxInt)%Z ->
  (electionTimeout r <= electionElapsed r + 1)%Z ->
  exists r',
    runTickHeartbeat r = Ok tt r'
    /\ leadTransferee r' = NoneID
    /\ Term r' = Term r
    /\ (checkQuorum r = true -> tracker.QuorumActive (config r) (trk r) = false ->
        state r' = StateFollower /\ lead r' = id r /\ msgs r' = msgs r
        /\ electionElapsed r' = 0%Z)
    /\ (checkQuorum r = false \/ tracker.QuorumActive (config r) (trk r) = true ->
        state r' = StateLeader /\ electionElapsed r' = 0%Z).
Proof.
  intros Hst Hstep Het He Hh Hto.
  assert (Hrun : runTickHeartbeat r = tickHeartbeat_beat (afterElectionTimeout (ticked r))).
  { unfold runTickHeartbeat. run.
    rewrite !i64_small by (unfold MaxInt in *; lia).
    rewrite tickHeartbeat_timeout_ok by done. cbn.
    by rewrite bool_decide_eq_true_2 by lia. }
  rewrite Hrun, tickHeartbeat_beat_ok by (by apply afterElectionTimeout_leader).
  set (r1 := afterElectionTimeout (ticked r)).
  assert (Hfacts : Term r1 = Term r
            /\ (state r1 = StateLeader \/ leadTransferee r1 = NoneID)
            /\ (checkQuorum r = true -> tracker.QuorumActive (config r) (trk r) = false ->
                state r1 = StateFollower /\ lead r1 = id r /\ msgs r1 = msgs r
                /\ electionElapsed r1 = 0%Z)
            /\ (checkQuorum r = false \/ tracker.QuorumActive (config r) (trk r) = true ->
                state r1 = StateLeader /\ electionElapsed r1 = 0%Z)).
  { subst r1. unfold afterElectionTimeout, afterCheckQuorum. cbn.
    destruct (checkQuorum r) eqn:Hcq; cbn;
      [destruct (tracker.QuorumActive (config r) (trk r)) eqn:Hqa; cbn|];
      rewrite ?Hst; decide_closed;
      try destruct (bool_decide (leadTransferee r <> NoneID)); cbn;
      (split; [try done; by rewrite bool_decide_eq_false_2 by (intros Hx; by apply Hx)|]);
      (split; [tauto|]);
      (split; [intros; try done|]);
      intros Hwhy; try done; destruct Hwhy; done. }
  destruct Hfacts as (Hterm & _ & Hdown & Hstay).
  case_bool_decide as Hl.
  - exists r1. split; [done|]. split; [|split; [done|split; [done|]]].
    + subst r1. unfold afterElectionTimeout, afterCheckQuorum in *. cbn in *.
      destruct (checkQuorum r); cbn in *.
      * destruct (tracker.QuorumActive (config r) (trk r)); cbn in *; [|done].
        rewrite Hst in *. revert Hl. decide_closed.
        by destruct (bool_decide (leadTransferee r <> NoneID)).
      * rewrite Hst in *. revert Hl. decide_closed.
        by destruct (bool_decide (leadTransferee r <> NoneID)).
    + intros Hwhy. destruct (Hstay Hwhy) as [Hx _]. done.
  - try apply dec_stable in Hl.
    pose proof (afterElectionTimeout_transferee (ticked r) Hl) as Htr.
    fold r1 in Htr.
    assert (Hnd : ~ (checkQuorum r = true
                     /\ tracker.QuorumActive (config r) (trk r) = false)).
    { intros [Hc Hq]. destruct (Hdown Hc Hq) as [Hx _]. congruence. }
    destruct (bool_decide (heartbeatTimeout r1 <= heartbeatElapsed r1)%Z).
    + unfold bind.
      destruct (bcastHeartbeat_ok (set_heartbeatElapsed 0%Z r1))
        as (r' & Hb & Hm & Ht & Hfr).
      rewrite Hb. exists r'. rewrite Hfr. cbn.
      split; [done|]. split; [done|]. split; [done|].
      split; [intros Hc Hq; exfalso; by apply Hnd|].
      intros Hwhy. destruct (Hstay Hwhy) as [Hx Hy]. done.
    + exists r1. split; [done|]. split; [done|]. split; [done|].
      split; [intros Hc Hq; exfalso; by apply Hnd|].
      intros Hwhy. by apply Hstay.
Qed.

End TickProperties.

(** ** Leadership transfer on the leader (lines 1331-1336, 1522-1525,
    1552-1583 and 2032-2034) *)

(** The assignment [pr.MsgAppProbesPaused = v]. *)
Definition set_MsgAppProbesPaused (v : bool) (p : tracker.Progress) : tracker.Progress :=
  {| tracker.Match := tracker.Match p; tracker.Next := tracker.Next p;
     tracker.State := tracker.State p;
     tracker.PendingSnapshot := tracker.PendingSnapshot p;
     tracker.RecentActive := tracker.RecentActive p;
     tracker.MsgAppProbesPaused := v;
     tracker.Inflights_ := tracker.Inflights_ p;
     tracker.IsLearner := tracker.IsLearner p;
     tracker.sentCommit := tracker.sentCommit p |}.

(** The literal [pb.Message{To: to, Type: pb.MsgTimeoutNow}]. *)
Definition timeoutNow (to : PeerID) : pb.Message :=
  pb.set_To to (pb.Message0 pb.MsgTimeoutNow).

(** [sendTimeoutNow] (lines 2032-2034). *)
Definition sendTimeoutNow (to : PeerID) : M unit := send (timeoutNow to).

Section Transfer.

Context `{External}.

(** The second switch of [stepLeader] (lines 1331-1585), over the messages
    that need the progress of their sender, for the two types whose
    handlers read and write nothing of the tracker but fields of that
    progress: [MsgHeartbeatResp] and [MsgTransferLeader].  [pr] points into
    the progress map at [m.From]: what is assigned through it is seen by
    [maybeSendAppend].  The handlers of [MsgAppResp], [MsgSnapStatus] and
    [MsgUnreachable] are not embedded. *)
Definition stepLeaderPeer (m : pb.Message) : M (option error) :=
  r <- get ;;
  match trk r !! pb.m_From m with
  | None => ret None
  | Some pr =>
      match pb.m_Type m with
      | pb.MsgHeartbeatResp =>
          modify (set_trk
            (<[pb.m_From m := set_MsgAppProbesPaused false
                                (tracker.set_RecentActive true pr)]> (trk r))) ;;
          _ <- maybeSendAppend (pb.m_From m) ;;
          ret None
      | pb.MsgTransferLeader =>
          if tracker.IsLearner pr then ret None
          else
            let leadTransferee_ := pb.m_From m in
            let lastLeadTransferee := leadTransferee r in
            if bool_decide (lastLeadTransferee <> NoneID)
               && bool_decide (lastLeadTransferee = leadTransferee_)
            then ret None
            else
              (if bool_decide (lastLeadTransferee <> NoneID)
               then abortLeaderTransfer else ret tt) ;;
              if bool_decide (leadTransferee_ = id r) then ret None
              else
                modify (set_electionElapsed 0%Z) ;;
                modify (set_leadTransferee leadTransferee_) ;;
                if bool_decide (tracker.Match pr = log.lastIndex (raftLog r))
                then sendTimeoutNow leadTransferee_ ;; ret None
                else
                  modify (fun r =>
                    set_trk (<[pb.m_From m := set_MsgAppProbesPaused false pr]> (trk r)) r) ;;
                  _ <- maybeSendAppend leadTransferee_ ;;
                  ret None
      | pb.MsgAppResp | pb.MsgSnapStatus | pb.MsgUnreachable =>
          outside "stepLeader: handler of a progress message"
      | _ => ret None
      end
  end.

(** A request to hand the leadership to the peer [m.From], which the
    leader tracks.  The leader ignores it when the peer is a learner, and
    when a transfer to that peer is already under way.  A request that
    names the leader itself starts nothing, but it has by then given up a
    transfer to another peer that was under way.  Otherwise the leader
    restarts its election timer and notes the peer in [leadTransferee];
    if the peer holds the whole log it is sent [MsgTimeoutNow] at once,
    and if not its probes are unpaused and an append is tried. *)
Theorem transferLeader_spec (m : pb.Message) (pr : tracker.Progress) (r : raft) :
  pb.m_Type m = pb.MsgTransferLeader ->
  trk r !! pb.m_From m = Some pr ->
  (tracker.IsLearner pr = true -> stepLeaderPeer m r = Ok None r)
  /\ (tracker.IsLearner pr = false ->
      leadTransferee r <> NoneID -> leadTransferee r = pb.m_From m ->
      stepLeaderPeer m r = Ok None r)
  /\ (tracker.IsLearner pr = false ->
      leadTransferee r <> pb.m_From m -> pb.m_From m = id r ->
      stepLeaderPeer m r = Ok None (set_leadTransferee NoneID r))
  /\ (tracker.IsLearner pr = false ->
      leadTransferee r = NoneID \/ leadTransferee r <> pb.m_From m ->
      pb.m_From m <> id r ->
      let r1 := set_leadTransferee (pb.m_From m) (set_electionElapsed 0%Z r) in
      (tracker.Match pr = log.lastIndex (raftLog r) ->
       stepLeaderPeer m r
       = Ok None (set_msgs
                    (msgs r ++ [pb.set_Term (Term r)
                                  (pb.set_From (id r) (timeoutNow (pb.m_From m)))]) r1))
      /\ (tracker.Match pr <> log.lastIndex (raftLog r) ->
          stepLeaderPeer m r
          = bind (maybeSendAppend (pb.m_From m)) (fun _ => ret None)
              (set_trk (<[pb.m_From m := set_MsgAppProbesPaused false pr]> (trk r)) r1))).
Proof.
  intros Hty Hpr. unfold stepLeaderPeer, abortLeaderTransfer, sendTimeoutNow.
  rewrite Hty. run. rewrite Hpr.
  split; [|split; [|split]].
  - intros ->. reflexivity.
  - intros -> Hn Heq. rewrite (bool_decide_eq_true_2 (leadTransferee r <> NoneID)) by done.
    by rewrite (bool_decide_eq_true_2 (leadTransferee r = pb.m_From m)) by done.
  - intros -> Hne Hself.
    rewrite (bool_decide_eq_false_2 (leadTransferee r = pb.m_From m)) by done.
    rewrite andb_false_r.
    destruct (bool_decide (leadTransferee r <> NoneID)) eqn:Hn; cbn.
    + by rewrite bool_decide_eq_true_2 by done.
    + rewrite bool_decide_eq_true_2 by done.
      apply bool_decide_eq_false in Hn. apply dec_stable in Hn.
      f_equal. rewrite <- Hn. reflexivity.
  - intros -> Hwhy Hself.
    assert (Hb : bool_decide (leadTransferee r <> NoneID)
                 && bool_decide (leadTransferee r = pb.m_From m) = false).
    { destruct Hwhy as [Hn|Hne].
      - by rewrite (bool_decide_eq_false_2 (leadTransferee r <> NoneID))
          by (intros Hx; by apply Hx).
      - rewrite (bool_decide_eq_false_2 (leadTransferee r = pb.m_From m)) by done.
        apply andb_false_r. }
    rewrite Hb. split.
    + intros Hmatch.
      destruct (bool_decide (leadTransferee r <> NoneID)); cbn;
        rewrite (bool_decide_eq_false_2 (pb.m_From m = id r)) by done;
        rewrite (bool_decide_eq_true_2 (tracker.Match pr = _)) by done;
        (rewrite send_msgs; cbn; try done;
           unfold isCampaignType, isAfterAppendType; cbn;
           intros Hx; decompose [or] Hx; discriminate).
    + intros Hmatch.
      destruct (bool_decide (leadTransferee r <> NoneID)); cbn;
        rewrite (bool_decide_eq_false_2 (pb.m_From m = id r)) by done;
        rewrite (bool_decide_eq_false_2 (tracker.Match pr = _)) by done;
        unfold bind; cbn; by destruct (maybeSendAppend _ _).
Qed.

End Transfer.

(** ** Switching to a configuration (lines 1953-2008) *)

(** The role of the replica: its state, its term, the leader it knows and
    the peer it transfers the leadership to. *)
Definition sameRole (r r' : raft) : Prop :=
  state r' = state r /\ Term r' = Term r /\ lead r' = lead r
  /\ leadTransferee r' = leadTransferee r.

#[global] Instance sameRole_refl : Reflexive sameRole.
Proof. by intros r. Qed.

#[global] Instance sameRole_trans : Transitive sameRole.
Proof.
  unfold sameRole. intros r1 r2 r3 (? & ? & ? & ?) (? & ? & ? & ?).
  repeat split; congruence.
Qed.

Create HintDb sameRole discriminated.

Lemma sameRole_send (m : pb.Message) : kept sameRole (send m).
Proof. intros r u r' Hs. apply send_frame in Hs. by rewrite Hs. Qed.

#[global] Hint Resolve sameRole_send : sameRole.
#[global] Hint Extern 0 (kept sameRole (ret _)) => exact (kept_ret sameRole _) : sameRole.
#[global] Hint Extern 0 (kept sameRole get) => exact (kept_get sameRole) : sameRole.
#[global] Hint Extern 0 (kept sameRole (panic _)) => apply kept_panic : sameRole.
#[global] Hint Extern 0 (kept sameRole (outside _)) => apply kept_outside : sameRole.

(** One step through a body that leaves the role alone. *)
Ltac sameRole_step :=
  first
    [ solve [auto with sameRole]
    | apply (kept_bind sameRole); [|intros ?]
    | apply (kept_forEach sameRole); intros ?
    | apply kept_modify; intros ?; by repeat split
    | match goal with
      | |- kept _ (if ?b then _ else _) => destruct b
      | |- kept _ (match ?x with _ => _ end) => destruct x
      end ].

Ltac sameRole_all := repeat sameRole_step.

Lemma sameRole_maybeCommit : kept sameRole maybeCommit.
Proof. unfold maybeCommit. sameRole_all. Qed.

Section SwitchToConfig.

Context `{External}.

(** [quorum.Config.ConfState], which raft.go calls and does not define. *)
Context (ConfStateOf : quorum.Config -> pb.ConfState).

Lemma sameRole_maybeSendAppend (to : PeerID) : kept sameRole (maybeSendAppend to).
Proof. unfold maybeSendAppend, maybeSendSnapshot, sendAppend. sameRole_all. Qed.

Lemma sameRole_bcastAppend : kept sameRole bcastAppend.
Proof.
  unfold bcastAppend. pose proof sameRole_maybeSendAppend. sameRole_all.
Qed.

(** [r.isLearner = pr != nil && pr.IsLearner], for [pr] the progress of the
    replica itself. *)
Definition selfLearner (self : PeerID) (progressMap : gmap N tracker.Progress) : bool :=
  match progressMap !! self with
  | Some pr => tracker.IsLearner pr
  | None => false
  end.

(** [switchToConfig] (lines 1959-2008).  [tracker.MakeProgressTracker]
    wraps the configuration and the progress map it is given. *)
Definition switchToConfig (cfg : quorum.Config)
    (progressMap : gmap N tracker.Progress) : M pb.ConfState :=
  modify (set_config cfg) ;;
  modify (set_trk progressMap) ;;
  r <- get ;;
  let cs := ConfStateOf (config r) in
  let pr := trk r !! id r in
  modify (set_isLearner (selfLearner (id r) (trk r))) ;;
  r <- get ;;
  if (bool_decide (pr = None) || isLearner r) && bool_decide (state r = StateLeader)
  then
    (if stepDownOnRemoval r then becomeFollower (Term r) (lead r) else ret tt) ;;
    ret cs
  else if bool_decide (state r <> StateLeader)
          || bool_decide (length (pb.cs_Voters cs) = 0%nat)
  then ret cs
  else
    _ <- maybeCommit ;;
    bcastAppend ;;
    r <- get ;;
    (if negb (bool_decide (leadTransferee r ∈ quorum.IDs (quorum.Voters (config r))))
        && bool_decide (leadTransferee r <> 0)
     then abortLeaderTransfer else ret tt) ;;
    ret cs.

(** The replica with the new configuration and progress map. *)
Definition switched (cfg : quorum.Config) (progressMap : gmap N tracker.Progress)
    (r : raft) : raft :=
  set_isLearner (selfLearner (id r) progressMap) (set_trk progressMap (set_config cfg r)).

(** The replica is no longer a voter or a learner of the progress map, or
    it is a learner there. *)
Definition removedOrDemoted (self : PeerID) (progressMap : gmap N tracker.Progress) : Prop :=
  progressMap !! self = None \/ selfLearner self progressMap = true.

#[global] Instance removedOrDemoted_dec self pm : Decision (removedOrDemoted self pm).
Proof. unfold removedOrDemoted. apply _. Defined.

Lemma switchToConfig_head (cfg : quorum.Config) (pm : gmap N tracker.Progress) (r : raft) :
  (bool_decide (trk (switched cfg pm r) !! id r = None) || isLearner (switched cfg pm r))
  = bool_decide (removedOrDemoted (id r) pm).
Proof.
  cbn. destruct (decide (removedOrDemoted (id r) pm)) as [Hrm|Hrm].
  - rewrite (bool_decide_eq_true_2 _ Hrm). destruct Hrm as [->| ->]; [done|].
    apply orb_true_r.
  - rewrite (bool_decide_eq_false_2 _ Hrm). unfold removedOrDemoted in Hrm.
    destruct (selfLearner (id r) pm); [exfalso; apply Hrm; by right|].
    rewrite orb_false_r. apply bool_decide_eq_false_2. intros Hx. apply Hrm. by left.
Qed.

(** Switching to a configuration replaces the configuration, the progress
    map and [isLearner], and answers the [ConfState] of the configuration.
    On a replica that is not the leader that is all; so it is on a leader
    that the new configuration has removed or demoted and that is not to
    step down on removal, which stays leader, and on a leader whose
    [ConfState] has no voter.  A removed or demoted leader that is to step
    down becomes a follower of the same term and with the same [lead]. *)
Theorem switchToConfig_quiet (cfg : quorum.Config) (pm : gmap N tracker.Progress)
    (r : raft) :
  (state r <> StateLeader ->
   switchToConfig cfg pm r = Ok (ConfStateOf cfg) (switched cfg pm r))
  /\ (state r = StateLeader -> removedOrDemoted (id r) pm ->
      stepDownOnRemoval r = false ->
      switchToConfig cfg pm r = Ok (ConfStateOf cfg) (switched cfg pm r))
  /\ (state r = StateLeader -> removedOrDemoted (id r) pm ->
      stepDownOnRemoval r = true -> (0 < electionTimeout r)%Z ->
      switchToConfig cfg pm r
      = Ok (ConfStateOf cfg) (afterBecomeFollower (Term r) (lead r) (switched cfg pm r)))
  /\ (state r = StateLeader -> ~ removedOrDemoted (id r) pm ->
      pb.cs_Voters (ConfStateOf cfg) = [] ->
      switchToConfig cfg pm r = Ok (ConfStateOf cfg) (switched cfg pm r)).
Proof.
  pose proof (switchToConfig_head cfg pm r) as Hhead. cbn in Hhead.
  unfold switchToConfig. run. rewrite Hhead.
  split; [|split; [|split]].
  - intros Hst. rewrite (bool_decide_eq_false_2 (state r = StateLeader)) by done.
    rewrite andb_false_r. by rewrite (bool_decide_eq_true_2 (state r <> StateLeader)) by done.
  - intros Hst Hrm Hsd. rewrite (bool_decide_eq_true_2 (removedOrDemoted _ _)) by done.
    rewrite (bool_decide_eq_true_2 (state r = StateLeader)) by done. cbn.
    by rewrite Hsd.
  - intros Hst Hrm Hsd Het. rewrite (bool_decide_eq_true_2 (removedOrDemoted _ _)) by done.
    rewrite (bool_decide_eq_true_2 (state r = StateLeader)) by done. cbn.
    rewrite Hsd. unfold bind. by rewrite becomeFollower_ok by done.
  - intros Hst Hrm Hcs. rewrite (bool_decide_eq_false_2 (removedOrDemoted _ _)) by done.
    cbn. rewrite Hcs. cbn.
    rewrite (bool_decide_eq_true_2 (0%nat = 0%nat)) by done.
    by rewrite orb_true_r.
Qed.

(** A leader that stays in the configuration, when the switch returns: it
    is still the leader of its term, under the new configuration and
    tracking the peers of the new progress map; its commit index has not
    gone down; and a leadership transfer it had under way goes on only if
    the peer is a voter of the new configuration: otherwise it is given
    up. *)
Theorem switchToConfig_leader (cfg : quorum.Config) (pm : gmap N tracker.Progress)
    (r r' : raft) (cs : pb.ConfState) :
  state r = StateLeader ->
  ~ removedOrDemoted (id r) pm ->
  pb.cs_Voters (ConfStateOf cfg) <> [] ->
  switchToConfig cfg pm r = Ok cs r' ->
  cs = ConfStateOf cfg
  /\ config r' = cfg /\ dom (trk r') = dom pm /\ isLearner r' = false
  /\ state r' = StateLeader /\ Term r' = Term r
  /\ log.committed (raftLog r) <= log.committed (raftLog r')
  /\ leadTransferee r'
     = (if bool_decide (leadTransferee r ∈ quorum.IDs (quorum.Voters cfg))
        then leadTransferee r else NoneID).
Proof.
  intros Hst Hrm Hcs.
  pose proof (switchToConfig_head cfg pm r) as Hhead. cbn in Hhead.
  assert (Hl : selfLearner (id r) pm = false).
  { destruct (selfLearner (id r) pm) eqn:E; [|done]. exfalso. apply Hrm. by right. }
  unfold switchToConfig, abortLeaderTransfer. run. rewrite Hhead.
  rewrite (bool_decide_eq_false_2 (removedOrDemoted _ _)) by done. cbn.
  rewrite (bool_decide_eq_false_2 (state r <> StateLeader)) by (intros Hx; by apply Hx).
  cbn. rewrite (bool_decide_eq_false_2 (length _ = 0%nat))
    by (destruct (pb.cs_Voters (ConfStateOf cfg)); done).
  fold (switched cfg pm r).
  destruct (maybeCommit (switched cfg pm r)) as [b r1| |] eqn:Hmc; try discriminate.
  destruct (bcastAppend r1) as [u r2| |] eqn:Hbc; try discriminate.
  pose proof (sameRole_maybeCommit _ _ _ Hmc) as (Hs1 & Ht1 & _ & Hx1).
  pose proof (sameRole_bcastAppend _ _ _ Hbc) as (Hs2 & Ht2 & _ & Hx2).
  pose proof (keeps_maybeCommit _ _ _ Hmc) as [Hk1 [Hc1 _]].
  pose proof (keeps_bcastAppend _ _ _ Hbc) as [Hk2 [Hc2 _]].
  destruct Hk1 as (_ & Hcf1 & Hil1 & _ & _ & _ & _ & _ & _ & _ & _ & _ & _ & _ & _ & Hd1 & _).
  destruct Hk2 as (_ & Hcf2 & Hil2 & _ & _ & _ & _ & _ & _ & _ & _ & _ & _ & _ & _ & Hd2 & _).
  cbn in *.
  assert (Hcfg : config r2 = cfg) by (by etrans).
  assert (Hlt : leadTransferee r2 = leadTransferee r) by (by etrans).
  assert (Hil : isLearner r2 = false) by (etrans; [done|by etrans]).
  assert (Hs : state r2 = StateLeader) by (etrans; [done|by etrans]).
  assert (Ht : Term r2 = Term r) by (by etrans).
  assert (Hd : dom (trk r2) = dom pm) by (by etrans).
  assert (Hc : log.committed (raftLog r) <= log.committed (raftLog r2))
    by exact (N.le_trans _ _ _ Hc1 Hc2).
  clear - Hcfg Hlt Hil Hs Ht Hd Hc.
  rewrite Hcfg, Hlt.
  destruct (bool_decide (leadTransferee r ∈ _)) eqn:Hin; cbn.
  - by intros [= <- <-].
  - destruct (bool_decide (leadTransferee r <> 0)) eqn:Hz; cbn;
      intros [= <- <-]; cbn; repeat split; try done.
    apply bool_decide_eq_false in Hz. apply dec_stable in Hz. by etrans.
Qed.

End SwitchToConfig.

(** ** The size of the uncommitted tail (lines 2048-2075) *)

(** Reducing the uncommitted size subtracts and stops at zero: it never
    wraps around, and touches nothing else.  It undoes an increase that was
    accepted: after [increaseUncommittedSize] has taken entries in, reducing
    by the size of their payloads gives the replica back. *)
Theorem reduceUncommittedSize_spec (s : N) (r : raft) :
  uncommittedSize r <= MaxUint64 ->
  s <= MaxUint64 ->
  reduceUncommittedSize s r = Ok tt (set_uncommittedSize (uncommittedSize r - s) r)
  /\ (forall (es : list pb.Entry) (r0 : raft),
        uncommittedSize r0 + payloadsSize es <= MaxUint64 ->
        s = payloadsSize es ->
        increaseUncommittedSize es r0 = Ok true r ->
        reduceUncommittedSize s r = Ok tt r0).
Proof.
  intros Hu Hs.
  assert (Hred : reduceUncommittedSize s r
                 = Ok tt (set_uncommittedSize (uncommittedSize r - s) r)).
  { unfold reduceUncommittedSize. run. case_bool_decide as Hlt; cbn.
    - f_equal. f_equal. lia.
    - f_equal. f_equal. unfold sub64. rewrite (u64_small s) by done.
      unfold u64, MaxUint64 in *.
      replace (uncommittedSize r + 18446744073709551616 - s)
        with (uncommittedSize r - s + 1 * 18446744073709551616) by lia.
      rewrite N.Div0.mod_add. apply N.mod_small. lia. }
  split; [exact Hred|].
  intros es r0 Hsum -> Hinc. rewrite Hred. f_equal.
  revert Hinc. unfold increaseUncommittedSize. run.
  destruct (_ && _); [discriminate|]. cbn. intros [= <-]. cbn.
  rewrite u64_small by done.
  replace (uncommittedSize r0 + payloadsSize es - payloadsSize es)
    with (uncommittedSize r0) by lia.
  reflexivity.
Qed.

(** ** Further worked examples *)

(** A configuration that leaves its limits to the defaults. *)
Definition sampleCfg : @Config unit unit unit :=
  {| ID := 1; ElectionTick := 10%Z; HeartbeatTick := 1%Z; Storage := Some tt;
     Applied := 0; AsyncStorageWrites := false; MaxSizePerMsg := 1048576;
     MaxCommittedSizePerReady := 0; MaxUncommittedEntriesSize := 0;
     MaxInflightMsgs := 256%Z; MaxInflightBytes := 0; CheckQuorum := true;
     PreVote := true; Logger := None; DisableProposalForwarding := false;
     DisableConfChangeValidation := false; StepDownOnRemoval := false;
     StoreLiveness := None |}.

(** Its validated form is accepted as it is, with every limit set. *)
Lemma validate_idempotent_witness :
  validate tt (withDefaults tt sampleCfg) = (withDefaults tt sampleCfg, None)
  /\ MaxUncommittedEntriesSize (withDefaults tt sampleCfg) <> 0
  /\ MaxInflightBytes (withDefaults tt sampleCfg) <> 0
  /\ MaxSizePerMsg (withDefaults tt sampleCfg) <= MaxInflightBytes (withDefaults tt sampleCfg)
  /\ Logger (withDefaults tt sampleCfg) <> None.
Proof.
  apply (validate_idempotent tt sampleCfg (withDefaults tt sampleCfg)).
  - vm_compute. intros Hx. discriminate Hx.
  - vm_compute. reflexivity.
Defined.

(** A heartbeat of leader 2 at the follower's term. *)
Definition sampleHeartbeat : pb.Message :=
  {| pb.m_Type := pb.MsgHeartbeat; pb.m_To := 1; pb.m_From := 2; pb.m_Term := 5;
     pb.m_LogTerm := 0; pb.m_Index := 0; pb.m_Entries := [];
     pb.m_Commit := 1; pb.m_Match := 1; pb.m_Snapshot := None;
     pb.m_Reject := false; pb.m_RejectHint := 0; pb.m_Context := [] |}.

(** The follower answers it to peer 2 and restarts its election timer. *)
Lemma Step_heartbeat_witness :
  exists r',
    @Step sampleExternal sampleHeartbeat sampleFollower = Ok None r'
    /\ lead r' = 2
    /\ electionElapsed r' = 0%Z
    /\ msgs r' = [pb.set_Term 5 (pb.set_From 1 (heartbeatResp 2))]
    /\ log.ents (raftLog r') = log.ents (raftLog sampleFollower).
Proof.
  destruct (@Step_heartbeat sampleExternal sampleHeartbeat sampleFollower
              eq_refl eq_refl eq_refl) as [Hok _].
  destruct Hok as (r' & Hrun & Hl & He & _ & _ & Hents & Hm & _).
  - vm_compute. intros Hx. discriminate Hx.
  - vm_compute. intros Hx. discriminate Hx.
  - exists r'. split; [exact Hrun|]. split; [exact Hl|]. split; [exact He|].
    split; [exact Hm|exact Hents].
Defined.

(** An append of term 3 reaches the follower of term 5: it is answered with
    the follower's term and changes nothing else. *)
Lemma Step_stale_witness :
  @Step sampleExternal (pb.set_Term 3 sampleAppend) sampleFollower
  = Ok None (set_msgsAfterAppend
               [pb.set_Term 5 (pb.set_From 1 (appResp 2 0 false 0 0))] sampleFollower).
Proof.
  apply (@Step_stale sampleExternal (pb.set_Term 3 sampleAppend) sampleFollower).
  - vm_compute. intros Hx. discriminate Hx.
  - vm_compute. reflexivity.
Defined.

(** The follower forwards a proposal to its leader, peer 2. *)
Lemma Step_prop_not_leader_witness :
  @Step sampleExternal proposal400 sampleFollower
  = Ok None (set_msgs [outbound sampleFollower (pb.set_To 2 proposal400)] sampleFollower)
  /\ pb.m_To (outbound sampleFollower (pb.set_To 2 proposal400)) = 2.
Proof.
  destruct (@Step_prop_not_leader sampleExternal proposal400 sampleFollower
              eq_refl eq_refl) as (_ & _ & Hfwd).
  destruct (Hfwd eq_refl) as (Hrun & Hto & _).
  - vm_compute. intros Hx. discriminate Hx.
  - reflexivity.
  - vm_compute. intros Hx. discriminate Hx.
  - split; [exact Hrun|exact Hto].
Defined.

(** A leader that is handing the leadership to peer 2 drops a proposal. *)
Lemma Step_prop_refused_witness :
  @Step sampleExternal proposal400 (set_leadTransferee 2 sampleLeader)
  = Ok (Some ErrProposalDropped) (set_leadTransferee 2 sampleLeader).
Proof.
  destruct (@Step_prop_refused sampleExternal proposal400 (set_leadTransferee 2 sampleLeader)
              eq_refl eq_refl eq_refl) as [_ Hdrop].
  apply Hdrop.
  - vm_compute. intros Hx. discriminate Hx.
  - right. vm_compute. intros Hx. discriminate Hx.
Defined.

(** The leader checks its quorum: the peers were active, so it goes on and
    marks them inactive for the next round. *)
Lemma Step_checkQuorum_witness :
  @Step sampleExternal (pb.Message0 pb.MsgCheckQuorum) sampleLeader
  = Ok None (set_trk (markInactive 1 (trk sampleLeader)) sampleLeader).
Proof.
  destruct (@Step_checkQuorum sampleExternal (pb.Message0 pb.MsgCheckQuorum) sampleLeader
              eq_refl eq_refl eq_refl eq_refl)
    as (r' & Hrun & _ & _ & _ & _ & _ & _ & _ & Hact & _).
  rewrite Hrun. f_equal. apply Hact. vm_compute. reflexivity.
Defined.

(** The follower starts an election: it is a candidate of term 6 that has
    voted for itself. *)
Lemma campaign_spec_witness :
  exists r',
    campaign campaignElection sampleFollower = Ok tt r'
    /\ state r' = StateCandidate /\ Term r' = 6 /\ Vote r' = 1
    /\ lead r' = NoneID.
Proof.
  destruct (campaign_spec campaignElection sampleFollower)
    as (r' & Hrun & _ & _ & _ & Hel & Hlead & _).
  - discriminate.
  - reflexivity.
  - reflexivity.
  - destruct Hel as (Hs & Ht & Hv); [discriminate|].
    exists r'. split; [exact Hrun|]. split; [exact Hs|]. split; [exact Ht|].
    split; [exact Hv|exact Hlead].
Defined.

(** [MsgHup] on the follower, which has pre-vote on: it campaigns in a
    pre-election. *)
Lemma Step_campaigns_witness :
  @Step sampleExternal (pb.Message0 pb.MsgHup) sampleFollower
  = Ok None (afterCampaign campaignPreElection sampleFollower).
Proof.
  destruct (@Step_campaigns sampleExternal (pb.Message0 pb.MsgHup) campaignPreElection
              sampleFollower) as [Hrun _].
  - left. split; reflexivity.
  - left. reflexivity.
  - discriminate.
  - vm_compute. reflexivity.
  - repeat split; vm_compute; (reflexivity || (intros Hx; discriminate Hx)).
  - vm_compute. reflexivity.
  - reflexivity.
  - reflexivity.
  - exact Hrun.
Defined.

(** [MsgBeat] on the leader: heartbeats for the peers 2 and 3. *)
Lemma Step_beat_witness :
  exists r',
    @Step sampleExternal (pb.Message0 pb.MsgBeat) sampleLeader = Ok None r'
    /\ msgs r' = heartbeats sampleLeader [1; 2; 3]
    /\ pb.m_To <$> msgs r' = [2; 3].
Proof.
  destruct (@Step_beat sampleExternal (pb.Message0 pb.MsgBeat) sampleLeader
              eq_refl eq_refl eq_refl) as (r' & Hrun & Hm & _).
  exists r'. split; [exact Hrun|]. rewrite Hm. split; vm_compute; reflexivity.
Defined.

(** The append of scenario S3 leaves the follower's setup as it was. *)
Lemma Step_keeps_setup_witness :
  exists e r',
    @Step sampleExternal sampleAppend sampleFollower = Ok e r'
    /\ sameSetup sampleFollower r'.
Proof.
  eexists. eexists. split; [vm_compute; reflexivity|].
  eapply (@Step_keeps_setup sampleExternal sampleAppend sampleFollower).
  vm_compute. reflexivity.
Defined.

(** The append of scenario S3 raises the follower's commit index, within
    its log. *)
Lemma Step_commit_grows_witness :
  exists e r',
    @Step sampleExternal sampleAppend sampleFollower = Ok e r'
    /\ log.committed (raftLog sampleFollower) <= log.committed (raftLog r')
    /\ log.committed (raftLog r') <= log.lastIndex (raftLog r').
Proof.
  eexists. eexists. split; [vm_compute; reflexivity|].
  edestruct (@Step_commit_grows sampleExternal sampleAppend sampleFollower)
    as (Hc & Hl & _); [vm_compute; reflexivity|].
  split; [exact Hc|]. apply Hl. vm_compute. intros Hx. discriminate Hx.
Defined.

(** A vote request of term 6 takes the voter of term 5 to a term between 5
    and 7. *)
Lemma Step_term_grows_witness :
  exists e r',
    @Step sampleExternal (voteRequest pb.MsgVote 2 6 5 9) sampleVoter = Ok e r'
    /\ 5 <= Term r' <= 7.
Proof.
  eexists. eexists. split; [vm_compute; reflexivity|].
  eapply (@Step_term_grows sampleExternal (voteRequest pb.MsgVote 2 6 5 9) sampleVoter).
  - reflexivity.
  - reflexivity.
  - intros Hx. discriminate Hx.
  - vm_compute. reflexivity.
Defined.

(** A follower that tracks no peer counts five ticks and does nothing
    else. *)
Lemma ticks_unpromotable_witness :
  @ticks sampleExternal 5 (set_trk ∅ sampleFollower)
  = Ok tt (set_electionElapsed 8%Z (set_trk ∅ sampleFollower)).
Proof.
  apply (@ticks_unpromotable sampleExternal 5 (set_trk ∅ sampleFollower)).
  - reflexivity.
  - vm_compute. reflexivity.
  - vm_compute. intros Hx. discriminate Hx.
  - vm_compute. intros Hx. discriminate Hx.
Defined.

(** The follower, three ticks into a randomized timeout of fourteen: ten
    ticks only count, the eleventh starts a pre-election. *)
Lemma ticks_fire_witness :
  @ticks sampleExternal 10 sampleFollower
  = Ok tt (set_electionElapsed 13%Z sampleFollower)
  /\ @ticks sampleExternal 11 sampleFollower
     = Ok tt (afterCampaign campaignPreElection (set_electionElapsed 0%Z sampleFollower)).
Proof.
  apply (@ticks_fire sampleExternal 10 sampleFollower).
  - reflexivity.
  - discriminate.
  - vm_compute. reflexivity.
  - repeat split; vm_compute; (reflexivity || (intros Hx; discriminate Hx)).
  - vm_compute. reflexivity.
  - reflexivity.
  - reflexivity.
  - vm_compute. intros Hx. discriminate Hx.
  - vm_compute. reflexivity.
  - vm_compute. intros Hx. discriminate Hx.
Defined.

(** A tick of the leader, whose heartbeat timeout is one tick: it sends its
    heartbeats. *)
Lemma tickHeartbeat_beats_witness :
  exists r',
    @runTickHeartbeat sampleExternal sampleLeader = Ok tt r'
    /\ msgs r' = heartbeats sampleLeader [1; 2; 3]
    /\ heartbeatElapsed r' = 0%Z
    /\ electionElapsed r' = 4%Z.
Proof.
  destruct (@tickHeartbeat_beats sampleExternal sampleLeader eq_refl eq_refl eq_refl)
    as [_ Hbeat].
  - split; vm_compute; (reflexivity || (intros Hx; discriminate Hx)).
  - split; vm_compute; (reflexivity || (intros Hx; discriminate Hx)).
  - vm_compute. reflexivity.
  - destruct Hbeat as (r' & Hrun & Hm & Hh & He & _).
    + vm_compute. intros Hx. discriminate Hx.
    + exists r'. split; [exact Hrun|]. split; [exact Hm|]. split; [exact Hh|exact He].
Defined.

(** A tick of the leader at its election timeout: its quorum was active,
    so it stays leader and starts the next round. *)
Lemma tickHeartbeat_timeout_spec_witness :
  exists r',
    @runTickHeartbeat sampleExternal (set_electionElapsed 9%Z sampleLeader) = Ok tt r'
    /\ leadTransferee r' = NoneID
    /\ state r' = StateLeader
    /\ electionElapsed r' = 0%Z.
Proof.
  destruct (@tickHeartbeat_timeout_spec sampleExternal (set_electionElapsed 9%Z sampleLeader)
              eq_refl eq_refl eq_refl)
    as (r' & Hrun & Hlt & _ & _ & Hstay).
  - split; vm_compute; (reflexivity || (intros Hx; discriminate Hx)).
  - split; vm_compute; (reflexivity || (intros Hx; discriminate Hx)).
  - vm_compute. intros Hx. discriminate Hx.
  - destruct Hstay as [Hs He]; [right; vm_compute; reflexivity|].
    exists r'. split; [exact Hrun|]. split; [exact Hlt|]. split; [exact Hs|exact He].
Defined.

(** Peer 2, which holds the whole log, asks for the leadership. *)
Definition transferRequest : pb.Message :=
  pb.set_From 2 (pb.Message0 pb.MsgTransferLeader).

(** The leader notes the transfer and sends [MsgTimeoutNow] at once. *)
Lemma transferLeader_spec_witness :
  @stepLeaderPeer sampleExternal transferRequest sampleLeader
  = Ok None (set_msgs [pb.set_Term 5 (pb.set_From 1 (timeoutNow 2))]
               (set_leadTransferee 2 (set_electionElapsed 0%Z sampleLeader))).
Proof.
  destruct (@transferLeader_spec sampleExternal transferRequest (sampleProgress 9 10)
              sampleLeader) as (_ & _ & _ & Hgo).
  - reflexivity.
  - vm_compute. reflexivity.
  - destruct Hgo as [Hnow _].
    + reflexivity.
    + left. reflexivity.
    + vm_compute. intros Hx. discriminate Hx.
    + apply Hnow. vm_compute. reflexivity.
Defined.

(** The [ConfState] of the sample configuration. *)
Definition sampleConfState (c : quorum.Config) : pb.ConfState :=
  {| pb.cs_Voters := [1; 2; 3]; pb.cs_Learners := []; pb.cs_VotersOutgoing := [];
     pb.cs_LearnersNext := []; pb.cs_AutoLeave := false |}.

(** The leader, handing over to peer 4, switches to the configuration of
    the voters 1, 2 and 3: it stays leader and gives the transfer up. *)
Lemma switchToConfig_leader_witness :
  exists cs r',
    @switchToConfig sampleExternal sampleConfState sampleConfig (trk sampleLeader)
       (set_leadTransferee 4 sampleLeader) = Ok cs r'
    /\ state r' = StateLeader
    /\ config r' = sampleConfig
    /\ leadTransferee r' = NoneID.
Proof.
  eexists. eexists. split; [vm_compute; reflexivity|].
  edestruct (@switchToConfig_leader sampleExternal sampleConfState sampleConfig
              (trk sampleLeader) (set_leadTransferee 4 sampleLeader))
    as (_ & Hc & _ & _ & Hs & _ & _ & Hlt);
    [| | |vm_compute; reflexivity|].
  - reflexivity.
  - vm_compute. intros [Hx|Hx]; discriminate Hx.
  - discriminate.
  - split; [exact Hs|]. split; [exact Hc|]. exact Hlt.
Defined.

(** The loaded leader sees 400 bytes committed: 400 bytes of its
    uncommitted tail are left. *)
Lemma reduceUncommittedSize_spec_witness :
  reduceUncommittedSize 400 loadedLeader = Ok tt (set_uncommittedSize 400 loadedLeader).
Proof.
  destruct (reduceUncommittedSize_spec 400 loadedLeader) as [Hred _].
  - vm_compute. intros Hx. discriminate Hx.
  - vm_compute. intros Hx. discriminate Hx.
  - exact Hred.
Defined.
